(** * QuadcastRGB: device input/output (src/modules/devio.c)

    A shallow embedding of the USB side of quadcastrgb: the identity table
    and the device matcher, the opening of the microphone, the packet
    codec, the streaming loop of [send_packets] and its reconnection code.

    The C functions become functions of a small state monad over a [World]:
    the world holds the global flag [nonstop], the answers of the outside
    world (libusb return values, signal deliveries) and the trace of the
    actions performed so far. *)

From Stdlib Require Import String.
From Stdlib Require Import ZArith List Bool Lia Arith.
Import ListNotations.
Open Scope Z_scope.

Module Devio.

(** ** Constants of devio.c *)

Definition byte_t := Z.

Definition PACKET_SIZE : Z := 64.
Definition HEADER_CODE : byte_t := 0x04.
Definition DISPLAY_CODE : byte_t := 0xf2.
Definition PACKET_CNT : byte_t := 0x01.
Definition TIMEOUT : Z := 1000.

Definition LIBUSB_ERROR_NO_DEVICE : Z := -4.
Definition LIBUSB_ERROR_BUSY : Z := -6.

(** Messages: the English texts behind the gettext macro [_], without
    their final newline. *)
Definition DEVLIST_ERR_MSG : string :=
  "Couldn't get the list of USB devices."%string.
Definition NODEV_ERR_MSG : string :=
  "HyperX Quadcast S/DuoCast isn't connected or accessible through USB."%string.
Definition OPEN_ERR_MSG : string := "Couldn't open the microphone."%string.
Definition BUSY_ERR_MSG : string :=
  "Another program is using the microphone already. Stopping."%string.

(** Error codes: [enum { libusberr = 2, nodeverr, devopenerr, transfererr }]. *)
Definition libusberr : Z := 2.
Definition nodeverr : Z := 3.
Definition devopenerr : Z := 4.
Definition transfererr : Z := 5.

(** Vendor and product identifiers. *)
Definition DEV_VID_KINGSTON : Z := 0x0951.
Definition DEV_VID_HP : Z := 0x03f0.
Definition product_ids_kingston : list Z := [0x171f].
Definition product_ids_hp : list Z := [0x0f8b; 0x028c; 0x048c; 0x068c; 0x098c].

(** A value of C type [short] obtained from an [int]: 16-bit wrap-around. *)
Definition to_short (z : Z) : Z :=
  let m := z mod 65536 in if m <? 32768 then m else m - 65536.

(** ** Devices and the device matcher *)

Record libusb_device_descriptor := mkDescr {
  idVendor : Z;
  idProduct : Z
}.

(** A device of the enumeration: what [libusb_get_device_descriptor] returns
    for it (a negative code on failure) and the descriptor it fills in. *)
Record libusb_device := mkDevice {
  dev_id : nat;
  descriptor_ret : Z;
  descriptor : libusb_device_descriptor
}.

Definition libusb_get_device_descriptor (dev : libusb_device)
  : Z * libusb_device_descriptor :=
  (descriptor_ret dev, descriptor dev).

(** The loop [for (i = 0; i < arr_size; i++)] of [is_compatible_mic]. *)
Fixpoint scan_product_ids (product : Z) (product_id_arr : list Z) : Z :=
  match product_id_arr with
  | [] => 0
  | id :: rest => if product =? id then 1 else scan_product_ids product rest
  end.

Definition is_compatible_mic (dev : libusb_device) : Z :=
  let '(ret, descr) := libusb_get_device_descriptor dev in
  if ret <? 0 then 0
  else if idVendor descr =? DEV_VID_KINGSTON then
    scan_product_ids (idProduct descr) product_ids_kingston
  else if idVendor descr =? DEV_VID_HP then
    scan_product_ids (idProduct descr) product_ids_hp
  else 0.

(** The identity table as the specification lists it: pairs of a vendor
    and a product identifier. *)
Definition identity_table : list (Z * Z) :=
  [ (0x0951, 0x171f);
    (0x03f0, 0x0f8b); (0x03f0, 0x028c); (0x03f0, 0x048c);
    (0x03f0, 0x068c); (0x03f0, 0x098c) ].

(** ** The packet codec *)

(** The C initializer of [header_packet] lists 32 elements. *)
Definition header_packet_initializer : list byte_t :=
  [ HEADER_CODE; DISPLAY_CODE; 0; 0; 0; 0; 0; 0; PACKET_CNT; 0; 0; 0;
    0; 0; 0; 0; 0; 0; 0; 0; 0; 0; 0; 0; 0; 0; 0; 0; 0; 0; 0; 0 ].

(** [T a[n] = { ... }]: the elements the initializer does not list are
    zero. *)
Definition array_init (n : Z) (initializer : list byte_t) : list byte_t :=
  initializer ++ repeat 0 (Z.to_nat n - length initializer).

Definition header_packet : list byte_t :=
  array_init PACKET_SIZE header_packet_initializer.

(** [calloc(n, 1)]. *)
Definition calloc (n : Z) : list byte_t := repeat 0 (Z.to_nat n).

(** The bytes of the colour commands: the flat memory that the first
    element of [data_arr] starts; [byte_at data i] is its byte at offset
    [i]. *)
Definition byte_at (data : list byte_t) (i : Z) : byte_t :=
  nth (Z.to_nat i) data 0.

(** The [n] bytes [memcpy] reads, from offset [src] on. *)
Fixpoint read_bytes (data : list byte_t) (src : Z) (n : nat) : list byte_t :=
  match n with
  | O => []
  | S n' => byte_at data src :: read_bytes data (src + 1) n'
  end.

(** [memcpy(packet, colcommand, n)]: the first [n] bytes of the buffer are
    overwritten, the others keep their value. *)
Definition memcpy (packet : list byte_t) (data : list byte_t) (src : Z) (n : Z)
  : list byte_t :=
  read_bytes data src (Z.to_nat n) ++ skipn (Z.to_nat n) packet.

(** ** The outcome of a run *)

(** A run returns a value, runs out of fuel, ends the process with
    [exit(code)], or reaches an action whose behaviour the C language
    leaves undefined; nothing is said of what comes after such an
    action. *)
Inductive Res (A : Type) :=
| Ret (a : A)
| Timeout
| Exited (code : Z)
| Undefined.
Arguments Ret {A} a.
Arguments Timeout {A}.
Arguments Exited {A} code.
Arguments Undefined {A}.

(** ** Becoming a daemon *)

(** [daemonize] is followed in one process at a time: the state is that
    of the process that runs the code, and [fork] returns in it what the
    outside world says, a positive number in a parent, 0 in a child and a
    negative number when no child could be made. *)
Module Daemon.

(** The format of the line for the user, without its final newline. *)
Definition PID_MSG : string := "Started with pid %d"%string.

Inductive AccessMode := O_RDONLY | O_WRONLY.

Record OpenFile := mkOpenFile {
  file_path : string;
  file_mode : AccessMode
}.

(** The state of the process: the answers of [fork] and the identifier of
    the process after each of them; its working directory; whether it
    leads its process group, whether it leads its session, and whether
    its session was made by [setsid] since the start; its table of file
    descriptors, where entry number [fd] is the file open on [fd]; what is
    waiting in the buffer of stdout, as pairs of a format and its
    argument; and what has been written to which file, newest first. *)
Record Process := mkProcess {
  fork_ret : nat -> Z;
  pid_after : nat -> Z;
  forks : nat;
  cwd : string;
  group_leader : bool;
  session_leader : bool;
  new_session : bool;
  descriptors : list (option OpenFile);
  stdout_buffer : list (string * Z);
  written : list (OpenFile * list (string * Z))
}.

Definition D (A : Type) := Process -> Res A * Process.

Definition D_ret {A} (a : A) : D A := fun p => (Ret a, p).

Definition D_bind {A B} (m : D A) (f : A -> D B) : D B :=
  fun p =>
    match m p with
    | (Ret a, p') => f a p'
    | (Timeout, p') => (Timeout, p')
    | (Exited c, p') => (Exited c, p')
    | (Undefined, p') => (Undefined, p')
    end.

(** What has been written once the buffer of stdout is written out: the
    text goes to the file that is open on descriptor 1, if there is
    one. *)
Definition flushed (p : Process) : list (OpenFile * list (string * Z)) :=
  match stdout_buffer p, nth_error (descriptors p) 1 with
  | _ :: _, Some (Some f) => (f, stdout_buffer p) :: written p
  | _, _ => written p
  end.

(** [exit(code)]: the C library writes out the buffer of stdout on the
    way out. Of the streams only stdout is followed. *)
Definition D_exit {A} (code : Z) : D A :=
  fun p =>
    (Exited code,
     mkProcess (fork_ret p) (pid_after p) (forks p) (cwd p)
               (group_leader p) (session_leader p) (new_session p)
               (descriptors p) [] (flushed p)).

Declare Scope daemon_scope.
Delimit Scope daemon_scope with daemon.
Notation "x <- c1 ;; c2" := (D_bind c1 (fun x => c2))
  (at level 61, c1 at next level, right associativity) : daemon_scope.
Notation "c1 ;; c2" := (D_bind c1 (fun _ => c2))
  (at level 61, right associativity) : daemon_scope.
Local Open Scope daemon_scope.

Definition chdir (path : string) : D unit :=
  fun p => (Ret tt,
            mkProcess (fork_ret p) (pid_after p) (forks p) path
                      (group_leader p) (session_leader p) (new_session p)
                      (descriptors p) (stdout_buffer p) (written p)).

(** [fork()]: where it returns 0 the process is the child, which leads
    neither a group nor a session. *)
Definition fork : D Z :=
  fun p =>
    let r := fork_ret p (forks p) in
    let child := r =? 0 in
    (Ret r,
     mkProcess (fork_ret p) (pid_after p) (S (forks p)) (cwd p)
               (if child then false else group_leader p)
               (if child then false else session_leader p)
               (new_session p)
               (descriptors p) (stdout_buffer p) (written p)).

(** [setsid()] fails in the leader of a process group; elsewhere it makes
    a session and a group that the process leads. *)
Definition setsid : D unit :=
  fun p =>
    if group_leader p then (Ret tt, p)
    else (Ret tt,
          mkProcess (fork_ret p) (pid_after p) (forks p) (cwd p) true true
                    true (descriptors p) (stdout_buffer p) (written p)).

Definition getpid : D Z := fun p => (Ret (pid_after p (forks p)), p).

(** [printf(format, arg)] puts the text in the buffer of stdout. *)
Definition printf (format : string) (arg : Z) : D unit :=
  fun p => (Ret tt,
            mkProcess (fork_ret p) (pid_after p) (forks p) (cwd p)
                      (group_leader p) (session_leader p) (new_session p)
                      (descriptors p)
                      (stdout_buffer p ++ [(format, arg)]) (written p)).

(** [fflush(stdout)] writes the buffer to the file that is open on
    descriptor 1, if there is one, and empties it. *)
Definition fflush_stdout : D unit :=
  fun p =>
    (Ret tt,
     mkProcess (fork_ret p) (pid_after p) (forks p) (cwd p)
               (group_leader p) (session_leader p) (new_session p)
               (descriptors p) [] (flushed p)).

Fixpoint set_descriptor (table : list (option OpenFile)) (fd : nat)
    (entry : option OpenFile) : list (option OpenFile) :=
  match table, fd with
  | [], _ => []
  | _ :: rest, O => entry :: rest
  | x :: rest, S fd' => x :: set_descriptor rest fd' entry
  end.

(** The lowest descriptor that is not in use. *)
Fixpoint lowest_free (table : list (option OpenFile)) : option nat :=
  match table with
  | [] => None
  | None :: _ => Some O
  | Some _ :: rest => option_map S (lowest_free rest)
  end.

(** [close(fd)]. *)
Definition close (fd : nat) : D unit :=
  fun p => (Ret tt,
            mkProcess (fork_ret p) (pid_after p) (forks p) (cwd p)
                      (group_leader p) (session_leader p) (new_session p)
                      (set_descriptor (descriptors p) fd None)
                      (stdout_buffer p) (written p)).

(** [open(path, mode)] takes the lowest descriptor that is not in use;
    it returns -1 when the table is full. *)
Definition open (path : string) (mode : AccessMode) : D Z :=
  fun p =>
    match lowest_free (descriptors p) with
    | Some fd =>
        (Ret (Z.of_nat fd),
         mkProcess (fork_ret p) (pid_after p) (forks p) (cwd p)
                   (group_leader p) (session_leader p) (new_session p)
                   (set_descriptor (descriptors p) fd
                                   (Some (mkOpenFile path mode)))
                   (stdout_buffer p) (written p))
    | None => (Ret (-1), p)
    end.

(** [daemonize(verbose)], of the build for Linux without DEBUG. *)
Definition daemonize (verbose : Z) : D unit :=
  chdir "/" ;;
  pid <- fork ;;
  if 0 <? pid then D_exit 0
  else
    setsid ;;
    pid <- fork ;;
    if 0 <? pid then D_exit 0
    else
      (if negb (verbose =? 0) then
         pid <- getpid ;; printf PID_MSG pid
       else D_ret tt) ;;
      fflush_stdout ;;
      close 0 ;;
      close 1 ;;
      close 2 ;;
      open "/dev/null" O_RDONLY ;;
      open "/dev/null" O_WRONLY ;;
      open "/dev/null" O_WRONLY ;;
      D_ret tt.

End Daemon.

(** ** The outside world *)

(** A [libusb_device_handle *]: [NULL] is 0, the handle that the n-th call
    of [libusb_open] creates is [S n]. *)
Definition Handle := nat.
Definition NULL : Handle := O.

Inductive FrameKind := HeaderFrame | DataFrame.

(** What is written on stderr: a text, the text of [libusb_strerror] for an
    error code, or the line of [perror] for a prefix. *)
Inductive Output :=
| Text (s : string)
| Strerror (errcode : Z)
| Perror (s : string).

(** The actions of the program that the outside world sees, and the reads
    of the flag [nonstop]. In [EvTransfer], [kind] tells the call site
    ([send_display_command] or the transfer of the data packet) and [pos]
    is the read position [colcommand] of the loop at the call, as an offset
    from the start of the stream; neither is sent on the wire. [EvSignal]
    is a call of [signal], which installs the handler; [EvHandler] is a
    run of the handler before [nonstop] is set to 1. *)
Inductive Event :=
| EvNonstop (value : bool)
| EvTransfer (kind : FrameKind) (handle : Handle) (pos : Z)
             (packet : list byte_t) (ret : Z)
| EvUsleep (usec : Z)
| EvInit (ret : Z)
| EvGetDeviceList (cnt : Z)
| EvFreeDeviceList
| EvOpen (dev : nat) (errcode : Z) (handle : Handle)
| EvClose (handle : Handle)
| EvAutoDetach (handle : Handle)
| EvClaim (handle : Handle) (iface : Z) (errcode : Z)
| EvRelease (handle : Handle) (iface : Z)
| EvStderr (out : list Output)
| EvFreeData
| EvLibusbExit
| EvDaemonize (verbose : Z)
| EvSignal (signum : Z)
| EvHandler.

(** The answers of the outside world, each indexed by the number of the
    call: whether a SIGINT or SIGTERM has been delivered since the last
    read of [nonstop], and the return values of libusb. A signal may also
    come early, when [send_packets] has installed the handlers and has
    not set [nonstop] to 1 yet. [startup] is the state of the process
    when the program starts: its directory, its descriptors, and what
    [fork] will answer in it. *)
Record Env := mkEnv {
  early_signal : bool;
  signal_at : nat -> bool;
  transfer_ret : nat -> Z;
  init_ret : Z;
  device_list : nat -> Z * list libusb_device;
  open_ret : nat -> Z;
  claim_ret : nat -> Z;
  startup : Daemon.Process
}.

(** The state: the global [nonstop], the number of calls made so far,
    the trace, newest event first, and the state of the process. *)
Record World := mkWorld {
  env : Env;
  nonstop : bool;
  reads : nat;
  transfers : nat;
  listings : nat;
  opens : nat;
  claims : nat;
  trace : list Event;
  process : Daemon.Process
}.

Definition init_world (e : Env) : World :=
  mkWorld e false 0 0 0 0 0 [] (startup e).

(** ** The monad: state, process exit and fuel *)

Definition M (A : Type) := World -> Res A * World.

Definition ret {A} (a : A) : M A := fun w => (Ret a, w).

Definition bind {A B} (m : M A) (f : A -> M B) : M B :=
  fun w =>
    match m w with
    | (Ret a, w') => f a w'
    | (Timeout, w') => (Timeout, w')
    | (Exited c, w') => (Exited c, w')
    | (Undefined, w') => (Undefined, w')
    end.

Definition timeout {A} : M A := fun w => (Timeout, w).

(** [exit(code)]. *)
Definition exit {A} (code : Z) : M A := fun w => (Exited code, w).

(** An action whose behaviour is undefined. *)
Definition undefined {A} : M A := fun w => (Undefined, w).

Declare Scope devio_scope.
Delimit Scope devio_scope with devio.
Notation "x <- c1 ;; c2" := (bind c1 (fun x => c2))
  (at level 61, c1 at next level, right associativity) : devio_scope.
Notation "' pat <- c1 ;; c2" :=
  (bind c1 (fun x => match x with pat => c2 end))
  (at level 61, pat pattern, c1 at next level, right associativity)
  : devio_scope.
Notation "c1 ;; c2" := (bind c1 (fun _ => c2))
  (at level 61, right associativity) : devio_scope.
Open Scope devio_scope.

Definition log (e : Event) : M unit :=
  fun w => (Ret tt,
            mkWorld (env w) (nonstop w) (reads w) (transfers w) (listings w)
                    (opens w) (claims w) (e :: trace w) (process w)).

(** A read of the volatile [nonstop]: the handler [nonstop_reset_handler]
    has set it to 0 if a signal was delivered since the last read. *)
Definition read_nonstop : M bool :=
  fun w =>
    let v := nonstop w && negb (signal_at (env w) (reads w)) in
    (Ret v,
     mkWorld (env w) v (S (reads w)) (transfers w) (listings w)
             (opens w) (claims w) (EvNonstop v :: trace w) (process w)).

(** [nonstop = 1]. *)
Definition set_nonstop : M unit :=
  fun w => (Ret tt,
            mkWorld (env w) true (reads w) (transfers w) (listings w)
                    (opens w) (claims w) (trace w) (process w)).

(** [libusb_control_transfer(handle, BMREQUEST_TYPE_OUT, BREQUEST_OUT,
    WVALUE, WINDEX, packet, PACKET_SIZE, TIMEOUT)]. *)
Definition libusb_control_transfer (kind : FrameKind) (handle : Handle)
    (pos : Z) (packet : list byte_t) : M Z :=
  fun w =>
    let r := transfer_ret (env w) (transfers w) in
    (Ret r,
     mkWorld (env w) (nonstop w) (reads w) (S (transfers w)) (listings w)
             (opens w) (claims w)
             (EvTransfer kind handle pos packet r :: trace w) (process w)).

Definition usleep (usec : Z) : M unit := log (EvUsleep usec).

Definition libusb_init : M Z :=
  fun w => let r := init_ret (env w) in
    (Ret r,
     mkWorld (env w) (nonstop w) (reads w) (transfers w) (listings w)
             (opens w) (claims w) (EvInit r :: trace w) (process w)).

(** The value of a variable [libusb_device **devs]: it points to a list
    of devices that libusb made and has not freed, or it points to no
    list: it has not been given a value yet, or the list it pointed to
    has been freed. *)
Inductive DevList :=
| NoList
| Listed (devices : list libusb_device).

(** The devices that are read through [devs]. *)
Definition devices (devs : DevList) : list libusb_device :=
  match devs with
  | NoList => []
  | Listed l => l
  end.

(** [libusb_get_device_list(NULL, &devs)]: libusb makes a list and stores
    its address in the variable when it succeeds; when it fails, with a
    negative count, it leaves the variable as it is. *)
Definition libusb_get_device_list (devs : DevList) : M (Z * DevList) :=
  fun w =>
    let r := device_list (env w) (listings w) in
    let devs' := if fst r <? 0 then devs else Listed (snd r) in
    (Ret (fst r, devs'),
     mkWorld (env w) (nonstop w) (reads w) (transfers w) (S (listings w))
             (opens w) (claims w) (EvGetDeviceList (fst r) :: trace w)
             (process w)).

(** [libusb_free_device_list(devs, 1)] frees the list that [devs] points
    to. With a variable that points to no list the behaviour is
    undefined; after the call the variable of the caller points to no
    list any more. *)
Definition libusb_free_device_list (devs : DevList) : M unit :=
  match devs with
  | Listed _ => log EvFreeDeviceList
  | NoList => undefined
  end.

(** [libusb_open(dev, &handle)]: on success the handle is a new one, on
    failure the variable keeps its value. *)
Definition libusb_open (dev : libusb_device) (handle : Handle)
  : M (Z * Handle) :=
  fun w =>
    let errcode := open_ret (env w) (opens w) in
    let handle' := if errcode =? 0 then S (opens w) else handle in
    (Ret (errcode, handle'),
     mkWorld (env w) (nonstop w) (reads w) (transfers w) (listings w)
             (S (opens w)) (claims w)
             (EvOpen (dev_id dev) errcode handle' :: trace w) (process w)).

Definition libusb_close (handle : Handle) : M unit := log (EvClose handle).

Definition libusb_set_auto_detach_kernel_driver (handle : Handle) : M unit :=
  log (EvAutoDetach handle).

Definition libusb_claim_interface (handle : Handle) (iface : Z) : M Z :=
  fun w =>
    let r := claim_ret (env w) (claims w) in
    (Ret r,
     mkWorld (env w) (nonstop w) (reads w) (transfers w) (listings w)
             (opens w) (S (claims w)) (EvClaim handle iface r :: trace w)
             (process w)).

Definition libusb_release_interface (handle : Handle) (iface : Z) : M unit :=
  log (EvRelease handle iface).

Definition fprintf_stderr (out : list Output) : M unit := log (EvStderr out).

(** [libusb_free_device_list(devs, 1); free(data_arr); libusb_exit(NULL);
    exit(libusberr)], with the [devs] of [open_micro]. *)
Definition FREE_AND_EXIT {A} (devs : DevList) : M A :=
  libusb_free_device_list devs ;;
  log EvFreeData ;;
  log EvLibusbExit ;;
  exit libusberr.

(** ** Opening the microphone *)

Fixpoint dev_search_loop (devs : list libusb_device)
  : M (option libusb_device) :=
  match devs with
  | [] => ret None
  | dev :: rest =>
      usleep 10000 ;;
      if negb (is_compatible_mic dev =? 0) then ret (Some dev)
      else dev_search_loop rest
  end.

(** [for(dev = devs; dev < devs+cnt; dev++)]. *)
Definition dev_search (devs : list libusb_device) (cnt : Z)
  : M (option libusb_device) :=
  dev_search_loop (firstn (Z.to_nat cnt) devs).

(** The retry loop of [claim_dev_interface]; the result tells whether the
    function returned 0 from inside the loop, and the last two error
    codes. The condition of a loop is tested before fuel is looked at, so
    that a loop that is over never runs out of fuel. *)
Fixpoint claim_loop (fuel : nat) (handle : Handle) (retry : Z)
    (errcode0 errcode1 : Z) : M (bool * (Z * Z)) :=
  if retry <? 3 then
    match fuel with
    | O => timeout
    | S fuel' =>
        (if 0 <? retry then usleep 100000 else ret tt) ;;
        errcode0 <- libusb_claim_interface handle 0 ;;
        errcode1 <- libusb_claim_interface handle 1 ;;
        if (errcode0 =? 0) && (errcode1 =? 0) then
          ret (true, (errcode0, errcode1))
        else
          (if errcode0 =? 0 then libusb_release_interface handle 0
           else ret tt) ;;
          (if errcode1 =? 0 then libusb_release_interface handle 1
           else ret tt) ;;
          claim_loop fuel' handle (retry + 1) errcode0 errcode1
    end
  else ret (false, (errcode0, errcode1)).

(** The build without DEBUG: the residual failure prints nothing. *)
Definition claim_dev_interface (handle : Handle) : M Z :=
  libusb_set_auto_detach_kernel_driver handle ;;
  ' (claimed, (errcode0, errcode1)) <- claim_loop 3 handle 0 0 0 ;;
  if (claimed : bool) then ret 0
  else if (errcode0 =? LIBUSB_ERROR_BUSY) || (errcode1 =? LIBUSB_ERROR_BUSY)
  then fprintf_stderr [Text BUSY_ERR_MSG] ;; ret 1
  else if (errcode0 =? LIBUSB_ERROR_NO_DEVICE)
          || (errcode1 =? LIBUSB_ERROR_NO_DEVICE)
  then fprintf_stderr [Text OPEN_ERR_MSG] ;; ret 1
  else ret 1.

(** The enumeration loop of [open_micro]: the result is [micro_dev] and
    the variable [devs] at the end. A list that has been freed leaves
    [devs] pointing to no list for the next turn. *)
Fixpoint search_loop (fuel : nat) (retry_count : Z) (devs : DevList)
  : M (option libusb_device * DevList) :=
  if retry_count <? 3 then
    match fuel with
    | O => timeout
    | S fuel' =>
        (if 0 <? retry_count then usleep 500000 else ret tt) ;;
        ' (dev_count, devs) <- libusb_get_device_list devs ;;
        if dev_count <? 0 then
          if retry_count <? 2 then
            libusb_free_device_list devs ;;
            search_loop fuel' (retry_count + 1) NoList
          else
            fprintf_stderr [Text DEVLIST_ERR_MSG] ;;
            FREE_AND_EXIT devs
        else
          micro_dev <- dev_search (devices devs) dev_count ;;
          match micro_dev with
          | Some dev => ret (Some dev, devs)
          | None =>
              libusb_free_device_list devs ;;
              search_loop fuel' (retry_count + 1) NoList
          end
    end
  else ret (None, devs).

(** The opening loop of [open_micro]; [errcode] is a [short] there. *)
Fixpoint open_loop (fuel : nat) (micro_dev : libusb_device) (retry_count : Z)
    (errcode : Z) (handle : Handle) : M (Z * Handle) :=
  if retry_count <? 3 then
    match fuel with
    | O => timeout
    | S fuel' =>
        (if 0 <? retry_count then usleep 200000 else ret tt) ;;
        ' (e, handle) <- libusb_open micro_dev handle ;;
        let errcode := to_short e in
        if errcode =? 0 then ret (errcode, handle)
        else open_loop fuel' micro_dev (retry_count + 1) errcode handle
    end
  else ret (errcode, handle).

(** [open_micro(data_arr)]. The call of [libusb_set_option] has no effect
    that is observed here and is left out. The variable [devs] has no
    value when the search starts. *)
Definition open_micro : M Handle :=
  errcode <- libusb_init ;;
  if negb (to_short errcode =? 0) then
    fprintf_stderr [Perror "libusb_init"%string] ;;
    log EvFreeData ;;
    exit libusberr
  else
    ' (micro_dev, devs) <- search_loop 3 0 NoList ;;
    match micro_dev with
    | None =>
        fprintf_stderr [Text NODEV_ERR_MSG] ;;
        FREE_AND_EXIT devs
    | Some dev =>
        ' (errcode, handle) <- open_loop 3 dev 0 (to_short errcode) NULL ;;
        if negb (errcode =? 0) then
          fprintf_stderr [Strerror errcode; Text OPEN_ERR_MSG] ;;
          FREE_AND_EXIT devs
        else
          errcode <- claim_dev_interface handle ;;
          if negb (to_short errcode =? 0) then
            libusb_close handle ;;
            FREE_AND_EXIT devs
          else
            libusb_free_device_list devs ;;
            ret handle
    end.

(** ** The streaming loop and the reconnection *)

Section Streaming.

(** [BYTE_STEP] and [count_color_commands] come from rgbmodes.h and
    rgbmodes.c: the number of bytes of one colour and the number of colour
    commands of the packets of [data_arr]. *)
Variable BYTE_STEP : Z.
Variable count_color_commands : list byte_t -> Z -> Z -> Z.

Definition send_display_command (packet : list byte_t) (handle : Handle)
    (pos : Z) : M Z :=
  sent <- libusb_control_transfer HeaderFrame handle pos packet ;;
  ret (to_short sent).

(** The loop of [display_data_arr]; [colcommand] and [end_] are offsets
    from the start of the stream, [packet] is the buffer of the data
    packet. *)
Fixpoint display_loop (fuel : nat) (handle : Handle) (data : list byte_t)
    (end_ : Z) (colcommand : Z) (packet : list byte_t) : M Z :=
  go <- (if colcommand <? end_ then read_nonstop else ret false) ;;
  if (go : bool) then
    match fuel with
    | O => timeout
    | S fuel' =>
        sent <- send_display_command header_packet handle colcommand ;;
        if negb (sent =? PACKET_SIZE) then ret (-1)
        else
          let packet := memcpy packet data colcommand (2 * BYTE_STEP) in
          sent <- libusb_control_transfer DataFrame handle colcommand packet ;;
          if negb (to_short sent =? PACKET_SIZE) then ret (-1)
          else
            usleep (1000 * 20) ;;
            display_loop fuel' handle data end_
                         (colcommand + 2 * BYTE_STEP) packet
    end
  else ret 0.

(** [display_data_arr(handle, colcommand, end)]. The loop advances by
    [2*BYTE_STEP] bytes a turn, so [end - colcommand] turns are enough
    when [BYTE_STEP] is positive. *)
Definition display_data_arr (handle : Handle) (data : list byte_t)
    (colcommand end_ : Z) : M Z :=
  display_loop (Z.to_nat (end_ - colcommand)) handle data end_ colcommand
               (calloc PACKET_SIZE).

(** The loop of [attempt_reconnect]: [inl handle] when the function
    returned the handle from inside the loop. *)
Fixpoint reopen_loop (fuel : nat) (micro_dev : libusb_device) (retry : Z)
    (handle : Handle) (devs : DevList) : M (option Handle) :=
  if retry <? 3 then
    match fuel with
    | O => timeout
    | S fuel' =>
        ' (errcode, handle) <- libusb_open micro_dev handle ;;
        r <- (if errcode =? 0 then
                errcode <- claim_dev_interface handle ;;
                if errcode =? 0 then
                  libusb_free_device_list devs ;;
                  ret (inl handle)
                else
                  libusb_close handle ;;
                  ret (inr NULL)
              else ret (inr handle)) ;;
        match r with
        | inl handle => ret (Some handle)
        | inr handle =>
            usleep 200000 ;;
            reopen_loop fuel' micro_dev (retry + 1) handle devs
        end
    end
  else ret None.

(** [attempt_reconnect()]. Its variable [devs] has no value before the
    call of [libusb_get_device_list]; its variable [cnt] is an [int], and
    the count that libusb returns, the number of devices of the list or
    an error code, is taken to fit it. *)
Definition attempt_reconnect : M Handle :=
  ' (cnt, devs) <- libusb_get_device_list NoList ;;
  if cnt <? 0 then ret NULL
  else
    micro_dev <- dev_search (devices devs) cnt ;;
    match micro_dev with
    | None =>
        libusb_free_device_list devs ;;
        ret NULL
    | Some dev =>
        r <- reopen_loop 3 dev 0 NULL devs ;;
        match r with
        | Some handle => ret handle
        | None =>
            libusb_free_device_list devs ;;
            ret NULL
        end
    end.

(** [while(nonstop && current_handle == NULL)]. The counter
    [reconnect_attempts] is only printed in the DEBUG build. *)
Fixpoint reconnect_loop (fuel : nat) (current_handle : Handle)
    (reconnect_attempts : Z) : M (Handle * Z) :=
  go <- read_nonstop ;;
  if go && (current_handle =? NULL)%nat then
    match fuel with
    | O => timeout
    | S fuel' =>
        new_handle <- attempt_reconnect ;;
        if negb (new_handle =? NULL)%nat then
          reconnect_loop fuel' new_handle 0
        else
          usleep 2000000 ;;
          reconnect_loop fuel' current_handle (reconnect_attempts + 1)
    end
  else ret (current_handle, reconnect_attempts).

(** [libusb_release_interface(h, 0); libusb_release_interface(h, 1);
    libusb_close(h)] under [if(current_handle)]. *)
Definition release_and_close (current_handle : Handle) : M unit :=
  if negb (current_handle =? NULL)%nat then
    libusb_release_interface current_handle 0 ;;
    libusb_release_interface current_handle 1 ;;
    libusb_close current_handle
  else ret tt.

(** The reconnection, the body of [if(display_result != 0 && nonstop)]:
    the broken connection is released, then, one second later, the device
    is looked for until it is found or the flag is reset. *)
Definition reconnection (rfuel : nat) (current_handle : Handle)
    (reconnect_attempts : Z) : M (Handle * Z) :=
  release_and_close current_handle ;;
  usleep 1000000 ;;
  reconnect_loop rfuel NULL reconnect_attempts.

(** [while(nonstop)] of [send_packets]; [rfuel] is the fuel of each run of
    the reconnection loop. *)
Fixpoint send_loop (fuel rfuel : nat) (data : list byte_t) (command_cnt : Z)
    (current_handle : Handle) (reconnect_attempts : Z) : M Handle :=
  go <- read_nonstop ;;
  if (go : bool) then
    match fuel with
    | O => timeout
    | S fuel' =>
        display_result <- display_data_arr current_handle data 0
                            (2 * BYTE_STEP * command_cnt) ;;
        reconnect <- (if negb (display_result =? 0) then read_nonstop
                      else ret false) ;;
        if (reconnect : bool) then
          ' (current_handle, reconnect_attempts) <-
              reconnection rfuel current_handle reconnect_attempts ;;
          send_loop fuel' rfuel data command_cnt current_handle
                    reconnect_attempts
        else
          send_loop fuel' rfuel data command_cnt current_handle
                    reconnect_attempts
    end
  else ret current_handle.

Definition SIGINT : Z := 2.
Definition SIGTERM : Z := 15.

(** A step of the process that runs the program: what [m] makes of the
    state of the process, [exit] included. *)
Definition in_process {A} (m : Daemon.D A) : M A :=
  fun w =>
    (fst (m (process w)),
     mkWorld (env w) (nonstop w) (reads w) (transfers w) (listings w)
             (opens w) (claims w) (trace w) (snd (m (process w)))).

(** [nonstop_reset_handler(s)]: [nonstop = 0]. *)
Definition nonstop_reset_handler : M unit :=
  fun w => (Ret tt,
            mkWorld (env w) false (reads w) (transfers w) (listings w)
                    (opens w) (claims w) (trace w) (process w)).

(** The signal that comes early, if one does: the handler runs. The
    signals that come later are seen in the reads of the flag. *)
Definition early_delivery : M unit :=
  fun w =>
    if early_signal (env w) then (log EvHandler ;; nonstop_reset_handler) w
    else (Ret tt, w).

(** [send_packets(handle, data_arr, pck_cnt, verbose)], the build for
    Linux without DEBUG. [command_cnt] is a [short]. A signal may come
    between the calls of [signal] and [nonstop = 1]. [fuel] bounds the
    number of turns of the loop [while(nonstop)] and of each run of the
    reconnection loop. *)
Definition send_packets (fuel : nat) (handle : Handle) (data_arr : list byte_t)
    (pck_cnt verbose : Z) : M unit :=
  log (EvDaemonize verbose) ;;
  in_process (Daemon.daemonize verbose) ;;
  let command_cnt := to_short (count_color_commands data_arr pck_cnt 0) in
  log (EvSignal SIGINT) ;;
  log (EvSignal SIGTERM) ;;
  early_delivery ;;
  set_nonstop ;;
  current_handle <- send_loop fuel fuel data_arr command_cnt handle 0 ;;
  release_and_close current_handle.

(** The start of a run of [open_micro] and of [send_packets] on the handle
    it returned, up to the first call of the reconnection: the first pass
    over the stream, then the read of the flag in
    [if(display_result != 0 && nonstop)]. *)
Definition first_failure (data_arr : list byte_t) (pck_cnt verbose : Z)
  : M Handle :=
  handle <- open_micro ;;
  log (EvDaemonize verbose) ;;
  in_process (Daemon.daemonize verbose) ;;
  let command_cnt := to_short (count_color_commands data_arr pck_cnt 0) in
  log (EvSignal SIGINT) ;;
  log (EvSignal SIGTERM) ;;
  early_delivery ;;
  set_nonstop ;;
  read_nonstop ;;
  display_data_arr handle data_arr 0 (2 * BYTE_STEP * command_cnt) ;;
  read_nonstop ;;
  ret handle.

(** * Reasoning about runs *)

(** The history of a world: its trace, oldest event first. *)
Definition history (w : World) : list Event := rev (trace w).

(** [wp m Q w]: the run of [m] from [w] ends in a result and a world that
    satisfy [Q]. *)
Definition wp {A} (m : M A) (Q : Res A -> World -> Prop) (w : World) : Prop :=
  Q (fst (m w)) (snd (m w)).

(** The transfers of a trace, newest first. *)
Record Transfer := mkTransfer {
  t_kind : FrameKind;
  t_handle : Handle;
  t_pos : Z;
  t_packet : list byte_t;
  t_ret : Z
}.

Fixpoint transfer_log (tr : list Event) : list Transfer :=
  match tr with
  | [] => []
  | EvTransfer k h p pk r :: older =>
      mkTransfer k h p pk r :: transfer_log older
  | _ :: older => transfer_log older
  end.

(** A transfer succeeded when it moved [PACKET_SIZE] bytes: the test
    [sent != PACKET_SIZE] on the [short] variable. *)
Definition succeeded (t : Transfer) : bool :=
  to_short (t_ret t) =? PACKET_SIZE.

Definition is_transfer (e : Event) : bool :=
  match e with EvTransfer _ _ _ _ _ => true | _ => false end.

(** [extends P w w']: [w'] comes from [w] by more events, all of them in
    [P], with the same outside world; the flag [nonstop] and the number
    of its reads are the same when none of the events is a read of it. *)
Definition is_read (e : Event) : bool :=
  match e with EvNonstop _ => true | _ => false end.

Definition extends (P : Event -> Prop) (w w' : World) : Prop :=
  env w' = env w /\
  exists evs, trace w' = evs ++ trace w /\ Forall P evs /\
              (Forall (fun e => is_read e = false) evs ->
               nonstop w' = nonstop w /\ reads w' = reads w).

(** [emits P m]: whatever the world and the outcome, [m] only adds events
    of [P]. *)
Definition emits {A} (P : Event -> Prop) (m : M A) : Prop :=
  forall w, extends P w (snd (m w)).

(** The events of the reconnection code: enumeration, opening, claiming,
    releasing, waiting and messages. *)
Definition reconnect_event (e : Event) : Prop :=
  match e with
  | EvGetDeviceList _ | EvFreeDeviceList | EvUsleep _ | EvOpen _ _ _
  | EvClose _ | EvAutoDetach _ | EvClaim _ _ _ | EvRelease _ _
  | EvStderr _ => True
  | _ => False
  end.

(** The transfers of a world, oldest first. *)
Definition transfers_sent (w : World) : list Transfer :=
  rev (transfer_log (trace w)).

(** The protocol of the streaming loop, as a relation between a transfer
    [t] and the transfer [prev] made just before it (if any): a data packet
    follows a header that succeeded, on the same handle and at the same
    read position; a header carries [header_packet] and either opens a pass
    at position 0, after a failed transfer or a data packet, or follows a
    data packet that succeeded, one step further on the same handle. *)
Definition follows (prev : option Transfer) (t : Transfer) : Prop :=
  match t_kind t with
  | HeaderFrame =>
      t_packet t = header_packet /\
      match prev with
      | None => t_pos t = 0
      | Some p =>
          if succeeded p then
            t_kind p = DataFrame /\
            (t_pos t = 0 \/
             (t_pos t = t_pos p + 2 * BYTE_STEP /\ t_handle t = t_handle p))
          else t_pos t = 0
      end
  | DataFrame =>
      match prev with
      | None => False
      | Some p =>
          t_kind p = HeaderFrame /\ succeeded p = true /\
          t_pos t = t_pos p /\ t_handle t = t_handle p
      end
  end.

(** [protocol log]: every transfer of the log (newest first) follows the
    one before it. *)
Fixpoint protocol (log : list Transfer) : Prop :=
  match log with
  | [] => True
  | t :: older => follows (hd_error older) t /\ protocol older
  end.

(** No header is waiting for its data packet. *)
Definition settled (log : list Transfer) : Prop :=
  match log with
  | [] => True
  | p :: _ => succeeded p = true -> t_kind p = DataFrame
  end.

Definition protocol_inv (log : list Transfer) : Prop :=
  protocol log /\ settled log.

(** The data packet of read position [pos]: the [2*BYTE_STEP] bytes of the
    stream from [pos] on, then zeros up to [PACKET_SIZE] bytes. *)
Definition data_frame_at (data : list byte_t) (pos : Z) : list byte_t :=
  read_bytes data pos (Z.to_nat (2 * BYTE_STEP))
  ++ repeat 0 (Z.to_nat (PACKET_SIZE - 2 * BYTE_STEP)).

(** What holds of a DataFrame of a stream that ends at offset [end_]:
    the bytes it was built from lie before the end of the stream, and it
    is the data packet of its read position. *)
Definition data_frame_ok (data : list byte_t) (end_ : Z) (t : Transfer)
  : Prop :=
  match t_kind t with
  | HeaderFrame => True
  | DataFrame =>
      0 <= t_pos t /\ t_pos t + 2 * BYTE_STEP <= end_ /\
      t_packet t = data_frame_at data (t_pos t) /\
      Z.of_nat (length (t_packet t)) = PACKET_SIZE
  end.

(** The buffer of the data packet, between two turns of the loop: what
    lies after the first [2*BYTE_STEP] bytes is zero, as [calloc] left
    it. *)
Definition zero_tail (packet : list byte_t) : Prop :=
  skipn (Z.to_nat (2 * BYTE_STEP)) packet
  = repeat 0 (Z.to_nat (PACKET_SIZE - 2 * BYTE_STEP)).

(** The flag has not been read as 0 in the trace. *)
Definition no_stop (tr : list Event) : Prop := ~ In (EvNonstop false) tr.

(** The newest event of the trace is not a transfer. *)
Definition idle (tr : list Event) : Prop :=
  match tr with
  | EvTransfer _ _ _ _ _ :: _ => False
  | _ => True
  end.

(** The world after a read of [nonstop] that finds it 0. *)
Definition stop_read (w : World) : World :=
  mkWorld (env w) false (S (reads w)) (transfers w) (listings w) (opens w)
          (claims w) (EvNonstop false :: trace w) (process w).

(** The events of [release_and_close], oldest first. *)
Definition release_events (h : Handle) : list Event :=
  if (h =? NULL)%nat then []
  else [EvRelease h 0; EvRelease h 1; EvClose h].

(** After the flag was read as 0: reads of the flag that find it 0,
    releases of interfaces and the closing of a handle. *)
Definition shutdown_event (e : Event) : Prop :=
  match e with
  | EvNonstop false | EvRelease _ _ | EvClose _ => True
  | _ => False
  end.

(** The longest time an action may block, in microseconds: a transfer has
    a timeout of [TIMEOUT] milliseconds, [usleep] waits as long as it is
    told; the other actions do not wait. *)
Definition blocking_time (e : Event) : Z :=
  match e with
  | EvTransfer _ _ _ _ _ => 1000 * TIMEOUT
  | EvUsleep usec => usec
  | _ => 0
  end.

Definition total_blocking_time (l : list Event) : Z :=
  fold_right (fun e t => blocking_time e + t) 0 l.

(** The events of a trace (newest first) since the newest read of the
    flag. *)
Fixpoint since_read (tr : list Event) : list Event :=
  match tr with
  | [] => []
  | EvNonstop _ :: _ => []
  | e :: older => e :: since_read older
  end.

(** The longest time of one frame cycle: the transfer of the header, the
    transfer of the data packet and the pause of 20 ms. *)
Definition frame_cycle_time : Z := 2 * (1000 * TIMEOUT) + 1000 * 20.

(** [calm tr]: no transfer has been made since the newest read of the
    flag. [prompt tr]: at every moment of the run, when a transfer has
    been made since the newest read of the flag, the actions since that
    read take no longer than a frame cycle. *)
Definition calm (tr : list Event) : Prop :=
  existsb is_transfer (since_read tr) = false.

Fixpoint prompt (tr : list Event) : Prop :=
  match tr with
  | [] => True
  | e :: older =>
      (existsb is_transfer (since_read (e :: older)) = true ->
       total_blocking_time (since_read (e :: older)) <= frame_cycle_time) /\
      prompt older
  end.

Definition gap_inv (tr : list Event) : Prop := prompt tr /\ calm tr.

(** What the process holds: open handles and claimed interfaces. *)
Inductive Resource :=
| OpenHandle (h : Handle)
| ClaimedInterface (h : Handle) (iface : Z).

Definition Resource_eq_dec (a b : Resource) : {a = b} + {a <> b}.
Proof.
  decide equality; try apply Z.eq_dec; try apply Nat.eq_dec.
Defined.

Fixpoint remove_one (r : Resource) (l : list Resource) : list Resource :=
  match l with
  | [] => []
  | x :: rest =>
      if Resource_eq_dec r x then rest else x :: remove_one r rest
  end.

(** The resources held after a trace (newest event first), from those
    held at its start: a successful [libusb_open] or
    [libusb_claim_interface] acquires one, [libusb_close] and
    [libusb_release_interface] give one back. *)
Fixpoint held (init : list Resource) (tr : list Event) : list Resource :=
  match tr with
  | [] => init
  | e :: older =>
      let l := held init older in
      match e with
      | EvOpen _ errcode h => if errcode =? 0 then OpenHandle h :: l else l
      | EvClaim h iface errcode =>
          if errcode =? 0 then ClaimedInterface h iface :: l else l
      | EvClose h => remove_one (OpenHandle h) l
      | EvRelease h iface => remove_one (ClaimedInterface h iface) l
      | _ => l
      end
  end.

(** What a connection holds: the handle and its interfaces 0 and 1. *)
Definition connection (h : Handle) : list Resource :=
  if (h =? NULL)%nat then []
  else [ClaimedInterface h 1; ClaimedInterface h 0; OpenHandle h].

(** The states of a run with respect to the flag: [live], it is 1 and was
    never read as 0; [stopped_after], the newest event is the first read
    of it as 0. *)
Definition live (w : World) : Prop :=
  nonstop w = true /\ no_stop (trace w).

Definition stopped_after (w : World) : Prop :=
  nonstop w = false /\
  exists tr, trace w = EvNonstop false :: tr /\ no_stop tr /\ idle tr.

(** The newest event is a transfer on [h] that failed. *)
Definition failed_on (h : Handle) (tr : list Event) : Prop :=
  exists k p pk r older,
    tr = EvTransfer k h p pk r :: older /\
    (to_short r =? PACKET_SIZE) = false.

(** The outcomes of a pass, of the reconnection loop and of the loop of
    [send_packets], with respect to the flag. *)
Definition display_post (h : Handle) (r : Res Z) (w : World) : Prop :=
  match r with
  | Ret d =>
      (live w /\
       if d =? 0 then idle (trace w) else failed_on h (trace w))
      \/ (d = 0 /\ stopped_after w)
  | _ => no_stop (trace w)
  end.

Definition reconnect_post (r : Res (Handle * Z)) (w : World) : Prop :=
  match r with
  | Ret _ => (live w /\ idle (trace w)) \/ stopped_after w
  | _ => no_stop (trace w)
  end.

Definition send_loop_post (r : Res Handle) (w : World) : Prop :=
  match r with
  | Ret cur =>
      nonstop w = false /\
      exists tr,
        no_stop tr /\
        ((trace w = EvNonstop false :: tr /\ idle tr) \/
         (trace w = EvNonstop false :: EvNonstop false :: tr /\
          (idle tr \/ failed_on cur tr)))
  | _ => no_stop (trace w)
  end.

(** The events that neither acquire nor give back a resource. *)
Definition inert (e : Event) : Prop :=
  match e with
  | EvOpen _ _ _ | EvClaim _ _ _ | EvClose _ | EvRelease _ _ => False
  | _ => True
  end.

(** [never_exits m]: no run of [m] ends the process: none calls [exit],
    and none reaches an action whose behaviour is undefined. *)
Definition never_exits {A} (m : M A) : Prop :=
  forall w, match fst (m w) with
            | Exited _ | Undefined => False
            | _ => True
            end.

(** The enumeration number [i] shows no supported microphone: it fails, or
    none of its devices is compatible. *)
Definition absent (e : Env) (i : nat) : Prop :=
  fst (device_list e i) < 0 \/
  Forall (fun d => is_compatible_mic d = 0)
         (firstn (Z.to_nat (fst (device_list e i))) (snd (device_list e i))).

(** The events, oldest first, of one run of [attempt_reconnect] on an
    enumeration that shows no microphone, and of [n] turns of the
    reconnection loop on such enumerations, from enumeration number [l]
    on, when no signal comes. *)
Definition absent_attempt_events (e : Env) (l : nat) : list Event :=
  let cnt := fst (device_list e l) in
  if cnt <? 0 then [EvGetDeviceList cnt]
  else EvGetDeviceList cnt
       :: repeat (EvUsleep 10000)
                 (length (firstn (Z.to_nat cnt) (snd (device_list e l))))
       ++ [EvFreeDeviceList].

Fixpoint retry_events (e : Env) (l : nat) (n : nat) : list Event :=
  match n with
  | O => [EvNonstop true]
  | S n' =>
      EvNonstop true :: absent_attempt_events e l
      ++ EvUsleep 2000000 :: retry_events e (S l) n'
  end.

(** The kind and the read position of a transfer, and those of the
    transfers of [m] turns of the loop of [display_data_arr], from frame
    number [j] on, oldest first. *)
Definition frame_of (t : Transfer) : FrameKind * Z := (t_kind t, t_pos t).

Fixpoint pass_frames (j : Z) (m : nat) : list (FrameKind * Z) :=
  match m with
  | O => []
  | S m' =>
      (HeaderFrame, 2 * BYTE_STEP * j) :: (DataFrame, 2 * BYTE_STEP * j)
      :: pass_frames (j + 1) m'
  end.

(** ** The fatal conditions of [open_micro] *)

(** What has been written on stderr, newest first, and oldest first. *)
Fixpoint stderr_log (tr : list Event) : list (list Output) :=
  match tr with
  | [] => []
  | EvStderr out :: older => out :: stderr_log older
  | _ :: older => stderr_log older
  end.

Definition stderr_output (w : World) : list (list Output) :=
  rev (stderr_log (trace w)).

(** The fatal conditions, as the specification lists them: failure of the
    USB initialisation, failure to get the list of devices after the
    retries, no supported device, failure to open the device after the
    retries, and failure to claim the interfaces after the retries, where
    the device is busy, gone, or for another reason. *)
Inductive Fatal :=
| InitFailure
| DeviceListFailure
| NoDevice
| OpenFailure (errcode : Z)
| ClaimBusy
| ClaimGone
| ClaimOther.

(** The enumeration number [i]: [None] when the list cannot be got, else
    the first supported device of the list, if any. *)
Definition compatible (dev : libusb_device) : bool :=
  negb (is_compatible_mic dev =? 0).

Definition scan (e : Env) (i : nat) : option (option libusb_device) :=
  if fst (device_list e i) <? 0 then None
  else Some (find compatible
               (firstn (Z.to_nat (fst (device_list e i)))
                       (snd (device_list e i)))).

(** The search in [attempts] enumerations, from enumeration number [l]
    on: only on its third attempt is a list that cannot be got fatal. *)
Fixpoint locate (e : Env) (attempts : nat) (l : nat) (retry_count : Z)
  : Fatal + libusb_device :=
  match attempts with
  | O => inl NoDevice
  | S attempts' =>
      match scan e l with
      | Some (Some dev) => inr dev
      | Some None => locate e attempts' (S l) (retry_count + 1)
      | None =>
          if retry_count <? 2 then locate e attempts' (S l) (retry_count + 1)
          else inl DeviceListFailure
      end
  end.

(** The opening in [attempts] tries, from call number [o] of
    [libusb_open] on: the error code and the handle at the end. *)
Fixpoint open_attempts (e : Env) (attempts : nat) (o : nat) (errcode : Z)
    (handle : Handle) : Z * Handle :=
  match attempts with
  | O => (errcode, handle)
  | S attempts' =>
      let handle' := if open_ret e o =? 0 then S o else handle in
      if to_short (open_ret e o) =? 0 then (0, handle')
      else open_attempts e attempts' (S o) (to_short (open_ret e o)) handle'
  end.

(** The claim of the two interfaces in [attempts] tries, from call number
    [c] of [libusb_claim_interface] on: whether both were claimed, and
    the two error codes of the last try. *)
Fixpoint claim_attempts (e : Env) (attempts : nat) (c : nat)
    (errcode0 errcode1 : Z) : bool * (Z * Z) :=
  match attempts with
  | O => (false, (errcode0, errcode1))
  | S attempts' =>
      let e0 := claim_ret e c in
      let e1 := claim_ret e (S c) in
      if (e0 =? 0) && (e1 =? 0) then (true, (e0, e1))
      else claim_attempts e attempts' (S (S c)) e0 e1
  end.

Definition claim_failure (errcode0 errcode1 : Z) : Fatal :=
  if (errcode0 =? LIBUSB_ERROR_BUSY) || (errcode1 =? LIBUSB_ERROR_BUSY)
  then ClaimBusy
  else if (errcode0 =? LIBUSB_ERROR_NO_DEVICE)
          || (errcode1 =? LIBUSB_ERROR_NO_DEVICE)
  then ClaimGone
  else ClaimOther.

(** The fatal condition that [open_micro] meets in the outside world [e],
    if any: three attempts for each step. *)
Definition fatal_condition (e : Env) : option Fatal :=
  if negb (to_short (init_ret e) =? 0) then Some InitFailure
  else
    match locate e 3 0 0 with
    | inl f => Some f
    | inr _ =>
        let '(errcode, _) := open_attempts e 3 0 (to_short (init_ret e)) NULL in
        if negb (errcode =? 0) then Some (OpenFailure errcode)
        else
          let '(claimed, (errcode0, errcode1)) := claim_attempts e 3 0 0 0 in
          if (claimed : bool) then None
          else Some (claim_failure errcode0 errcode1)
    end.

(** What [open_micro] writes on stderr for each fatal condition, in the
    build without DEBUG. *)
Definition fatal_message (f : Fatal) : list (list Output) :=
  match f with
  | InitFailure => [[Perror "libusb_init"%string]]
  | DeviceListFailure => [[Text DEVLIST_ERR_MSG]]
  | NoDevice => [[Text NODEV_ERR_MSG]]
  | OpenFailure errcode => [[Strerror errcode; Text OPEN_ERR_MSG]]
  | ClaimBusy => [[Text BUSY_ERR_MSG]]
  | ClaimGone => [[Text OPEN_ERR_MSG]]
  | ClaimOther => []
  end.

(** [never_times_out m]: no run of [m] runs out of fuel. *)
Definition never_times_out {A} (m : M A) : Prop :=
  forall w, fst (m w) <> Timeout.

(** No signal was delivered before any of the reads of the flag made so
    far; this holds as long as the flag is 1. *)
Definition signal_free (w : World) : Prop :=
  forall i, (i < reads w)%nat -> signal_at (env w) i = false.

Definition flag_ok (w : World) : Prop := nonstop w = true -> signal_free w.

(** [w'] comes after [w] in a run: if the flag was 1 and is 0 now, a
    signal has been delivered. *)
Definition later (w w' : World) : Prop :=
  env w' = env w /\ (reads w <= reads w')%nat /\ (flag_ok w -> flag_ok w') /\
  (nonstop w = true -> nonstop w' = false ->
   exists i, signal_at (env w) i = true).

(** A loop that has not returned after [k] turns has read the flag as 1
    at least [k] times, and it has not ended the process. *)
Definition loop_progress {A} (w : World) (k : nat) (r : Res A) (w' : World)
  : Prop :=
  match r with
  | Ret _ => True
  | Timeout => nonstop w' = true /\ (reads w + k <= reads w')%nat
  | Exited _ | Undefined => False
  end.

(** ** The properties that the specification states and the code does not
    have *)

(** After a failed transfer the stream is resumed at the position of the
    failure. *)
Definition resumes_at_failed_frame (w : World) : Prop :=
  forall (pre post : list Transfer) (f n : Transfer),
    transfers_sent w = pre ++ f :: n :: post ->
    succeeded f = false -> t_pos n = t_pos f.

(** When the stream is exhausted, [send_packets] returns. *)
Definition returns_when_exhausted (handle : Handle) (data_arr : list byte_t)
    (pck_cnt verbose : Z) (e : Env) : Prop :=
  exists fuel,
    fst (send_packets fuel handle data_arr pck_cnt verbose (init_world e))
    = Ret tt.

(** A signal is seen within one transfer timeout and the pause: no more
    time than that lies between a read of the flag and the next read,
    which finds the flag at 0. *)
Definition observed_within_a_timeout (w : World) : Prop :=
  forall (before between after : list Event) (v : bool),
    history w = before ++ EvNonstop v :: between ++ EvNonstop false :: after ->
    Forall (fun ev => is_read ev = false) between ->
    total_blocking_time between <= 1000 * TIMEOUT + 1000 * 20.

(** Different fatal conditions end the process with different exit
    codes, and each of them writes a message. *)
Definition fatal_exits_are_distinct : Prop :=
  forall (e1 e2 : Env) (f1 f2 : Fatal),
    fatal_condition e1 = Some f1 -> fatal_condition e2 = Some f2 ->
    f1 <> f2 ->
    fst (open_micro (init_world e1)) <> fst (open_micro (init_world e2)).

Definition fatal_exits_are_announced : Prop :=
  forall (e : Env) (f : Fatal),
    fatal_condition e = Some f ->
    stderr_output (snd (open_micro (init_world e))) <> [].

(** ** Example inputs *)

Definition example_mic : libusb_device :=
  mkDevice 7 0 (mkDescr 0x03f0 0x0f8b).
Definition example_keyboard : libusb_device :=
  mkDevice 3 0 (mkDescr 0x1234 0x0f8b).

(** Three colour commands of eight bytes. *)
Definition example_data : list byte_t := map Z.of_nat (seq 1 24).
Definition example_count (data : list byte_t) (pck_cnt colpair : Z) : Z := 3.
Definition no_transfer : Transfer := mkTransfer HeaderFrame NULL 0 [] 0.

(** A process started from a terminal, in the directory of its user; it
    leads its process group. In [example_daemon] every [fork] returns 0:
    the process that is followed is the child each time, the one that
    becomes the daemon. In [example_parent] the first [fork] returns the
    identifier of a child. *)
Definition example_terminal (mode : Daemon.AccessMode) : Daemon.OpenFile :=
  Daemon.mkOpenFile "/dev/pts/0" mode.

Definition example_process (fork_ret : nat -> Z) : Daemon.Process :=
  Daemon.mkProcess fork_ret (fun n => 4242 + Z.of_nat n) 0 "/home/user"
    true false false
    [Some (example_terminal Daemon.O_RDONLY);
     Some (example_terminal Daemon.O_WRONLY);
     Some (example_terminal Daemon.O_WRONLY)] [] [].

Definition example_daemon : Daemon.Process := example_process (fun _ => 0).
Definition example_parent : Daemon.Process :=
  example_process (fun _ => 4243).

(** The microphone is there and every call succeeds; no signal. *)
Definition env_steady : Env :=
  mkEnv false (fun _ => false) (fun _ => 64) 0
        (fun _ => (2, [example_keyboard; example_mic]))
        (fun _ => 0) (fun _ => 0) example_daemon.

(** The fourth transfer fails, the reconnection succeeds, and a signal
    comes later. *)
Definition env_replay : Env :=
  mkEnv false (fun n => Nat.leb 9 n) (fun n => if Nat.eqb n 3 then -7 else 64) 0
        (fun _ => (2, [example_keyboard; example_mic]))
        (fun _ => 0) (fun _ => 0) example_daemon.

(** Every transfer goes through, and a signal comes while the first
    frame is sent. *)
Definition env_signal_while_sending : Env :=
  mkEnv false (fun n => Nat.leb 2 n) (fun _ => 64) 0
        (fun _ => (2, [example_keyboard; example_mic]))
        (fun _ => 0) (fun _ => 0) example_daemon.

(** The first transfer fails and a signal comes before the failure is
    examined. *)
Definition env_fail_then_signal : Env :=
  mkEnv false (fun n => Nat.leb 2 n) (fun _ => -1) 0
        (fun _ => (2, [example_keyboard; example_mic]))
        (fun _ => 0) (fun _ => 0) example_daemon.

(** The microphone is not there, and no signal comes. *)
Definition env_absent : Env :=
  mkEnv false (fun _ => false) (fun _ => -4) 0
        (fun _ => (1, [example_keyboard]))
        (fun _ => 0) (fun _ => 0) example_daemon.

(** The microphone is there when [open_micro] looks for it, and it is
    gone afterwards: every transfer fails, and the later enumerations
    only show the keyboard. No signal comes. *)
Definition env_unplugged : Env :=
  mkEnv false (fun _ => false) (fun _ => -4) 0
        (fun i => match i with
                  | O => (2, [example_keyboard; example_mic])
                  | S _ => (1, [example_keyboard])
                  end)
        (fun _ => 0) (fun _ => 0) example_daemon.

(** A signal comes between the calls of [signal] and [nonstop = 1], and
    no other signal after it. *)
Definition env_early_signal : Env :=
  mkEnv true (fun _ => false) (fun _ => 64) 0
        (fun _ => (2, [example_keyboard; example_mic]))
        (fun _ => 0) (fun _ => 0) example_daemon.

(** [libusb_init] fails. *)
Definition env_init_failure : Env :=
  mkEnv false (fun _ => false) (fun _ => 64) (-99)
        (fun _ => (2, [example_keyboard; example_mic]))
        (fun _ => 0) (fun _ => 0) example_daemon.

(** The interfaces cannot be claimed: busy, or for another reason. *)
Definition env_claim_busy : Env :=
  mkEnv false (fun _ => false) (fun _ => 64) 0
        (fun _ => (2, [example_keyboard; example_mic]))
        (fun _ => 0) (fun _ => LIBUSB_ERROR_BUSY) example_daemon.

Definition env_claim_other : Env :=
  mkEnv false (fun _ => false) (fun _ => 64) 0
        (fun _ => (2, [example_keyboard; example_mic]))
        (fun _ => 0) (fun _ => -99) example_daemon.

(** ** The search of the device list *)

(** The number of devices that [dev_search] looks at: all those up to the
    first compatible one, that one included. *)
Fixpoint examined (devs : list libusb_device) : nat :=
  match devs with
  | [] => O
  | dev :: rest => if compatible dev then 1%nat else S (examined rest)
  end.

(** ** The claim of the interfaces *)

(** The calls of [libusb_claim_interface] among a list of events, each
    with its handle, its interface and its result, and the pauses of
    [usleep] among them. *)
Fixpoint claim_log (l : list Event) : list (Handle * Z * Z) :=
  match l with
  | [] => []
  | EvClaim h iface errcode :: rest => (h, iface, errcode) :: claim_log rest
  | _ :: rest => claim_log rest
  end.

Fixpoint pauses (l : list Event) : list Z :=
  match l with
  | [] => []
  | EvUsleep usec :: rest => usec :: pauses rest
  | _ :: rest => pauses rest
  end.

(** ** The cleaning up of [open_micro] *)

(** The events other than the freeing of [data_arr] and the shutting down
    of libusb. *)
Definition not_cleanup (e : Event) : Prop :=
  match e with
  | EvFreeData | EvLibusbExit => False
  | _ => True
  end.

(** [w'] comes from [w] by events that are not of the cleaning up, then by
    the three actions of [FREE_AND_EXIT]. *)
Definition clean_exit (w w' : World) : Prop :=
  exists evs,
    trace w' = EvLibusbExit :: EvFreeData :: EvFreeDeviceList :: evs ++ trace w
    /\ Forall not_cleanup evs.

(** [tidy m]: a run of [m] that calls [exit] has cleaned up just before,
    and any other run has not cleaned up at all. *)
Definition tidy {A} (m : M A) : Prop :=
  forall w,
    match fst (m w) with
    | Exited _ => clean_exit w (snd (m w))
    | _ => extends not_cleanup w (snd (m w))
    end.

(** ** The device lists *)

(** The number of calls of [libusb_free_device_list] and of
    [libusb_get_device_list] among a list of events. *)
Fixpoint frees (l : list Event) : nat :=
  match l with
  | [] => O
  | EvFreeDeviceList :: rest => S (frees rest)
  | _ :: rest => frees rest
  end.

Fixpoint enumerations (l : list Event) : nat :=
  match l with
  | [] => O
  | EvGetDeviceList _ :: rest => S (enumerations rest)
  | _ :: rest => enumerations rest
  end.

(** The events that are neither of the two. *)
Definition no_list_event (e : Event) : Prop :=
  match e with
  | EvFreeDeviceList | EvGetDeviceList _ => False
  | _ => True
  end.

(** [same_counts w w']: the same outside world, and no call of
    [libusb_get_device_list] or [libusb_open] between [w] and [w'];
    [keeps_counts m]: [m] makes no such call. *)
Definition same_counts (w w' : World) : Prop :=
  env w' = env w /\ listings w' = listings w /\ opens w' = opens w.

Definition keeps_counts {A} (m : M A) : Prop :=
  forall w, same_counts w (snd (m w)).

(** [keeps_process m]: [m] leaves the state of the process, its
    descriptors and its buffers, as it is. *)
Definition keeps_process {A} (m : M A) : Prop :=
  forall w, process (snd (m w)) = process w.

(** ** The streaming daemon *)

(** The events of a run that only looks at the flag: the start of
    [send_packets], with the handler of a signal that came early, the
    reads of the flag and the final release. *)
Definition polling_event (e : Event) : Prop :=
  match e with
  | EvDaemonize _ | EvSignal _ | EvHandler | EvNonstop _ | EvRelease _ _
  | EvClose _ => True
  | _ => False
  end.

(** The pace of the frames, between an event and the next one: a header
    that went through is followed by its data packet, on the same handle
    and at the same read position, and a data packet that went through by
    the pause of 20 ms. *)
Definition pace_ok (older newer : Event) : Prop :=
  match older with
  | EvTransfer k h pos pk r =>
      if to_short r =? PACKET_SIZE then
        match k with
        | HeaderFrame =>
            exists pk' r', newer = EvTransfer DataFrame h pos pk' r'
        | DataFrame => newer = EvUsleep (1000 * 20)
        end
      else True
  | _ => True
  end.

(** [paced tr]: every two neighbours of the trace (newest first) keep the
    pace; [at_rest tr]: its newest event is not a transfer that went
    through. *)
Fixpoint paced (tr : list Event) : Prop :=
  match tr with
  | [] => True
  | newer :: rest =>
      match rest with
      | [] => True
      | older :: _ => pace_ok older newer
      end /\ paced rest
  end.

Definition at_rest (tr : list Event) : Prop :=
  match tr with
  | EvTransfer _ _ _ _ r :: _ => (to_short r =? PACKET_SIZE) = false
  | _ => True
  end.

Definition pace_inv (tr : list Event) : Prop := paced tr /\ at_rest tr.

(** [on_connection init tr]: every transfer of the trace (newest first)
    was made on a handle that was open, with its interfaces 0 and 1
    claimed and nothing else held, when the transfer was made; [init] is
    what the process held at the start. *)
Fixpoint on_connection (init : list Resource) (tr : list Event) : Prop :=
  match tr with
  | [] => True
  | e :: older =>
      match e with
      | EvTransfer _ h _ _ _ => h <> NULL /\ held init older = connection h
      | _ => True
      end /\ on_connection init older
  end.

(** What one pass of [display_data_arr] on the handle [h] does, in at
    most [m] turns: [evs] are its events, newest first, and [r] its
    result. *)
Definition pass_events (h : Handle) (m : nat) (r : Res Z)
    (evs : list Event) : Prop :=
  (length (transfer_log evs) <= 2 * m)%nat /\
  Forall (fun t => t_handle t = h) (transfer_log evs) /\
  ((r = Ret 0 /\ Forall (fun t => succeeded t = true) (transfer_log evs)) \/
   (r = Ret (-1) /\
    exists k pos pk r' rest,
      evs = EvTransfer k h pos pk r' :: rest /\
      (to_short r' =? PACKET_SIZE) = false /\
      Forall (fun t => succeeded t = true) (transfer_log rest))).

(** A stream of no colour command, and a world where the flag is 1. *)
Definition example_no_count (data : list byte_t) (pck_cnt colpair : Z) : Z :=
  0.

Definition world_streaming (e : Env) : World :=
  mkWorld e true 0 0 0 0 0 [] (startup e).

(** ** The start of [send_packets] *)

(** One of the two calls of [fork] of [daemonize] returns the identifier
    of a child: the process is a parent there, and [daemonize] ends it. *)
Definition forks_away (p : Daemon.Process) : bool :=
  (0 <? Daemon.fork_ret p (Daemon.forks p))
  || (0 <? Daemon.fork_ret p (S (Daemon.forks p))).

(** A step of the process that comes back, whatever the state of the
    process. *)
Definition D_returns {A} (m : Daemon.D A) : Prop :=
  forall p, exists a, fst (m p) = Ret a.

(** The world when [daemonize] is over, and the world at the first test
    of the loop [while(nonstop)], in a process that goes on. *)
Definition daemonized (verbose : Z) (w : World) : World :=
  mkWorld (env w) (nonstop w) (reads w) (transfers w) (listings w) (opens w)
          (claims w) (EvDaemonize verbose :: trace w)
          (snd (Daemon.daemonize verbose (process w))).

Definition start_events (verbose : Z) (e : Env) : list Event :=
  [EvDaemonize verbose; EvSignal SIGINT; EvSignal SIGTERM]
  ++ (if early_signal e then [EvHandler] else []).

Definition started (verbose : Z) (w : World) : World :=
  mkWorld (env w) true (reads w) (transfers w) (listings w) (opens w)
          (claims w) (rev (start_events verbose (env w)) ++ trace w)
          (snd (Daemon.daemonize verbose (process w))).

(** ** The lists of devices of [open_micro] *)

(** The search of [open_micro] in [attempts] enumerations, from the
    enumeration number [l] on, as far as its behaviour is defined:
    [Some (Some dev)], the first supported device that is found;
    [Some None], no supported device in any of the lists; [None], a list
    could not be got: what the code does next is to free a list through
    [devs], which points to none. *)
Fixpoint search_result (e : Env) (attempts : nat) (l : nat)
  : option (option libusb_device) :=
  match attempts with
  | O => Some None
  | S attempts' =>
      match scan e l with
      | None => None
      | Some (Some dev) => Some (Some dev)
      | Some None => search_result e attempts' (S l)
      end
  end.

(** [open_micro] frees a list that [devs] does not point to: after
    [libusb_init] succeeded, a list cannot be got, or none of three lists
    shows a supported device. *)
Definition invalid_free (e : Env) : bool :=
  (to_short (init_ret e) =? 0)
  && match search_result e 3 0 with
     | Some (Some _) => false
     | _ => true
     end.

(** * Properties *)

(** ** Runs and traces *)

Lemma wp_ret {A} (a : A) (Q : Res A -> World -> Prop) (w : World) :
  Q (Ret a) w -> wp (ret a) Q w.
Proof. exact (fun H => H). Qed.

Lemma wp_bind {A B} (m : M A) (f : A -> M B) (Q : Res B -> World -> Prop)
    (w : World) :
  wp m (fun r w' => match r with
                    | Ret a => wp (f a) Q w'
                    | Timeout => Q Timeout w'
                    | Exited c => Q (Exited c) w'
                    | Undefined => Q Undefined w'
                    end) w ->
  wp (bind m f) Q w.
Proof.
  unfold wp, bind. destruct (m w) as [[a| |c|] w']; simpl; auto.
Qed.

Lemma wp_mono {A} (m : M A) (Q Q' : Res A -> World -> Prop) (w : World) :
  (forall r w', Q r w' -> Q' r w') -> wp m Q w -> wp m Q' w.
Proof. unfold wp. auto. Qed.

(** A statement about the result and the final world of a run, as a
    statement of [wp]. *)
Ltac as_wp m w :=
  pattern (fst (m w)), (snd (m w));
  match goal with |- ?Q _ _ => change (wp m Q w) end.

Lemma wp_conj {A} (m : M A) (Q1 Q2 : Res A -> World -> Prop) (w : World) :
  wp m Q1 w -> wp m Q2 w -> wp m (fun r w' => Q1 r w' /\ Q2 r w') w.
Proof. unfold wp. auto. Qed.


Lemma transfer_log_app (l1 l2 : list Event) :
  transfer_log (l1 ++ l2) = transfer_log l1 ++ transfer_log l2.
Proof.
  induction l1 as [|e l1 IH]; simpl; [reflexivity|].
  destruct e; simpl; rewrite ?IH; reflexivity.
Qed.

Lemma transfer_log_silent (l : list Event) :
  Forall (fun e => is_transfer e = false) l -> transfer_log l = [].
Proof.
  induction 1 as [|e l He _ IH]; simpl; [reflexivity|].
  destruct e; simpl in *; try exact IH. discriminate.
Qed.

Lemma extends_refl (P : Event -> Prop) (w : World) : extends P w w.
Proof.
  split; [reflexivity|]. exists []. repeat split; auto.
Qed.

Lemma extends_trans (P : Event -> Prop) (w1 w2 w3 : World) :
  extends P w1 w2 -> extends P w2 w3 -> extends P w1 w3.
Proof.
  intros [He1 (l1 & H1 & F1 & N1)] [He2 (l2 & H2 & F2 & N2)].
  split; [congruence|].
  exists (l2 ++ l1). split; [|split].
  - rewrite H2, H1. apply app_assoc.
  - apply Forall_app. auto.
  - intros H. apply Forall_app in H. destruct H as [Ha Hb].
    destruct (N1 Hb) as [A1 B1]. destruct (N2 Ha) as [A2 B2].
    split; congruence.
Qed.

Lemma emits_ret {A} (P : Event -> Prop) (a : A) : emits P (ret a).
Proof. intros w. apply extends_refl. Qed.

Lemma emits_timeout {A} (P : Event -> Prop) : emits P (@timeout A).
Proof. intros w. apply extends_refl. Qed.

Lemma emits_exit {A} (P : Event -> Prop) (c : Z) : emits P (@exit A c).
Proof. intros w. apply extends_refl. Qed.

Lemma emits_undefined {A} (P : Event -> Prop) : emits P (@undefined A).
Proof. intros w. apply extends_refl. Qed.

Lemma emits_bind {A B} (P : Event -> Prop) (m : M A) (f : A -> M B) :
  emits P m -> (forall a, emits P (f a)) -> emits P (bind m f).
Proof.
  intros Hm Hf w. unfold bind. specialize (Hm w).
  destruct (m w) as [[a| |c|] w']; simpl in *; auto.
  eapply extends_trans; [exact Hm | apply Hf].
Qed.

Lemma extends_one (P : Event -> Prop) (w w' : World) (e : Event) :
  env w' = env w -> trace w' = e :: trace w -> P e ->
  (is_read e = false -> nonstop w' = nonstop w /\ reads w' = reads w) ->
  extends P w w'.
Proof.
  intros He Ht Hp Hn. split; [exact He|]. exists [e]. split; [exact Ht|].
  split; [constructor; [exact Hp | constructor]|].
  intros H. inversion H; subst. auto.
Qed.

Lemma extends_weaken (P P' : Event -> Prop) (w w' : World) :
  (forall e, P e -> P' e) -> extends P w w' -> extends P' w w'.
Proof.
  intros H [He (l & Ht & F & N)]. split; [exact He|]. exists l.
  split; [exact Ht|]. split; [|exact N]. eapply Forall_impl; eauto.
Qed.

Lemma emits_weaken {A} (P P' : Event -> Prop) (m : M A) :
  (forall e, P e -> P' e) -> emits P m -> emits P' m.
Proof. intros H Hm w. eapply extends_weaken; eauto. Qed.

Lemma emits_log (P : Event -> Prop) (e : Event) : P e -> emits P (log e).
Proof. intros H w. apply (extends_one P w _ e); auto. Qed.

Lemma emits_if {A} (P : Event -> Prop) (b : bool) (m1 m2 : M A) :
  emits P m1 -> emits P m2 -> emits P (if b then m1 else m2).
Proof. destruct b; auto. Qed.

(** ** The device matcher *)

Lemma scan_product_ids_In (product : Z) (ids : list Z) :
  scan_product_ids product ids = 1 <-> In product ids.
Proof.
  induction ids as [|id rest IH]; simpl.
  - split; [discriminate | tauto].
  - destruct (Z.eqb_spec product id) as [->|Hne].
    + split; auto.
    + rewrite IH. split; [auto | intros [H|H]; [congruence | exact H]].
Qed.

Lemma scan_product_ids_bool (product : Z) (ids : list Z) :
  scan_product_ids product ids = 0 \/ scan_product_ids product ids = 1.
Proof.
  induction ids as [|id rest IH]; simpl; auto.
  destruct (product =? id); auto.
Qed.

(** C8: the device matcher accepts a device exactly when its descriptor
    can be read and its (vendor, product) pair is in the identity table;
    any other device, a device whose descriptor cannot be read included,
    gets the answer 0 (not supported), which is not an error. *)
Theorem is_compatible_mic_iff_identity_table (dev : libusb_device) :
  (is_compatible_mic dev = 1 <->
     0 <= descriptor_ret dev /\
     In (idVendor (descriptor dev), idProduct (descriptor dev)) identity_table)
  /\ (is_compatible_mic dev = 0 \/ is_compatible_mic dev = 1).
Proof.
  unfold is_compatible_mic, libusb_get_device_descriptor.
  destruct dev as [id ret [vendor product]]; cbn [descriptor_ret descriptor
    idVendor idProduct].
  destruct (Z.ltb_spec ret 0) as [Hneg|Hpos].
  { split; [|auto]. split; [discriminate | lia]. }
  destruct (Z.eqb_spec vendor DEV_VID_KINGSTON) as [->|Hk].
  { split; [|apply scan_product_ids_bool].
    rewrite scan_product_ids_In. unfold identity_table, product_ids_kingston,
      DEV_VID_KINGSTON. simpl. split.
    - intros [<-|[]]. auto.
    - intros [_ H]. repeat destruct H as [H|H]; inversion H; auto. }
  destruct (Z.eqb_spec vendor DEV_VID_HP) as [->|Hh].
  { split; [|apply scan_product_ids_bool].
    rewrite scan_product_ids_In. unfold identity_table, product_ids_hp,
      DEV_VID_HP. simpl. split.
    - intros H. split; [exact Hpos|].
      repeat (destruct H as [<-|H]; [auto 10|]). contradiction.
    - intros [_ H]. repeat destruct H as [H|H]; inversion H; auto 10. }
  split; [|auto]. split; [discriminate|].
  intros [_ H]. unfold identity_table, DEV_VID_KINGSTON, DEV_VID_HP in *.
  simpl in H. repeat destruct H as [H|H]; inversion H; congruence.
Qed.

(** ** What each function adds to the trace *)

Ltac one_event := intros w; eapply extends_one; simpl; auto.

Lemma emits_read_nonstop (P : Event -> Prop) :
  (forall v, P (EvNonstop v)) -> emits P read_nonstop.
Proof. intros H w. eapply extends_one; simpl; auto. discriminate. Qed.

Lemma emits_transfer (P : Event -> Prop) k h pos pk :
  (forall r, P (EvTransfer k h pos pk r)) ->
  emits P (libusb_control_transfer k h pos pk).
Proof. intros H. one_event. Qed.

Lemma emits_get_device_list (P : Event -> Prop) devs :
  (forall c, P (EvGetDeviceList c)) -> emits P (libusb_get_device_list devs).
Proof. intros H. one_event. Qed.

Lemma emits_free_device_list (P : Event -> Prop) devs :
  P EvFreeDeviceList -> emits P (libusb_free_device_list devs).
Proof.
  intros H. destruct devs; [apply emits_undefined | apply emits_log, H].
Qed.

Lemma emits_open (P : Event -> Prop) dev handle :
  (forall d c h, P (EvOpen d c h)) -> emits P (libusb_open dev handle).
Proof. intros H. one_event. Qed.

Lemma emits_claim (P : Event -> Prop) handle iface :
  (forall c, P (EvClaim handle iface c)) ->
  emits P (libusb_claim_interface handle iface).
Proof. intros H. one_event. Qed.

Lemma emits_init (P : Event -> Prop) :
  (forall c, P (EvInit c)) -> emits P libusb_init.
Proof. intros H. one_event. Qed.

Lemma emits_reconnect_log (P : Event -> Prop) (e : Event) :
  (forall e, reconnect_event e -> P e) -> reconnect_event e -> emits P (log e).
Proof. intros H He. apply emits_log. auto. Qed.

(** The composite functions: [emits] goes through [bind], the tests and
    the pattern matchings, down to the primitives. *)
Ltac emits_step :=
  match goal with
  | |- emits _ (bind _ _) => apply emits_bind; [|intros ?]
  | |- emits _ (ret _) => apply emits_ret
  | |- emits _ timeout => apply emits_timeout
  | |- emits _ (exit _) => apply emits_exit
  | |- emits _ undefined => apply emits_undefined
  | |- emits _ (if ?b then _ else _) => destruct b
  | |- emits _ (match ?x with _ => _ end) => destruct x
  | |- emits _ (usleep _) => apply emits_log
  | |- emits _ (libusb_free_device_list _) => apply emits_free_device_list
  | |- emits _ (libusb_close _) => apply emits_log
  | |- emits _ (libusb_set_auto_detach_kernel_driver _) => apply emits_log
  | |- emits _ (libusb_release_interface _ _) => apply emits_log
  | |- emits _ (fprintf_stderr _) => apply emits_log
  | |- emits _ (log _) => apply emits_log
  | |- emits _ read_nonstop => apply emits_read_nonstop; intros ?
  | |- emits _ (libusb_control_transfer _ _ _ _) =>
      apply emits_transfer; intros ?
  | |- emits _ (libusb_get_device_list _) =>
      apply emits_get_device_list; intros ?
  | |- emits _ (libusb_open _ _) => apply emits_open; intros ? ? ?
  | |- emits _ (libusb_claim_interface _ _) => apply emits_claim; intros ?
  | |- emits _ libusb_init => apply emits_init; intros ?
  end.

Ltac emits_auto := repeat emits_step; try exact I; auto.

Lemma emits_dev_search_loop (devs : list libusb_device) :
  emits reconnect_event (dev_search_loop devs).
Proof.
  induction devs as [|dev rest IH]; simpl; emits_auto.
Qed.

Lemma emits_dev_search (devs : list libusb_device) (cnt : Z) :
  emits reconnect_event (dev_search devs cnt).
Proof. apply emits_dev_search_loop. Qed.

Lemma emits_claim_loop (fuel : nat) handle retry e0 e1 :
  emits reconnect_event (claim_loop fuel handle retry e0 e1).
Proof.
  revert retry e0 e1.
  induction fuel as [|fuel IH]; intros retry e0 e1; simpl; emits_auto.
Qed.

Lemma emits_claim_dev_interface handle :
  emits reconnect_event (claim_dev_interface handle).
Proof.
  unfold claim_dev_interface.
  apply emits_bind; [emits_auto|intros _].
  apply emits_bind; [apply emits_claim_loop|intros [c [e0 e1]]].
  emits_auto.
Qed.

Lemma emits_reopen_loop (fuel : nat) dev retry handle devs :
  emits reconnect_event (reopen_loop fuel dev retry handle devs).
Proof.
  revert retry handle.
  induction fuel as [|fuel IH]; intros retry handle; simpl.
  - emits_auto.
  - destruct (retry <? 3); [|emits_auto].
    apply emits_bind; [emits_auto|intros [errcode h]].
    apply emits_bind.
    + destruct (errcode =? 0); [|emits_auto].
      apply emits_bind; [apply emits_claim_dev_interface|intros c].
      emits_auto.
    + intros [h'|h']; emits_auto.
Qed.

Lemma emits_attempt_reconnect : emits reconnect_event attempt_reconnect.
Proof.
  unfold attempt_reconnect.
  apply emits_bind; [emits_auto|intros [cnt devs]].
  destruct (cnt <? 0); [emits_auto|].
  apply emits_bind; [apply emits_dev_search|intros [dev|]]; [|emits_auto].
  apply emits_bind; [apply emits_reopen_loop|intros [h|]]; emits_auto.
Qed.

Lemma emits_release_and_close handle :
  emits reconnect_event (release_and_close handle).
Proof. unfold release_and_close. emits_auto. Qed.

Lemma emits_reconnect_loop (P : Event -> Prop) fuel handle attempts :
  (forall v, P (EvNonstop v)) -> (forall e, reconnect_event e -> P e) ->
  emits P (reconnect_loop fuel handle attempts).
Proof.
  intros Hr Hp. revert handle attempts.
  induction fuel as [|fuel IH]; intros handle attempts; simpl.
  - emits_auto.
  - apply emits_bind; [emits_auto|intros go].
    destruct (go && (handle =? NULL)%nat); [|emits_auto].
    apply emits_bind.
    + eapply emits_weaken; [exact Hp | apply emits_attempt_reconnect].
    + intros h. destruct (negb (h =? NULL)%nat); [apply IH|].
      apply emits_bind; [|intros _; apply IH].
      apply emits_log. apply Hp. exact I.
Qed.

(** A function that makes no transfer leaves the log of transfers as it
    is. *)
Lemma extends_transfer_log (w w' : World) :
  extends (fun e => is_transfer e = false) w w' ->
  transfer_log (trace w') = transfer_log (trace w).
Proof.
  intros [_ (l & Ht & F & _)]. rewrite Ht, transfer_log_app.
  rewrite (transfer_log_silent l F). reflexivity.
Qed.

Lemma reconnect_event_no_transfer (e : Event) :
  reconnect_event e -> is_transfer e = false.
Proof. destruct e; simpl; auto; contradiction. Qed.

Lemma wp_silent {A} (m : M A) (Inv : list Transfer -> Prop) (w : World) :
  emits (fun e => is_transfer e = false) m ->
  Inv (transfer_log (trace w)) ->
  wp m (fun _ w' => Inv (transfer_log (trace w'))) w.
Proof.
  intros Hm Hi. unfold wp. rewrite (extends_transfer_log w _ (Hm w)).
  exact Hi.
Qed.

(** ** The protocol of the transfers *)

Lemma follows_settled (h : Handle) (col : Z) (r : Z) (log : list Transfer) :
  follows (hd_error log) (mkTransfer HeaderFrame h col header_packet r) ->
  settled log.
Proof.
  unfold follows, settled. simpl. destruct log as [|p older]; simpl; auto.
  intros [_ H] Hs. rewrite Hs in H. tauto.
Qed.

Lemma settled_follows (h : Handle) (r : Z) (log : list Transfer) :
  settled log ->
  follows (hd_error log) (mkTransfer HeaderFrame h 0 header_packet r).
Proof.
  unfold follows, settled. simpl. destruct log as [|p older]; simpl; auto.
  intros H. split; [reflexivity|]. destruct (succeeded p); auto.
Qed.

(** A step of a run: the first primitive of the program is run on the
    world. *)
Ltac wp_prim :=
  unfold wp at 1;
  cbn [fst snd read_nonstop log usleep libusb_control_transfer ret timeout
       exit undefined set_nonstop send_display_command
       libusb_free_device_list devices
       libusb_close libusb_set_auto_detach_kernel_driver
       libusb_release_interface fprintf_stderr libusb_claim_interface
       libusb_open libusb_get_device_list libusb_init
       trace env nonstop reads transfers listings opens claims process].

Ltac wp_step := apply wp_bind; wp_prim.

(** One pass of [display_data_arr] keeps the protocol, from any read
    position that may follow the last transfer. *)
Lemma display_loop_protocol (fuel : nat) (h : Handle) (data : list byte_t)
    (end_ col : Z) (packet : list byte_t) (w : World) :
  protocol (transfer_log (trace w)) ->
  follows (hd_error (transfer_log (trace w)))
          (mkTransfer HeaderFrame h col header_packet 0) ->
  wp (display_loop fuel h data end_ col packet)
     (fun _ w' => protocol (transfer_log (trace w')) /\
                  settled (transfer_log (trace w'))) w.
Proof.
  revert col packet w.
  induction fuel as [|fuel IH]; intros col packet w Hp Hf; cbn [display_loop];
    apply wp_bind; (destruct (col <? end_); wp_prim;
      [destruct (nonstop w && negb (signal_at (env w) (reads w)))|];
      try (split; [exact Hp | eapply follows_settled; exact Hf])).
  apply wp_bind. unfold send_display_command. wp_step. wp_prim.
  set (r1 := transfer_ret (env w) (transfers w)).
  destruct (to_short r1 =? PACKET_SIZE) eqn:E1; cbn [negb].
  2:{ wp_prim. split; [split; [exact Hf | exact Hp]|].
      unfold settled, succeeded. cbn. fold r1. rewrite E1. discriminate. }
  wp_step.
  set (r2 := transfer_ret (env w) (S (transfers w))).
  assert (Hd : follows (Some (mkTransfer HeaderFrame h col header_packet r1))
                 (mkTransfer DataFrame h col
                    (memcpy packet data col (2 * BYTE_STEP)) r2)).
  { unfold follows, succeeded; cbn. rewrite E1. auto. }
  destruct (to_short r2 =? PACKET_SIZE) eqn:E2; cbn [negb].
  2:{ wp_prim. split; [|intros _; reflexivity].
      split; [exact Hd | split; [exact Hf | exact Hp]]. }
  wp_step. apply IH; cbn [trace transfer_log hd_error].
  - split; [exact Hd | split; [exact Hf | exact Hp]].
  - unfold follows, succeeded; cbn. fold r2. rewrite E2. auto.
Qed.

Lemma display_data_arr_protocol (h : Handle) (data : list byte_t) (end_ : Z)
    (w : World) :
  protocol_inv (transfer_log (trace w)) ->
  wp (display_data_arr h data 0 end_)
     (fun _ w' => protocol_inv (transfer_log (trace w'))) w.
Proof.
  intros [Hp Hs]. unfold display_data_arr.
  apply (display_loop_protocol _ h data end_ 0 _ w); [exact Hp|].
  apply settled_follows, Hs.
Qed.

(** An invariant of the log of transfers that every pass keeps is kept by
    the whole loop of [send_packets]: nothing else makes a transfer. *)
Lemma send_loop_transfer_invariant (Inv : list Transfer -> Prop)
    (data : list byte_t) (command_cnt : Z) :
  (forall h w, Inv (transfer_log (trace w)) ->
     wp (display_data_arr h data 0 (2 * BYTE_STEP * command_cnt))
        (fun _ w' => Inv (transfer_log (trace w'))) w) ->
  forall fuel rfuel h attempts w,
    Inv (transfer_log (trace w)) ->
    wp (send_loop fuel rfuel data command_cnt h attempts)
       (fun _ w' => Inv (transfer_log (trace w'))) w.
Proof.
  intros Hpass.
  induction fuel as [|fuel IH]; intros rfuel h attempts w Hi;
    cbn [send_loop]; apply wp_bind;
    (eapply wp_mono; [|apply wp_silent; [emits_auto|exact Hi]]);
    intros [go| |c|] w1 H1; try exact H1; destruct go; try exact H1.
  apply wp_bind.
  eapply wp_mono; [|exact (Hpass h w1 H1)].
  intros [d| |c|] w2 H2; try exact H2.
  apply wp_bind.
  eapply wp_mono; [|apply wp_silent; [|exact H2]].
  2:{ destruct (negb (d =? 0)); emits_auto. }
  intros [reconnect| |c|] w3 H3; try exact H3.
  destruct reconnect; [|apply IH, H3].
  apply wp_bind. unfold reconnection. apply wp_bind.
  eapply wp_mono; [|apply wp_silent; [|exact H3]].
  2:{ eapply emits_weaken; [apply reconnect_event_no_transfer|].
      apply emits_release_and_close. }
  intros [[]| |c|] w4 H4; try exact H4.
  apply wp_bind.
  eapply wp_mono; [|apply wp_silent; [emits_auto|exact H4]].
  intros [[]| |c|] w5 H5; try exact H5.
  eapply wp_mono; [|apply wp_silent; [|exact H5]].
  2:{ apply emits_reconnect_loop; auto using reconnect_event_no_transfer. }
  intros [[h' a']| |c|] w6 H6; try exact H6.
  apply IH, H6.
Qed.

(** [daemonize] ends the process where a [fork] returns the identifier
    of a child, and returns everywhere else. *)
Lemma D_returns_bind {A B} (m : Daemon.D A) (f : A -> Daemon.D B) :
  D_returns m -> (forall a, D_returns (f a)) -> D_returns (Daemon.D_bind m f).
Proof.
  intros Hm Hf p. unfold Daemon.D_bind. destruct (Hm p) as [a Ha].
  destruct (m p) as [r p']. cbn [fst] in Ha. subst r. apply Hf.
Qed.

Ltac D_returns_step :=
  match goal with
  | |- D_returns (Daemon.D_bind _ _) => apply D_returns_bind; [|intros ?]
  | |- D_returns (if ?b then _ else _) => destruct b
  | |- D_returns (Daemon.open _ _) =>
      intros ?; unfold Daemon.open;
      match goal with
      | |- context [Daemon.lowest_free ?t] => destruct (Daemon.lowest_free t)
      end; eexists; reflexivity
  | |- D_returns _ => solve [intros ?; eexists; reflexivity]
  end.

Lemma daemonize_result (verbose : Z) (p : Daemon.Process) :
  fst (Daemon.daemonize verbose p) = if forks_away p then Exited 0 else Ret tt.
Proof.
  unfold forks_away, Daemon.daemonize, Daemon.D_bind at 1 2.
  cbn [Daemon.chdir Daemon.fork fst snd Daemon.fork_ret Daemon.forks].
  destruct (0 <? Daemon.fork_ret p (Daemon.forks p)); [reflexivity|].
  cbn [orb]. unfold Daemon.D_bind at 1.
  assert (Hs : forall q, exists q',
             Daemon.setsid q = (Ret tt, q') /\
             Daemon.fork_ret q' = Daemon.fork_ret q /\
             Daemon.forks q' = Daemon.forks q).
  { intros q. unfold Daemon.setsid. destruct (Daemon.group_leader q);
      eexists; repeat split. }
  match goal with
  | |- context [Daemon.setsid ?q] => destruct (Hs q) as (q' & -> & Hf & Hk)
  end.
  cbn [Daemon.fork_ret Daemon.forks] in Hf, Hk.
  unfold Daemon.D_bind at 1.
  cbn [Daemon.fork fst snd]. rewrite Hf, Hk.
  destruct (0 <? Daemon.fork_ret p (S (Daemon.forks p))); [reflexivity|].
  match goal with
  | |- fst (?m ?q) = Ret tt =>
      assert (Hr : D_returns m); [|destruct (Hr q) as [[] ->]; reflexivity]
  end.
  repeat D_returns_step.
Qed.

(** The start of [send_packets]: the process ends in [daemonize], or the
    loop is entered with the handlers installed and the flag at 1. *)
Lemma wp_send_packets (fuel : nat) (handle : Handle)
    (data_arr : list byte_t) (pck_cnt verbose : Z)
    (Q : Res unit -> World -> Prop) (w : World) :
  (forks_away (process w) = true -> Q (Exited 0) (daemonized verbose w)) ->
  (forks_away (process w) = false ->
   wp (current_handle <-
         send_loop fuel fuel data_arr
           (to_short (count_color_commands data_arr pck_cnt 0)) handle 0 ;;
       release_and_close current_handle) Q (started verbose w)) ->
  wp (send_packets fuel handle data_arr pck_cnt verbose) Q w.
Proof.
  intros Hx Hgo. unfold send_packets. wp_step. apply wp_bind.
  unfold wp at 1, in_process.
  cbn [fst snd env nonstop reads transfers listings opens claims trace
       process].
  rewrite daemonize_result.
  destruct (forks_away (process w)); [exact (Hx eq_refl)|].
  specialize (Hgo eq_refl). unfold started, start_events in Hgo.
  wp_step. wp_step. apply wp_bind. unfold wp at 1, early_delivery.
  cbn [fst snd env nonstop reads transfers listings opens claims trace
       process].
  destruct (early_signal (env w)).
  - unfold bind at 1, log, nonstop_reset_handler.
    cbn [fst snd env nonstop reads transfers listings opens claims trace
         process].
    apply wp_bind. unfold wp at 1.
    cbn [fst snd set_nonstop env nonstop reads transfers listings opens
         claims trace process].
    exact Hgo.
  - cbn [fst snd]. apply wp_bind. unfold wp at 1.
    cbn [fst snd set_nonstop env nonstop reads transfers listings opens
         claims trace process].
    exact Hgo.
Qed.

Lemma send_packets_transfer_invariant (Inv : list Transfer -> Prop)
    (fuel : nat) (handle : Handle) (data_arr : list byte_t)
    (pck_cnt verbose : Z) (e : Env) :
  (forall h w, Inv (transfer_log (trace w)) ->
     wp (display_data_arr h data_arr 0
           (2 * BYTE_STEP
            * to_short (count_color_commands data_arr pck_cnt 0)))
        (fun _ w' => Inv (transfer_log (trace w'))) w) ->
  Inv [] ->
  wp (send_packets fuel handle data_arr pck_cnt verbose)
     (fun _ w' => Inv (transfer_log (trace w'))) (init_world e).
Proof.
  intros Hpass H0. apply wp_send_packets; intros Hf; [exact H0|].
  apply wp_bind.
  eapply wp_mono; [|apply send_loop_transfer_invariant; [exact Hpass|]].
  2:{ unfold started, start_events. cbn [trace init_world env].
      destruct (early_signal e); exact H0. }
  intros [h| |c|] w1 H1; auto.
  apply wp_silent; [|exact H1].
  eapply emits_weaken; [apply reconnect_event_no_transfer|].
  apply emits_release_and_close.
Qed.

Lemma protocol_app (l1 l2 : list Transfer) :
  protocol (l1 ++ l2) -> protocol l2.
Proof.
  induction l1 as [|t l1 IH]; simpl; [auto|]. intros [_ H]. auto.
Qed.

(** In a log that keeps the protocol, each transfer follows the one sent
    just before it; here the transfers are listed oldest first. *)
Lemma protocol_adjacent (log : list Transfer) (pre post : list Transfer)
    (a b : Transfer) :
  protocol log -> rev log = pre ++ a :: b :: post -> follows (Some a) b.
Proof.
  intros Hp Hr.
  assert (Hl : log = rev post ++ b :: a :: rev pre).
  { rewrite <- (rev_involutive log), Hr. rewrite rev_app_distr. simpl.
    rewrite <- !app_assoc. reflexivity. }
  rewrite Hl in Hp. apply protocol_app in Hp. simpl in Hp. tauto.
Qed.

Lemma protocol_first (log : list Transfer) (post : list Transfer)
    (t : Transfer) :
  protocol log -> rev log = t :: post -> follows None t.
Proof.
  intros Hp Hr.
  assert (Hl : log = rev post ++ [t]).
  { rewrite <- (rev_involutive log), Hr. reflexivity. }
  rewrite Hl in Hp. apply protocol_app in Hp. simpl in Hp. tauto.
Qed.

Lemma protocol_headers (log : list Transfer) :
  protocol log ->
  Forall (fun t => match t_kind t with
                   | HeaderFrame => t_packet t = header_packet
                   | DataFrame => True
                   end) log.
Proof.
  induction log as [|t older IH]; simpl; [constructor|].
  intros [Hf Hp]. constructor; [|auto].
  unfold follows in Hf. destruct (t_kind t); tauto.
Qed.

(** Every run of [send_packets] keeps the protocol. *)
Lemma send_packets_protocol (fuel : nat) (handle : Handle)
    (data_arr : list byte_t) (pck_cnt verbose : Z) (e : Env) :
  protocol (transfer_log (trace (snd
    (send_packets fuel handle data_arr pck_cnt verbose (init_world e))))).
Proof.
  apply (send_packets_transfer_invariant protocol_inv).
  - intros h w. apply display_data_arr_protocol.
  - split; exact I.
Qed.

(** C4: in every run of the streaming loop, each DataFrame is sent right
    after a HeaderFrame (one that succeeded, on the same handle, in the
    same send cycle), and the transfer that follows a DataFrame is never
    another DataFrame, whatever the length of the stream. *)
Theorem header_before_each_data_frame (fuel : nat) (handle : Handle)
    (data_arr : list byte_t) (pck_cnt verbose : Z) (e : Env)
    (pre post : list Transfer) (d : Transfer) :
  transfers_sent (snd (send_packets fuel handle data_arr pck_cnt verbose
                         (init_world e))) = pre ++ d :: post ->
  t_kind d = DataFrame ->
  (exists pre' hd,
      pre = pre' ++ [hd] /\ t_kind hd = HeaderFrame /\ succeeded hd = true /\
      t_handle hd = t_handle d /\ t_pos hd = t_pos d) /\
  (forall n post', post = n :: post' -> t_kind n = HeaderFrame).
Proof.
  intros Hs Hd.
  pose proof (send_packets_protocol fuel handle data_arr pck_cnt verbose e)
    as Hp.
  unfold transfers_sent in Hs. split.
  - destruct (rev pre) as [|hd rpre] eqn:Er.
    + apply (f_equal (@rev _)) in Er. rewrite rev_involutive in Er.
      subst pre. simpl in Hs. apply (protocol_first _ _ _ Hp) in Hs.
      unfold follows in Hs. rewrite Hd in Hs. contradiction.
    + apply (f_equal (@rev _)) in Er. rewrite rev_involutive in Er.
      simpl in Er. subst pre. rewrite <- app_assoc in Hs. simpl in Hs.
      apply (protocol_adjacent _ _ _ _ _ Hp) in Hs.
      unfold follows in Hs. rewrite Hd in Hs.
      exists (rev rpre), hd. intuition congruence.
  - intros n post' ->.
    apply (protocol_adjacent _ _ _ _ _ Hp) in Hs.
    unfold follows in Hs. destruct (t_kind n); [reflexivity|].
    destruct Hs as [Hk _]. congruence.
Qed.

(** C5: every HeaderFrame that a run transfers is the 64-byte packet with
    byte 0 = 0x04, byte 1 = 0xf2, byte 8 = 0x01 and the 61 other bytes
    zero, bytes 32 to 63, which the initializer does not list, included. *)
Theorem header_frame_is_constant (fuel : nat) (handle : Handle)
    (data_arr : list byte_t) (pck_cnt verbose : Z) (e : Env) :
  Forall (fun t => match t_kind t with
                   | HeaderFrame =>
                       t_packet t =
                         [0x04; 0xf2; 0; 0; 0; 0; 0; 0; 0x01] ++ repeat 0 55
                   | DataFrame => True
                   end)
         (transfers_sent (snd (send_packets fuel handle data_arr pck_cnt
                                 verbose (init_world e))))
  /\ header_packet = [0x04; 0xf2; 0; 0; 0; 0; 0; 0; 0x01] ++ repeat 0 55
  /\ Z.of_nat (length header_packet) = PACKET_SIZE.
Proof.
  split; [|split; reflexivity].
  unfold transfers_sent. apply Forall_rev.
  apply (protocol_headers _
           (send_packets_protocol fuel handle data_arr pck_cnt verbose e)).
Qed.

(** C1, as the code has it: after a failed transfer the loop does not
    resume at the position of the failure. The transfer that follows a
    failed one is the HeaderFrame of a new pass, at position 0 of the
    stream; within a pass no frame is skipped: a HeaderFrame that
    succeeded is followed by the DataFrame of the same position, and a
    DataFrame that succeeded by the HeaderFrame of the next position or,
    in a new pass, of position 0. *)
Theorem resume_restarts_stream (fuel : nat) (handle : Handle)
    (data_arr : list byte_t) (pck_cnt verbose : Z) (e : Env)
    (pre post : list Transfer) (f n : Transfer) :
  transfers_sent (snd (send_packets fuel handle data_arr pck_cnt verbose
                         (init_world e))) = pre ++ f :: n :: post ->
  (succeeded f = false -> t_kind n = HeaderFrame /\ t_pos n = 0) /\
  (succeeded f = true -> t_kind f = HeaderFrame ->
   t_kind n = DataFrame /\ t_pos n = t_pos f /\ t_handle n = t_handle f) /\
  (succeeded f = true -> t_kind f = DataFrame ->
   t_kind n = HeaderFrame /\
   (t_pos n = 0 \/
    (t_pos n = t_pos f + 2 * BYTE_STEP /\ t_handle n = t_handle f))).
Proof.
  intros Hs.
  pose proof (send_packets_protocol fuel handle data_arr pck_cnt verbose e)
    as Hp.
  apply (protocol_adjacent _ _ _ _ _ Hp) in Hs.
  unfold follows in Hs.
  destruct (t_kind n), (succeeded f), (t_kind f);
    repeat split; intros; try discriminate; intuition congruence.
Qed.

(** ** The data packets *)

Lemma length_read_bytes (data : list byte_t) (src : Z) (n : nat) :
  length (read_bytes data src n) = n.
Proof.
  revert src. induction n as [|n IH]; intros src; simpl; [reflexivity|].
  rewrite IH. reflexivity.
Qed.

Lemma nth_read_bytes (data : list byte_t) (src : Z) (n i : nat) :
  (i < n)%nat ->
  nth i (read_bytes data src n) 0 = byte_at data (src + Z.of_nat i).
Proof.
  revert src i. induction n as [|n IH]; intros src i Hi; [lia|].
  destruct i as [|i]; simpl read_bytes; simpl nth.
  - f_equal. lia.
  - rewrite IH by lia. f_equal. lia.
Qed.

Lemma skipn_repeat_zero (n m : nat) :
  skipn n (repeat 0 m) = repeat 0 (m - n).
Proof.
  revert m. induction n as [|n IH]; intros m; simpl.
  - rewrite Nat.sub_0_r. reflexivity.
  - destruct m as [|m]; simpl; [reflexivity | apply IH].
Qed.

Lemma skipn_app_length {A} (l1 l2 : list A) (n : nat) :
  length l1 = n -> skipn n (l1 ++ l2) = l2.
Proof.
  intros <-. rewrite skipn_app, skipn_all, Nat.sub_diag. reflexivity.
Qed.

Section DataFrames.

Hypothesis BYTE_STEP_pos : 0 < BYTE_STEP.
Hypothesis BYTE_STEP_fits : 2 * BYTE_STEP <= PACKET_SIZE.

Lemma length_data_frame_at (data : list byte_t) (pos : Z) :
  Z.of_nat (length (data_frame_at data pos)) = PACKET_SIZE.
Proof.
  unfold data_frame_at. rewrite length_app, length_read_bytes, repeat_length.
  lia.
Qed.

Lemma zero_tail_calloc : zero_tail (calloc PACKET_SIZE).
Proof.
  unfold zero_tail, calloc. rewrite skipn_repeat_zero. f_equal. lia.
Qed.

Lemma memcpy_data_frame (packet data : list byte_t) (pos : Z) :
  zero_tail packet ->
  memcpy packet data pos (2 * BYTE_STEP) = data_frame_at data pos.
Proof.
  unfold zero_tail, memcpy, data_frame_at. intros ->. reflexivity.
Qed.

Lemma zero_tail_data_frame (data : list byte_t) (pos : Z) :
  zero_tail (data_frame_at data pos).
Proof.
  unfold zero_tail, data_frame_at.
  apply skipn_app_length, length_read_bytes.
Qed.

Lemma display_loop_data_frames (fuel : nat) (h : Handle) (data : list byte_t)
    (command_cnt j : Z) (packet : list byte_t) (w : World) :
  0 <= j -> zero_tail packet ->
  Forall (data_frame_ok data (2 * BYTE_STEP * command_cnt))
         (transfer_log (trace w)) ->
  wp (display_loop fuel h data (2 * BYTE_STEP * command_cnt)
                   (2 * BYTE_STEP * j) packet)
     (fun _ w' => Forall (data_frame_ok data (2 * BYTE_STEP * command_cnt))
                         (transfer_log (trace w'))) w.
Proof.
  revert j packet w.
  induction fuel as [|fuel IH]; intros j packet w Hj Hz Hf;
    cbn [display_loop]; apply wp_bind;
    (destruct (2 * BYTE_STEP * j <? 2 * BYTE_STEP * command_cnt) eqn:Hlt;
     wp_prim;
     [destruct (nonstop w && negb (signal_at (env w) (reads w)))|];
     try exact Hf).
  apply wp_bind. unfold send_display_command. wp_step. wp_prim.
  set (r1 := transfer_ret (env w) (transfers w)).
  assert (Hh : data_frame_ok data (2 * BYTE_STEP * command_cnt)
                 (mkTransfer HeaderFrame h (2 * BYTE_STEP * j)
                             header_packet r1)) by exact I.
  destruct (to_short r1 =? PACKET_SIZE); cbn [negb].
  2:{ wp_prim. constructor; assumption. }
  wp_step.
  set (r2 := transfer_ret (env w) (S (transfers w))).
  rewrite (memcpy_data_frame packet data _ Hz).
  assert (Hd : data_frame_ok data (2 * BYTE_STEP * command_cnt)
                 (mkTransfer DataFrame h (2 * BYTE_STEP * j)
                    (data_frame_at data (2 * BYTE_STEP * j)) r2)).
  { unfold data_frame_ok. cbn [t_kind t_pos t_packet].
    apply Z.ltb_lt in Hlt.
    assert (Hjc : j < command_cnt).
    { apply (Z.mul_lt_mono_pos_l (2 * BYTE_STEP)); lia. }
    assert (H0 : 0 <= 2 * BYTE_STEP * j).
    { apply Z.mul_nonneg_nonneg; lia. }
    assert (H1 : 2 * BYTE_STEP * (j + 1) <= 2 * BYTE_STEP * command_cnt).
    { apply Z.mul_le_mono_nonneg_l; lia. }
    repeat split; [lia | lia | apply length_data_frame_at]. }
  destruct (to_short r2 =? PACKET_SIZE); cbn [negb].
  2:{ wp_prim. repeat (constructor; try assumption). }
  wp_step.
  replace (2 * BYTE_STEP * j + 2 * BYTE_STEP) with (2 * BYTE_STEP * (j + 1))
    by lia.
  apply IH; [lia | apply zero_tail_data_frame |].
  cbn [trace transfer_log]. repeat (constructor; try assumption).
Qed.

Lemma display_data_arr_data_frames (h : Handle) (data : list byte_t)
    (command_cnt : Z) (w : World) :
  Forall (data_frame_ok data (2 * BYTE_STEP * command_cnt))
         (transfer_log (trace w)) ->
  wp (display_data_arr h data 0 (2 * BYTE_STEP * command_cnt))
     (fun _ w' => Forall (data_frame_ok data (2 * BYTE_STEP * command_cnt))
                         (transfer_log (trace w'))) w.
Proof.
  intros Hf. unfold display_data_arr.
  replace 0 with (2 * BYTE_STEP * 0) at 2 by lia.
  apply display_loop_data_frames; [lia | apply zero_tail_calloc | exact Hf].
Qed.

Lemma to_short_le (z : Z) : 0 <= z -> to_short z <= z.
Proof.
  intros H. unfold to_short.
  assert (Hm : z mod 65536 <= z) by (apply Z.mod_le; lia).
  destruct (z mod 65536 <? 32768); lia.
Qed.

(** C6: every DataFrame that a run of the streaming loop sends from a read
    position [i] is a 64-byte packet: its first [2*BYTE_STEP] bytes are the
    bytes [i .. i + 2*BYTE_STEP - 1] of the stream, the others are zero;
    the bytes read to build it all lie before the end of the stream that
    the loop uses, [2*BYTE_STEP*command_cnt], where [command_cnt] is the
    [short] that holds the result of [count_color_commands]; that end is
    not past the one that the result itself gives, when the result is not
    negative. *)
Theorem data_frame_contents (fuel : nat) (handle : Handle)
    (data_arr : list byte_t) (pck_cnt verbose : Z) (e : Env) :
  Forall (fun t =>
            match t_kind t with
            | HeaderFrame => True
            | DataFrame =>
                Z.of_nat (length (t_packet t)) = PACKET_SIZE /\
                t_packet t =
                  read_bytes data_arr (t_pos t) (Z.to_nat (2 * BYTE_STEP))
                  ++ repeat 0 (Z.to_nat (PACKET_SIZE - 2 * BYTE_STEP)) /\
                0 <= t_pos t /\
                t_pos t + 2 * BYTE_STEP
                  <= 2 * BYTE_STEP
                     * to_short (count_color_commands data_arr pck_cnt 0) /\
                (0 <= count_color_commands data_arr pck_cnt 0 ->
                 t_pos t + 2 * BYTE_STEP
                   <= 2 * BYTE_STEP * count_color_commands data_arr pck_cnt 0)
            end)
         (transfers_sent (snd (send_packets fuel handle data_arr pck_cnt
                                 verbose (init_world e)))).
Proof.
  unfold transfers_sent. apply Forall_rev.
  eapply Forall_impl;
    [|apply (send_packets_transfer_invariant
               (Forall (data_frame_ok data_arr
                  (2 * BYTE_STEP
                   * to_short (count_color_commands data_arr pck_cnt 0)))))].
  - intros t. unfold data_frame_ok, data_frame_at.
    destruct (t_kind t); [tauto|].
    intros (H1 & H2 & H3 & H4). repeat split; auto.
    intros Hc. apply to_short_le in Hc.
    apply Z.le_trans with (1 := H2). apply Z.mul_le_mono_nonneg_l; lia.
  - intros h w. apply display_data_arr_data_frames.
  - constructor.
Qed.

End DataFrames.

(** ** The flag and the shape of a run *)

Lemma no_stop_cons (e : Event) (tr : list Event) :
  e <> EvNonstop false -> no_stop tr -> no_stop (e :: tr).
Proof. unfold no_stop. simpl. intuition congruence. Qed.

Lemma reconnect_event_not_read (e : Event) :
  reconnect_event e -> is_read e = false.
Proof. destruct e; simpl; auto; contradiction. Qed.

Lemma reconnect_event_not_stop (e : Event) :
  reconnect_event e -> e <> EvNonstop false.
Proof. destruct e; simpl; try discriminate; contradiction. Qed.

Lemma extends_nonstop (w w' : World) :
  extends reconnect_event w w' -> nonstop w' = nonstop w.
Proof.
  intros [_ (l & _ & F & N)]. apply N.
  eapply Forall_impl; [|exact F]. apply reconnect_event_not_read.
Qed.

Lemma extends_reads (w w' : World) :
  extends reconnect_event w w' -> reads w' = reads w.
Proof.
  intros [_ (l & _ & F & N)]. apply N.
  eapply Forall_impl; [|exact F]. apply reconnect_event_not_read.
Qed.

Lemma extends_no_stop (w w' : World) :
  extends reconnect_event w w' -> no_stop (trace w) -> no_stop (trace w').
Proof.
  intros [_ (l & Ht & F & _)] Hs. rewrite Ht. unfold no_stop in *.
  rewrite in_app_iff. intros [H|H]; [|auto].
  rewrite Forall_forall in F. apply (reconnect_event_not_stop _ (F _ H)).
  reflexivity.
Qed.

Lemma extends_idle (w w' : World) :
  extends reconnect_event w w' -> idle (trace w) -> idle (trace w').
Proof.
  intros [_ (l & Ht & F & _)] Hi. rewrite Ht.
  destruct l as [|e l]; [exact Hi|]. inversion F; subst.
  destruct e; simpl in *; auto.
Qed.

Lemma extends_live (w w' : World) :
  extends reconnect_event w w' -> live w -> live w'.
Proof.
  intros He [Hn Hs]. split.
  - rewrite (extends_nonstop _ _ He). exact Hn.
  - apply (extends_no_stop _ _ He Hs).
Qed.

Lemma wp_emits {A} (P : Event -> Prop) (m : M A)
    (Q : Res A -> World -> Prop) (w : World) :
  emits P m -> (forall r w', extends P w w' -> Q r w') -> wp m Q w.
Proof. intros Hm HQ. unfold wp. apply HQ, Hm. Qed.

(** Once the flag is 0 each loop ends at its next test. *)
Lemma read_nonstop_stopped (w : World) :
  nonstop w = false -> read_nonstop w = (Ret false, stop_read w).
Proof. intros H. unfold read_nonstop, stop_read. rewrite H. reflexivity. Qed.

Lemma send_loop_stopped (fuel rfuel : nat) (data : list byte_t)
    (command_cnt : Z) (h : Handle) (attempts : Z) (w : World) :
  nonstop w = false ->
  send_loop fuel rfuel data command_cnt h attempts w = (Ret h, stop_read w).
Proof.
  intros H. destruct fuel; cbn [send_loop]; unfold bind;
    rewrite (read_nonstop_stopped w H); reflexivity.
Qed.

Lemma display_loop_shape (fuel : nat) (h : Handle) (data : list byte_t)
    (end_ col : Z) (packet : list byte_t) (w : World) :
  live w -> idle (trace w) ->
  wp (display_loop fuel h data end_ col packet) (display_post h) w.
Proof.
  revert col packet w.
  induction fuel as [|fuel IH]; intros col packet w [Hn Hs] Hi;
    cbn [display_loop]; apply wp_bind;
    (destruct (col <? end_); wp_prim;
     [rewrite Hn; cbn [andb];
      destruct (signal_at (env w) (reads w)); cbn [negb]; wp_prim|]);
    try (left; split; [split; assumption | exact Hi]);
    try (right; split; [reflexivity|]; split; [reflexivity|];
         exists (trace w); auto);
    try (apply no_stop_cons; [discriminate | exact Hs]).
  apply wp_bind. unfold send_display_command. wp_step. wp_prim.
  set (r1 := transfer_ret (env w) (transfers w)).
  assert (Hs1 : no_stop (EvTransfer HeaderFrame h col header_packet r1
                           :: EvNonstop true :: trace w)).
  { repeat (apply no_stop_cons; [discriminate|]). exact Hs. }
  destruct (to_short r1 =? PACKET_SIZE) eqn:E1; cbn [negb].
  2:{ wp_prim. left. split; [split; [reflexivity | exact Hs1]|].
      cbn. do 5 eexists. split; [reflexivity | exact E1]. }
  wp_step.
  set (r2 := transfer_ret (env w) (S (transfers w))).
  destruct (to_short r2 =? PACKET_SIZE) eqn:E2; cbn [negb].
  2:{ wp_prim. left. split.
      - split; [reflexivity|]. apply no_stop_cons; [discriminate|exact Hs1].
      - cbn. do 5 eexists. split; [reflexivity | exact E2]. }
  wp_step. apply IH; [split; [reflexivity|]|exact I].
  cbn [trace]. repeat (apply no_stop_cons; [discriminate|]). exact Hs.
Qed.

Lemma reconnect_loop_shape (fuel : nat) (h : Handle) (attempts : Z)
    (w : World) :
  live w -> idle (trace w) ->
  wp (reconnect_loop fuel h attempts) reconnect_post w.
Proof.
  revert h attempts w.
  induction fuel as [|fuel IH]; intros h attempts w [Hn Hs] Hi;
    cbn [reconnect_loop]; apply wp_bind; wp_prim;
    rewrite Hn; cbn [andb];
    (destruct (signal_at (env w) (reads w)); cbn [negb andb];
     [wp_prim; right; split; [reflexivity|]; exists (trace w); auto|]);
    (destruct (h =? NULL)%nat; [|wp_prim; left; split; [split|];
       [reflexivity | apply no_stop_cons; [discriminate|exact Hs] | exact I]]).
  - wp_prim. apply no_stop_cons; [discriminate|exact Hs].
  - apply wp_bind. apply (wp_emits _ _ _ _ emits_attempt_reconnect).
    intros [h'| |c|] w1 He; try (apply (extends_no_stop _ _ He);
      apply no_stop_cons; [discriminate|exact Hs]).
    assert (Hl : live w1).
    { apply (extends_live _ _ He). split; [reflexivity|].
      apply no_stop_cons; [discriminate|exact Hs]. }
    assert (Hi1 : idle (trace w1)) by (apply (extends_idle _ _ He); exact I).
    destruct (negb (h' =? NULL)%nat); [apply IH; assumption|].
    wp_step. apply IH; [|exact I]. destruct Hl as [Hn1 Hs1].
    split; [exact Hn1|]. apply no_stop_cons; [discriminate|exact Hs1].
Qed.

Lemma send_loop_stopped_post (fuel rfuel : nat) (data : list byte_t)
    (command_cnt : Z) (h : Handle) (attempts : Z) (w : World)
    (tr : list Event) :
  nonstop w = false -> trace w = EvNonstop false :: tr -> no_stop tr ->
  idle tr \/ failed_on h tr ->
  wp (send_loop fuel rfuel data command_cnt h attempts) send_loop_post w.
Proof.
  intros Hn Ht Hs Hc. unfold wp.
  rewrite (send_loop_stopped _ _ _ _ _ _ _ Hn). cbn [fst snd].
  split; [reflexivity|]. exists tr. split; [exact Hs|]. right.
  cbn [stop_read trace]. rewrite Ht. auto.
Qed.

Lemma send_loop_shape (fuel rfuel : nat) (data : list byte_t)
    (command_cnt : Z) (h : Handle) (attempts : Z) (w : World) :
  no_stop (trace w) -> idle (trace w) ->
  wp (send_loop fuel rfuel data command_cnt h attempts) send_loop_post w.
Proof.
  revert h attempts w.
  induction fuel as [|fuel IH]; intros h attempts w Hs Hi;
    cbn [send_loop]; apply wp_bind; wp_prim;
    (destruct (nonstop w && negb (signal_at (env w) (reads w)));
     [|wp_prim; split; [reflexivity|]; exists (trace w); auto]).
  - wp_prim. apply no_stop_cons; [discriminate|exact Hs].
  - assert (Hs1 : no_stop (EvNonstop true :: trace w))
      by (apply no_stop_cons; [discriminate|exact Hs]).
    apply wp_bind.
    eapply wp_mono;
      [|apply display_loop_shape; [split; [reflexivity|exact Hs1]|exact I]].
    intros [d| |c|] w2 H2; try exact H2.
    destruct H2 as [[Hl2 Hd]|[-> (Hn2 & tr & Ht & Hst & Hit)]].
    2:{ cbn [Z.eqb negb]. wp_step.
        apply (send_loop_stopped_post _ _ _ _ _ _ _ tr); auto. }
    destruct (d =? 0); cbn [negb].
    { wp_step. apply IH; [apply Hl2 | exact Hd]. }
    destruct Hl2 as [Hn2 Hs2].
    apply wp_bind. wp_prim. rewrite Hn2. cbn [andb].
    destruct (signal_at (env w2) (reads w2)); cbn [negb].
    { apply (send_loop_stopped_post _ _ _ _ _ _ _ (trace w2)); auto. }
    apply wp_bind. unfold reconnection. apply wp_bind.
    apply (wp_emits _ _ _ _ (emits_release_and_close h)).
    intros [[]| |c|] w3 He3;
      try (apply (extends_no_stop _ _ He3);
           apply no_stop_cons; [discriminate|exact Hs2]).
    assert (Hl3 : live w3).
    { apply (extends_live _ _ He3). split; [reflexivity|].
      apply no_stop_cons; [discriminate|exact Hs2]. }
    destruct Hl3 as [Hn3 Hs3].
    wp_step.
    eapply wp_mono; [|apply reconnect_loop_shape; [split|exact I]].
    2:{ exact Hn3. }
    2:{ apply no_stop_cons; [discriminate|exact Hs3]. }
    intros [[h' a']| |c|] w4 H4; try exact H4.
    destruct H4 as [[Hl4 Hi4]|(Hn4 & tr & Ht & Hst & Hit)].
    + apply IH; [apply Hl4 | exact Hi4].
    + apply (send_loop_stopped_post _ _ _ _ _ _ _ tr); auto.
Qed.

(** ** Handles and interfaces *)

Lemma remove_one_head (r : Resource) (l : list Resource) :
  remove_one r (r :: l) = l.
Proof.
  simpl. destruct (Resource_eq_dec r r); [reflexivity | contradiction].
Qed.

Lemma held_inert (init : list Resource) (l tr : list Event) :
  Forall inert l -> held init (l ++ tr) = held init tr.
Proof.
  induction 1 as [|e l He _ IH]; simpl; [reflexivity|].
  destruct e; simpl in He; try contradiction; exact IH.
Qed.

Lemma extends_held (init : list Resource) (w w' : World) :
  extends inert w w' -> held init (trace w') = held init (trace w).
Proof.
  intros [_ (l & Ht & F & _)]. rewrite Ht. apply held_inert, F.
Qed.

Lemma wp_inert {A} (m : M A) (init R : list Resource) (w : World) :
  emits inert m -> held init (trace w) = R ->
  wp m (fun _ w' => held init (trace w') = R) w.
Proof.
  intros Hm H. unfold wp. rewrite (extends_held init w _ (Hm w)). exact H.
Qed.

Lemma emits_display_loop (fuel : nat) h data end_ col packet :
  emits inert (display_loop fuel h data end_ col packet).
Proof.
  revert col packet.
  induction fuel as [|fuel IH]; intros col packet; cbn [display_loop];
    unfold send_display_command; emits_auto.
Qed.

Lemma emits_dev_search_inert (devs : list libusb_device) (cnt : Z) :
  emits inert (dev_search devs cnt).
Proof.
  unfold dev_search.
  induction (firstn (Z.to_nat cnt) devs) as [|dev rest IH]; simpl; emits_auto.
Qed.

Lemma claim_loop_held (init R : list Resource) (fuel : nat) (h : Handle)
    (retry e0 e1 : Z) (w : World) :
  held init (trace w) = R ->
  wp (claim_loop fuel h retry e0 e1)
     (fun r w' =>
        match r with
        | Ret (true, _) =>
            held init (trace w')
            = ClaimedInterface h 1 :: ClaimedInterface h 0 :: R
        | Ret (false, _) => held init (trace w') = R
        | _ => True
        end) w.
Proof.
  revert retry e0 e1 w.
  induction fuel as [|fuel IH]; intros retry e0 e1 w H; cbn [claim_loop];
    (destruct (retry <? 3); [|exact H]); [exact I|].
  apply wp_bind.
  assert (Hw : wp (if 0 <? retry then usleep 100000 else ret tt)
                  (fun _ w' => held init (trace w') = R) w).
  { apply wp_inert; [destruct (0 <? retry); emits_auto | exact H]. }
  eapply wp_mono; [|exact Hw].
  intros [[]| |c|] w1 H1; try exact I.
  wp_step. wp_step.
  set (c0 := claim_ret (env w1) (claims w1)).
  set (c1 := claim_ret (env w1) (S (claims w1))).
  destruct (c0 =? 0) eqn:E0, (c1 =? 0) eqn:E1; cbn [andb].
  - wp_prim. cbn [held]. rewrite E0, E1, H1. reflexivity.
  - wp_step. wp_step. apply IH. cbn [held trace]. rewrite E0, E1, H1.
    apply remove_one_head.
  - wp_step. wp_step. apply IH. cbn [held trace]. rewrite E0, E1, H1.
    apply remove_one_head.
  - wp_step. wp_step. apply IH. cbn [held trace]. rewrite E0, E1, H1.
    reflexivity.
Qed.

Lemma claim_dev_interface_held (init R : list Resource) (h : Handle)
    (w : World) :
  held init (trace w) = R ->
  wp (claim_dev_interface h)
     (fun r w' =>
        match r with
        | Ret c =>
            held init (trace w')
            = if c =? 0
              then ClaimedInterface h 1 :: ClaimedInterface h 0 :: R
              else R
        | _ => True
        end) w.
Proof.
  intros H. unfold claim_dev_interface. wp_step. apply wp_bind.
  eapply wp_mono; [|apply (claim_loop_held init R); exact H].
  intros [[claimed [e0 e1]]| |c|] w1 H1; try exact I.
  destruct claimed; [exact H1|].
  destruct ((e0 =? LIBUSB_ERROR_BUSY) || (e1 =? LIBUSB_ERROR_BUSY));
    [wp_step; wp_prim; exact H1|].
  destruct ((e0 =? LIBUSB_ERROR_NO_DEVICE) || (e1 =? LIBUSB_ERROR_NO_DEVICE));
    [wp_step; wp_prim; exact H1|].
  exact H1.
Qed.

Lemma reopen_loop_held (init R : list Resource) (fuel : nat)
    (dev : libusb_device) (retry : Z) (h : Handle) (devs : DevList)
    (w : World) :
  held init (trace w) = R ->
  wp (reopen_loop fuel dev retry h devs)
     (fun r w' =>
        match r with
        | Ret (Some h') => held init (trace w') = connection h' ++ R
        | Ret None => held init (trace w') = R
        | _ => True
        end) w.
Proof.
  revert retry h w.
  induction fuel as [|fuel IH]; intros retry h w H; cbn [reopen_loop];
    (destruct (retry <? 3); [|exact H]); [exact I|].
  wp_step.
  set (errcode := open_ret (env w) (opens w)).
  destruct (errcode =? 0) eqn:E.
  2:{ apply wp_bind. wp_prim. wp_step. apply IH.
      cbn [held trace]. fold errcode. rewrite E. exact H. }
  apply wp_bind. apply wp_bind.
  eapply wp_mono;
    [|apply (claim_dev_interface_held init (OpenHandle (S (opens w)) :: R))].
  2:{ cbn [held trace]. fold errcode. rewrite E, H. reflexivity. }
  intros [c| |c|] w1 H1; try exact I.
  destruct (c =? 0).
  - destruct devs as [|l]; wp_step; [exact I|].
    wp_prim. wp_prim. cbn [held]. exact H1.
  - wp_step. wp_prim. wp_step. apply IH. cbn [held trace]. rewrite H1.
    apply remove_one_head.
Qed.

Lemma attempt_reconnect_held (init R : list Resource) (w : World) :
  held init (trace w) = R ->
  wp attempt_reconnect
     (fun r w' =>
        match r with
        | Ret h => held init (trace w') = connection h ++ R
        | _ => True
        end) w.
Proof.
  intros H. unfold attempt_reconnect. wp_step.
  destruct (device_list (env w) (listings w)) as [cnt devs]. cbn [fst snd].
  destruct (cnt <? 0); [exact H|].
  apply wp_bind.
  assert (Hw : wp (dev_search devs cnt)
                  (fun _ w' => held init (trace w') = R)
                  (mkWorld (env w) (nonstop w) (reads w) (transfers w)
                     (S (listings w)) (opens w) (claims w)
                     (EvGetDeviceList cnt :: trace w) (process w))).
  { apply wp_inert; [apply emits_dev_search_inert | exact H]. }
  eapply wp_mono; [|exact Hw].
  intros [[dev|]| |c|] w1 H1; try exact I.
  2:{ wp_step. wp_prim. exact H1. }
  apply wp_bind.
  eapply wp_mono; [|apply (reopen_loop_held init R); exact H1].
  intros [[h|]| |c|] w2 H2; try exact I.
  - exact H2.
  - wp_step. wp_prim. exact H2.
Qed.

Lemma release_and_close_held (init : list Resource) (h : Handle) (w : World) :
  held init (trace w) = connection h ->
  wp (release_and_close h) (fun _ w' => held init (trace w') = []) w.
Proof.
  intros H. unfold release_and_close, connection in *.
  destruct (h =? NULL)%nat; cbn [negb]; [exact H|].
  wp_step. wp_step. wp_prim. cbn [held]. rewrite H.
  cbn [remove_one].
  repeat (match goal with
          | |- context [Resource_eq_dec ?a ?b] =>
              destruct (Resource_eq_dec a b); try discriminate;
              try congruence
          end; cbn [remove_one]); try reflexivity.
Qed.

Lemma reconnect_loop_held (init : list Resource) (fuel : nat) (h : Handle)
    (attempts : Z) (w : World) :
  held init (trace w) = connection h ->
  wp (reconnect_loop fuel h attempts)
     (fun r w' =>
        match r with
        | Ret (h', _) => held init (trace w') = connection h'
        | _ => True
        end) w.
Proof.
  revert h attempts w.
  induction fuel as [|fuel IH]; intros h attempts w H;
    cbn [reconnect_loop]; wp_step;
    (destruct (nonstop w && negb (signal_at (env w) (reads w)));
     cbn [andb]; [|exact H]);
    (destruct (h =? NULL)%nat eqn:Eh; [|exact H]); [exact I|].
  apply Nat.eqb_eq in Eh. subst h.
  apply wp_bind.
  eapply wp_mono; [|apply (attempt_reconnect_held init []); exact H].
  intros [h'| |c|] w1 H1; try exact I. rewrite app_nil_r in H1.
  destruct (h' =? NULL)%nat eqn:Eh'; cbn [negb]; [|apply IH, H1].
  apply Nat.eqb_eq in Eh'. subst h'. wp_step. apply IH. exact H1.
Qed.

Lemma send_loop_held (init : list Resource) (fuel rfuel : nat)
    (data : list byte_t) (command_cnt : Z) (h : Handle) (attempts : Z)
    (w : World) :
  held init (trace w) = connection h ->
  wp (send_loop fuel rfuel data command_cnt h attempts)
     (fun r w' =>
        match r with
        | Ret cur => held init (trace w') = connection cur
        | _ => True
        end) w.
Proof.
  revert h attempts w.
  induction fuel as [|fuel IH]; intros h attempts w H;
    cbn [send_loop]; wp_step;
    (destruct (nonstop w && negb (signal_at (env w) (reads w)));
     [|exact H]); [exact I|].
  apply wp_bind.
  eapply wp_mono; [|apply (wp_inert _ init (connection h))].
  2:{ apply emits_display_loop. }
  2:{ exact H. }
  intros [d| |c|] w2 H2; try exact I.
  apply wp_bind.
  eapply wp_mono; [|apply (wp_inert _ init (connection h))].
  3:{ exact H2. }
  2:{ destruct (negb (d =? 0)); emits_auto. }
  intros [reconnect| |c|] w3 H3; try exact I.
  destruct reconnect; [|apply IH, H3].
  apply wp_bind. unfold reconnection. apply wp_bind.
  eapply wp_mono; [|apply (release_and_close_held init h); exact H3].
  intros [[]| |c|] w4 H4; try exact I.
  wp_step.
  eapply wp_mono; [|apply (reconnect_loop_held init); exact H4].
  intros [[h' a']| |c|] w5 H5; try exact I.
  apply IH, H5.
Qed.

(** When [send_packets] returns, the handle it was given and every handle
    that it opened are closed and their interfaces released. *)
Lemma send_packets_held (fuel : nat) (handle : Handle)
    (data_arr : list byte_t) (pck_cnt verbose : Z) (e : Env) :
  wp (send_packets fuel handle data_arr pck_cnt verbose)
     (fun r w' =>
        match r with
        | Ret _ => held (connection handle) (trace w') = []
        | _ => True
        end) (init_world e).
Proof.
  apply wp_send_packets; intros Hf; [exact I|].
  apply wp_bind.
  eapply wp_mono; [|apply (send_loop_held (connection handle))].
  2:{ unfold started, start_events. cbn [trace init_world env].
      destruct (early_signal e); reflexivity. }
  intros [cur| |c|] w1 H1; try exact I.
  eapply wp_mono;
    [|apply (release_and_close_held (connection handle) cur); exact H1].
  intros [[]| |c|] w2 H2; auto.
Qed.

(** The shape of a run of [send_packets] with respect to the flag: either
    the flag was never read as 0 and the run did not return, or the run
    returned and its trace ends with the first read of the flag as 0, at
    most one more read of it, and the release of the connection in use,
    which is all that the process holds then. *)
Lemma send_packets_shape (fuel : nat) (handle : Handle)
    (data_arr : list byte_t) (pck_cnt verbose : Z) (e : Env) :
  wp (send_packets fuel handle data_arr pck_cnt verbose)
     (fun r w' =>
        match r with
        | Ret _ =>
            exists cur tr,
              no_stop tr /\
              held (connection handle) tr = connection cur /\
              ((trace w' = rev (release_events cur) ++ EvNonstop false :: tr
                /\ idle tr) \/
               (trace w' = rev (release_events cur)
                           ++ EvNonstop false :: EvNonstop false :: tr
                /\ (idle tr \/ failed_on cur tr)))
        | _ => no_stop (trace w')
        end) (init_world e).
Proof.
  apply wp_send_packets; intros Hf.
  { cbn [daemonized trace init_world]. intros [H|[]]. discriminate H. }
  assert (Hst : no_stop (trace (started verbose (init_world e))) /\
                idle (trace (started verbose (init_world e))) /\
                held (connection handle)
                     (trace (started verbose (init_world e)))
                = connection handle).
  { unfold started, start_events. cbn [trace init_world env].
    destruct (early_signal e); cbn [rev app]; (split; [|split]);
      try exact I; try reflexivity;
      repeat (apply no_stop_cons; [discriminate|]); intros []. }
  destruct Hst as (Hs0 & Hi0 & Hh0).
  apply wp_bind.
  eapply wp_mono;
    [|exact (wp_conj _ _ _ _
               (send_loop_shape _ _ _ _ _ _ _ Hs0 Hi0)
               (send_loop_held (connection handle) _ _ _ _ _ _ _ Hh0))].
  intros [cur| |c|] w1 [H1 Hh]; try exact H1.
  destruct H1 as (Hn & tr & Hs & Hc).
  assert (Hht : held (connection handle) tr = connection cur).
  { destruct Hc as [[Ht _]|[Ht _]]; rewrite Ht in Hh; exact Hh. }
  unfold release_and_close.
  destruct (cur =? NULL)%nat eqn:Ec; cbn [negb].
  - wp_prim. exists cur, tr. unfold release_events. rewrite Ec.
    split; [exact Hs|]. split; [exact Hht | exact Hc].
  - wp_step. wp_step. wp_prim. exists cur, tr.
    unfold release_events. rewrite Ec. split; [exact Hs|].
    split; [exact Hht|].
    destruct Hc as [[-> Hi]|[-> Hi]]; [left | right]; auto.
Qed.

(** ** The run after the flag is read as 0 *)

Lemma first_occurrence {A} (x : A) (l1 r1 l2 r2 : list A) :
  l1 ++ x :: r1 = l2 ++ x :: r2 -> ~ In x l1 ->
  (l1 = l2 /\ r1 = r2) \/ (exists m, l2 = l1 ++ x :: m /\ r1 = m ++ x :: r2).
Proof.
  revert l2. induction l1 as [|a l1 IH]; intros l2 H Hn.
  - destruct l2 as [|b l2]; simpl in H; inversion H; subst.
    + left. auto.
    + right. exists l2. auto.
  - destruct l2 as [|b l2]; simpl in H; inversion H; subst.
    + exfalso. apply Hn. left. reflexivity.
    + destruct (IH l2 H2) as [[-> ->]|(m & -> & ->)].
      * intros Hin. apply Hn. right. exact Hin.
      * left. auto.
      * right. exists m. auto.
Qed.

Lemma no_stop_rev (tr : list Event) :
  no_stop tr -> ~ In (EvNonstop false) (rev tr).
Proof. unfold no_stop. intros H Hin. apply H, in_rev, Hin. Qed.

Lemma shutdown_release_events (h : Handle) :
  Forall shutdown_event (release_events h).
Proof.
  unfold release_events. destruct (h =? NULL)%nat; repeat constructor.
Qed.

Lemma shutdown_no_blocking (l : list Event) :
  Forall shutdown_event l -> total_blocking_time l = 0.
Proof.
  induction 1 as [|e l He _ IH]; simpl; [reflexivity|].
  rewrite IH. destruct e as [[|]| | | | | | | | | | | | | | | |];
    simpl in *; try contradiction; reflexivity.
Qed.

Lemma shutdown_no_transfer (l : list Event) :
  Forall shutdown_event l -> Forall (fun e => is_transfer e = false) l.
Proof.
  apply Forall_impl. intros e. destruct e; simpl; auto; contradiction.
Qed.

(** The history of a run that returned: the events before the first read
    of the flag as 0, that read, and what comes after it. *)
Lemma send_packets_history (fuel : nat) (handle : Handle)
    (data_arr : list byte_t) (pck_cnt verbose : Z) (e : Env) :
  let run := send_packets fuel handle data_arr pck_cnt verbose
                          (init_world e) in
  match fst run with
  | Ret _ =>
      exists cur tr rest,
        history (snd run) = rev tr ++ EvNonstop false :: rest /\
        no_stop tr /\
        held (connection handle) tr = connection cur /\
        ((rest = release_events cur /\ idle tr) \/
         (rest = EvNonstop false :: release_events cur /\
          (idle tr \/ failed_on cur tr)))
  | _ => no_stop (trace (snd run))
  end.
Proof.
  intros run.
  pose proof (send_packets_shape fuel handle data_arr pck_cnt verbose e) as H.
  unfold wp in H. fold run in H. destruct (fst run); try exact H.
  destruct H as (cur & tr & Hs & Hht & Hc). exists cur, tr.
  unfold history.
  destruct Hc as [[-> Hi]|[-> Hi]].
  - exists (release_events cur). rewrite rev_app_distr, rev_involutive.
    simpl. rewrite <- app_assoc. simpl. auto 7.
  - exists (EvNonstop false :: release_events cur).
    rewrite rev_app_distr, rev_involutive. simpl.
    rewrite <- !app_assoc. simpl. auto 7.
Qed.

(** ** The time between two reads of the flag *)

Lemma total_blocking_time_app (l1 l2 : list Event) :
  total_blocking_time (l1 ++ l2)
  = total_blocking_time l1 + total_blocking_time l2.
Proof.
  induction l1 as [|e l1 IH]; cbn [app total_blocking_time fold_right];
    [reflexivity|].
  fold (total_blocking_time (l1 ++ l2)). fold (total_blocking_time l1). lia.
Qed.

Lemma total_blocking_time_rev (l : list Event) :
  total_blocking_time (rev l) = total_blocking_time l.
Proof.
  induction l as [|e l IH]; [reflexivity|]. cbn [rev].
  rewrite total_blocking_time_app, IH.
  cbn [total_blocking_time fold_right]. fold (total_blocking_time l). lia.
Qed.

Lemma existsb_is_transfer_rev (l : list Event) :
  existsb is_transfer (rev l) = existsb is_transfer l.
Proof.
  induction l as [|e l IH]; [reflexivity|]. cbn [rev existsb].
  rewrite existsb_app, IH. cbn [existsb]. rewrite orb_false_r.
  apply orb_comm.
Qed.

Lemma since_read_app (l rest : list Event) (v : bool) :
  Forall (fun ev => is_read ev = false) l ->
  since_read (l ++ EvNonstop v :: rest) = l.
Proof.
  induction 1 as [|e l He _ IH]; [reflexivity|].
  cbn [app]. destruct e; try discriminate He; cbn [since_read];
    rewrite IH; reflexivity.
Qed.

Lemma prompt_app (l1 l2 : list Event) : prompt (l1 ++ l2) -> prompt l2.
Proof.
  induction l1 as [|e l1 IH]; [auto|]. cbn [app prompt]. intros [_ H]. auto.
Qed.

Lemma gap_inv_read (v : bool) (tr : list Event) :
  prompt tr -> gap_inv (EvNonstop v :: tr).
Proof.
  intros H. split; [|reflexivity]. split; [discriminate | exact H].
Qed.

Lemma gap_inv_quiet (evs tr : list Event) :
  Forall (fun e => is_transfer e = false) evs ->
  gap_inv tr -> gap_inv (evs ++ tr).
Proof.
  induction 1 as [|e evs He _ IH]; intros Hi; [exact Hi|].
  specialize (IH Hi). destruct IH as [Hp Hc]. cbn [app].
  destruct e; try discriminate He;
    try (apply gap_inv_read; exact Hp);
    (split; [split; [|exact Hp]|]); unfold calm in *;
    cbn [since_read existsb is_transfer orb]; rewrite Hc;
    try discriminate; reflexivity.
Qed.

(** The two reads of the flag around a frame cycle are no further apart
    than the two transfers and the pause. *)
Lemma prompt_gap (tr before between after : list Event) (v v' : bool) :
  prompt tr ->
  rev tr = before ++ EvNonstop v :: between ++ EvNonstop v' :: after ->
  Forall (fun ev => is_read ev = false) between ->
  existsb is_transfer between = true ->
  total_blocking_time between <= frame_cycle_time.
Proof.
  intros Hp Hr Hb Ht.
  assert (Htr : tr = (rev after ++ [EvNonstop v'])
                     ++ rev between ++ EvNonstop v :: rev before).
  { rewrite <- (rev_involutive tr), Hr.
    repeat (rewrite rev_app_distr || (progress cbn [rev])).
    rewrite <- !app_assoc. reflexivity. }
  rewrite Htr in Hp. apply prompt_app in Hp.
  assert (Hs : since_read (rev between ++ EvNonstop v :: rev before)
               = rev between).
  { apply since_read_app, Forall_rev, Hb. }
  rewrite <- total_blocking_time_rev.
  rewrite <- existsb_is_transfer_rev in Ht.
  destruct (rev between) as [|e l] eqn:E; [discriminate Ht|].
  cbn [app] in Hp, Hs. destruct Hp as [Hp _]. rewrite Hs in Hp.
  apply Hp, Ht.
Qed.

Lemma display_loop_prompt (fuel : nat) (h : Handle) (data : list byte_t)
    (end_ col : Z) (packet : list byte_t) (w : World) :
  prompt (trace w) ->
  wp (display_loop fuel h data end_ col packet)
     (fun _ w' => prompt (trace w')) w.
Proof.
  revert col packet w.
  induction fuel as [|fuel IH]; intros col packet w Hp; cbn [display_loop];
    apply wp_bind;
    (destruct (col <? end_); wp_prim;
     [destruct (nonstop w && negb (signal_at (env w) (reads w)))|]);
    try exact Hp; try (apply gap_inv_read; exact Hp).
  assert (H0 : prompt (EvNonstop true :: trace w))
    by (apply gap_inv_read; exact Hp).
  apply wp_bind. unfold send_display_command. wp_step. wp_prim.
  set (r1 := transfer_ret (env w) (transfers w)).
  assert (H1 : prompt (EvTransfer HeaderFrame h col header_packet r1
                       :: EvNonstop true :: trace w)).
  { split; [|exact H0]. intros _. unfold frame_cycle_time, TIMEOUT.
    cbn. lia. }
  destruct (to_short r1 =? PACKET_SIZE); cbn [negb]; [|exact H1].
  wp_step.
  set (r2 := transfer_ret (env w) (S (transfers w))).
  set (pk := memcpy packet data col (2 * BYTE_STEP)).
  assert (H2 : prompt (EvTransfer DataFrame h col pk r2
                       :: EvTransfer HeaderFrame h col header_packet r1
                       :: EvNonstop true :: trace w)).
  { split; [|exact H1]. intros _. unfold frame_cycle_time, TIMEOUT.
    cbn. lia. }
  destruct (to_short r2 =? PACKET_SIZE); cbn [negb]; [|exact H2].
  wp_step. apply IH. cbn [trace]. split; [|exact H2].
  intros _. unfold frame_cycle_time, TIMEOUT. cbn. lia.
Qed.

Lemma wp_gap_inv {A} (m : M A) (w : World) :
  emits (fun e => is_transfer e = false) m ->
  gap_inv (trace w) ->
  wp m (fun _ w' => gap_inv (trace w')) w.
Proof.
  intros Hm Hi. unfold wp.
  destruct (Hm w) as [_ (evs & -> & F & _)]. apply gap_inv_quiet; assumption.
Qed.

Lemma send_loop_prompt (fuel rfuel : nat) (data : list byte_t)
    (command_cnt : Z) :
  forall (h : Handle) (attempts : Z) (w : World),
    prompt (trace w) ->
    wp (send_loop fuel rfuel data command_cnt h attempts)
       (fun r w' =>
          match r with
          | Ret _ => gap_inv (trace w')
          | _ => prompt (trace w')
          end) w.
Proof.
  induction fuel as [|fuel IH]; intros h attempts w Hp; cbn [send_loop];
    wp_step;
    (assert (H0 : gap_inv (EvNonstop
                             (nonstop w && negb (signal_at (env w) (reads w)))
                           :: trace w))
       by (apply gap_inv_read; exact Hp));
    (destruct (nonstop w && negb (signal_at (env w) (reads w)));
     [|exact H0]); [exact (proj1 H0)|].
  apply wp_bind.
  eapply wp_mono; [|apply display_loop_prompt; exact (proj1 H0)].
  intros [d| |c|] w2 H2; try exact H2.
  apply wp_bind.
  assert (Hw : wp (if negb (d =? 0) then read_nonstop else ret false)
                  (fun r w' =>
                     prompt (trace w') /\
                     (r = Ret true -> gap_inv (trace w'))) w2).
  { destruct (negb (d =? 0)); wp_prim.
    - split; [apply gap_inv_read; exact H2|].
      intros _. apply gap_inv_read; exact H2.
    - split; [exact H2 | discriminate]. }
  eapply wp_mono; [|exact Hw].
  intros [reconnect| |c|] w3 [H3 Hg3]; try exact H3.
  destruct reconnect; [|apply IH, H3].
  specialize (Hg3 eq_refl).
  apply wp_bind. unfold reconnection. apply wp_bind.
  eapply wp_mono; [|apply wp_gap_inv; [|exact Hg3]].
  2:{ eapply emits_weaken; [apply reconnect_event_no_transfer|].
      apply emits_release_and_close. }
  intros [[]| |c|] w4 H4; try exact (proj1 H4).
  apply wp_bind.
  eapply wp_mono; [|apply wp_gap_inv; [emits_auto|exact H4]].
  intros [[]| |c|] w5 H5; try exact (proj1 H5).
  eapply wp_mono; [|apply wp_gap_inv; [|exact H5]].
  2:{ apply emits_reconnect_loop; auto using reconnect_event_no_transfer. }
  intros [[h' a']| |c|] w6 H6; try exact (proj1 H6).
  apply IH, H6.
Qed.

Lemma send_packets_prompt (fuel : nat) (handle : Handle)
    (data_arr : list byte_t) (pck_cnt verbose : Z) (e : Env) :
  prompt (trace (snd (send_packets fuel handle data_arr pck_cnt verbose
                        (init_world e)))).
Proof.
  as_wp (send_packets fuel handle data_arr pck_cnt verbose) (init_world e).
  apply wp_send_packets; intros Hf.
  { cbn [daemonized trace init_world]. split; [discriminate | exact I]. }
  apply wp_bind.
  eapply wp_mono; [|apply send_loop_prompt].
  2:{ unfold started, start_events. cbn [trace init_world env].
      destruct (early_signal e); cbn [rev app prompt since_read existsb
        is_transfer orb]; repeat split; discriminate. }
  intros [cur| |c|] w1 H1; try exact H1.
  eapply wp_mono; [|apply wp_gap_inv; [|exact H1]].
  2:{ eapply emits_weaken; [apply reconnect_event_no_transfer|].
      apply emits_release_and_close. }
  intros r w2 H2. exact (proj1 H2).
Qed.

Lemma release_events_no_read (h : Handle) (v : bool) :
  ~ In (EvNonstop v) (release_events h).
Proof.
  unfold release_events. destruct (h =? NULL)%nat; cbn [In];
    intuition discriminate.
Qed.

(** C7, as the code has it: once a read of the flag by the loop finds it
    0, the run makes no further transfer: what follows is at most one
    more read of the flag, which finds it 0, and the release of the two
    interfaces and the closing of the handle that the process holds at
    that moment; [send_packets] returns, with every handle closed and
    every interface released. While the loop is sending, a read of the
    flag and the next one are at most one frame cycle apart, whatever
    remains of the stream: what lies between them, when there is a
    transfer among it, takes no longer than the transfer of the header
    and the transfer of the data packet, each with its timeout, and the
    pause of 20 ms; that is two timeouts and the pause, not one. *)
Theorem stop_observed_then_shutdown (fuel : nat) (handle : Handle)
    (data_arr : list byte_t) (pck_cnt verbose : Z) (e : Env) :
  let run := send_packets fuel handle data_arr pck_cnt verbose
                          (init_world e) in
  (forall before after : list Event,
     history (snd run) = before ++ EvNonstop false :: after ->
     fst run = Ret tt /\
     Forall (fun ev => is_transfer ev = false) after /\
     (exists cur,
        held (connection handle) (rev before) = connection cur /\
        (after = release_events cur \/
         after = EvNonstop false :: release_events cur)) /\
     held (connection handle) (trace (snd run)) = []) /\
  (forall (before between after : list Event) (v v' : bool),
     history (snd run)
     = before ++ EvNonstop v :: between ++ EvNonstop v' :: after ->
     Forall (fun ev => is_read ev = false) between ->
     existsb is_transfer between = true ->
     total_blocking_time between <= 2 * (1000 * TIMEOUT) + 1000 * 20).
Proof.
  intros run. split.
  - intros before after Hocc.
    pose proof (send_packets_history fuel handle data_arr pck_cnt verbose e)
      as Hh.
    pose proof (send_packets_held fuel handle data_arr pck_cnt verbose e)
      as Hr.
    unfold wp in Hr. cbv zeta in Hh. fold run in Hh, Hr.
    assert (Hin : In (EvNonstop false) (trace (snd run))).
    { apply in_rev. fold (history (snd run)). rewrite Hocc.
      apply in_or_app. right. left. reflexivity. }
    destruct (fst run) as [[]| |c|]; try (exfalso; exact (Hh Hin)).
    destruct Hh as (cur & tr & rest & Hhist & Hs & Hht & Hc).
    assert (Hrest : Forall shutdown_event rest).
    { destruct Hc as [[-> _]|[-> _]];
        [|constructor; [exact I|]]; apply shutdown_release_events. }
    rewrite Hhist in Hocc.
    destruct (first_occurrence _ _ _ _ _ Hocc (no_stop_rev _ Hs))
      as [[Hb <-]|(m & Hb & Hm)].
    + split; [reflexivity|].
      split; [apply shutdown_no_transfer, Hrest|].
      split; [|exact Hr].
      exists cur. rewrite <- Hb, rev_involutive. split; [exact Hht|].
      destruct Hc as [[-> _]|[-> _]]; auto.
    + assert (Hafter : Forall shutdown_event after).
      { rewrite Hm in Hrest. apply Forall_app in Hrest.
        destruct Hrest as [_ Hrest]. inversion Hrest; assumption. }
      split; [reflexivity|].
      split; [apply shutdown_no_transfer, Hafter|].
      split; [|exact Hr].
      exists cur.
      assert (Hm0 : m = [] /\ after = release_events cur).
      { destruct Hc as [[-> _]|[-> _]].
        - exfalso. apply (release_events_no_read cur false). rewrite Hm.
          apply in_or_app. right. left. reflexivity.
        - destruct m as [|x m']; cbn [app] in Hm.
          + injection Hm as <-. auto.
          + exfalso. injection Hm as _ Hm.
            apply (release_events_no_read cur false). rewrite Hm.
            apply in_or_app. right. left. reflexivity. }
      destruct Hm0 as [-> ->]. rewrite Hb, rev_app_distr, rev_involutive.
      cbn [rev app held]. auto.
  - intros before between after v v' Hocc Hb Ht.
    change (2 * (1000 * TIMEOUT) + 1000 * 20) with frame_cycle_time.
    apply (prompt_gap (trace (snd run)) before between after v v');
      [apply send_packets_prompt | exact Hocc | exact Hb | exact Ht].
Qed.

(** C10: when the read of the flag that examines a failed transfer finds
    the flag 0, nothing of the reconnection happens: the run goes on with
    the test of the loop, which finds the flag 0 again, the release of
    interfaces 0 and 1 and the closing of the handle of the failed
    transfer, and [send_packets] returns. A read of the flag comes right
    after a transfer only when the transfer failed. *)
Theorem failure_with_flag_cleared_skips_reconnect (fuel : nat)
    (handle : Handle) (data_arr : list byte_t) (pck_cnt verbose : Z)
    (e : Env) (before after : list Event) (k : FrameKind) (h : Handle)
    (pos : Z) (pk : list byte_t) (r : Z) :
  let run := send_packets fuel handle data_arr pck_cnt verbose
                          (init_world e) in
  history (snd run)
    = before ++ EvTransfer k h pos pk r :: EvNonstop false :: after ->
  (to_short r =? PACKET_SIZE) = false /\
  after = EvNonstop false :: release_events h /\
  fst run = Ret tt.
Proof.
  intros run Hocc.
  pose proof (send_packets_history fuel handle data_arr pck_cnt verbose e)
    as Hh.
  cbv zeta in Hh. fold run in Hh.
  assert (Hin : In (EvNonstop false) (trace (snd run))).
  { apply in_rev. fold (history (snd run)). rewrite Hocc.
    apply in_or_app. right. right. left. reflexivity. }
  destruct (fst run) as [[]| |c|]; try (exfalso; exact (Hh Hin)).
  destruct Hh as (cur & tr & rest & Hhist & Hs & _ & Hc).
  assert (Hrest : Forall shutdown_event rest).
  { destruct Hc as [[-> _]|[-> _]];
      [|constructor; [exact I|]]; apply shutdown_release_events. }
  rewrite Hhist in Hocc.
  change (before ++ EvTransfer k h pos pk r :: EvNonstop false :: after)
    with (before ++ [EvTransfer k h pos pk r] ++ EvNonstop false :: after)
    in Hocc.
  rewrite app_assoc in Hocc.
  destruct (first_occurrence _ _ _ _ _ Hocc (no_stop_rev _ Hs))
    as [[Htr <-]|(m & Hb & Hm)].
  - assert (Ht : tr = EvTransfer k h pos pk r :: rev before).
    { rewrite <- (rev_involutive tr), Htr, rev_app_distr. reflexivity. }
    subst tr.
    destruct Hc as [[_ []]|[-> [[]|Hf]]].
    destruct Hf as (k' & p' & pk' & r' & older & Heq & Hfail).
    inversion Heq; subst. auto.
  - exfalso.
    assert (Hbad : In (EvTransfer k h pos pk r) m).
    { destruct (rev m) as [|y rm] eqn:Er.
      - apply (f_equal (@rev _)) in Er. rewrite rev_involutive in Er.
        subst m. apply app_inj_tail in Hb. destruct Hb as [_ Hb].
        discriminate Hb.
      - apply (f_equal (@rev _)) in Er. rewrite rev_involutive in Er.
        simpl in Er. subst m.
        change (rev tr ++ EvNonstop false :: rev rm ++ [y])
          with (rev tr ++ (EvNonstop false :: rev rm) ++ [y]) in Hb.
        rewrite app_assoc in Hb. apply app_inj_tail in Hb.
        destruct Hb as [_ <-]. apply in_or_app. right. left. reflexivity. }
    rewrite Hm in Hrest. apply Forall_app in Hrest.
    destruct Hrest as [Hrest _]. rewrite Forall_forall in Hrest.
    exact (Hrest _ Hbad).
Qed.

(** ** The reconnection *)

Lemma never_exits_ret {A} (a : A) : never_exits (ret a).
Proof. intros w. exact I. Qed.

Lemma never_exits_timeout {A} : never_exits (@timeout A).
Proof. intros w. exact I. Qed.

Lemma never_exits_bind {A B} (m : M A) (f : A -> M B) :
  never_exits m -> (forall a, never_exits (f a)) -> never_exits (bind m f).
Proof.
  intros Hm Hf w. unfold bind. specialize (Hm w).
  destruct (m w) as [[a| |c'|] w']; cbn [fst] in *;
    [apply Hf | exact I | contradiction | contradiction].
Qed.

Lemma never_exits_wp {A} (m : M A) (w : World) :
  never_exits m ->
  wp m (fun r _ => match r with
                   | Exited _ | Undefined => False
                   | _ => True
                   end) w.
Proof. intros H. exact (H w). Qed.

Ltac never_exits_step :=
  match goal with
  | |- never_exits (bind _ _) => apply never_exits_bind; [|intros ?]
  | |- never_exits (ret _) => apply never_exits_ret
  | |- never_exits timeout => apply never_exits_timeout
  | |- never_exits (if ?b then _ else _) => destruct b
  | |- never_exits (match ?x with _ => _ end) => destruct x
  | |- never_exits _ => solve [intros ?; cbn; exact I]
  end.

Ltac never_exits_auto := repeat never_exits_step.

Lemma never_exits_dev_search (devs : list libusb_device) (cnt : Z) :
  never_exits (dev_search devs cnt).
Proof.
  unfold dev_search.
  induction (firstn (Z.to_nat cnt) devs) as [|dev rest IH]; simpl;
    never_exits_auto. exact IH.
Qed.

Lemma never_exits_claim_loop (fuel : nat) h retry e0 e1 :
  never_exits (claim_loop fuel h retry e0 e1).
Proof.
  revert retry e0 e1.
  induction fuel as [|fuel IH]; intros retry e0 e1; simpl;
    never_exits_auto. apply IH.
Qed.

Lemma never_exits_claim_dev_interface h :
  never_exits (claim_dev_interface h).
Proof.
  unfold claim_dev_interface.
  apply never_exits_bind; [never_exits_auto|intros _].
  apply never_exits_bind; [apply never_exits_claim_loop|intros [c [e0 e1]]].
  never_exits_auto.
Qed.

Lemma never_exits_reopen_loop (fuel : nat) dev retry h l :
  never_exits (reopen_loop fuel dev retry h (Listed l)).
Proof.
  revert retry h.
  induction fuel as [|fuel IH]; intros retry h; simpl.
  - never_exits_auto.
  - destruct (retry <? 3); [|never_exits_auto].
    apply never_exits_bind; [never_exits_auto|intros [errcode h']].
    apply never_exits_bind.
    + destruct (errcode =? 0); [|never_exits_auto].
      apply never_exits_bind; [apply never_exits_claim_dev_interface|].
      intros c. never_exits_auto.
    + intros [h2|h2]; [never_exits_auto|].
      apply never_exits_bind; [never_exits_auto|intros _; apply IH].
Qed.

Lemma never_exits_attempt_reconnect : never_exits attempt_reconnect.
Proof.
  intros w. as_wp attempt_reconnect w.
  unfold attempt_reconnect. wp_step.
  destruct (device_list (env w) (listings w)) as [cnt l]. cbn [fst snd].
  destruct (cnt <? 0); [exact I|].
  apply never_exits_wp.
  apply never_exits_bind; [apply never_exits_dev_search|].
  intros [dev|]; [|never_exits_auto].
  apply never_exits_bind; [apply never_exits_reopen_loop|].
  intros [h|]; never_exits_auto.
Qed.

(** The reconnection loop ends only with a handle or with the flag at 0;
    it never ends the process. *)
Lemma reconnect_loop_exit (fuel : nat) (h : Handle) (attempts : Z)
    (w : World) :
  wp (reconnect_loop fuel h attempts)
     (fun r w' =>
        match r with
        | Ret (h', _) => h' <> NULL \/ nonstop w' = false
        | Timeout => True
        | Exited _ | Undefined => False
        end) w.
Proof.
  revert h attempts w.
  induction fuel as [|fuel IH]; intros h attempts w; cbn [reconnect_loop];
    wp_step;
    (destruct (nonstop w && negb (signal_at (env w) (reads w)));
     cbn [andb]; [|right; reflexivity]);
    (destruct (h =? NULL)%nat eqn:Eh;
     [|left; intros ->; discriminate Eh]); [exact I|].
  apply wp_bind. unfold wp at 1.
  pose proof (never_exits_attempt_reconnect
    (mkWorld (env w) true (S (reads w)) (transfers w) (listings w)
             (opens w) (claims w) (EvNonstop true :: trace w) (process w)))
    as Hne.
  destruct (attempt_reconnect _) as [[h'| |c|] w1]; cbn [fst snd] in *;
    try contradiction; [|exact I].
  destruct (negb (h' =? NULL)%nat); [apply IH|]. wp_step. apply IH.
Qed.

Lemma repeat_app_cons {A} (x : A) (n : nat) (l : list A) :
  repeat x n ++ x :: l = x :: repeat x n ++ l.
Proof.
  induction n as [|n IH]; simpl; [reflexivity|]. rewrite IH. reflexivity.
Qed.

Lemma rev_repeat_same {A} (x : A) (n : nat) : rev (repeat x n) = repeat x n.
Proof.
  induction n as [|n IH]; simpl; [reflexivity|].
  rewrite IH, repeat_app_cons, app_nil_r. reflexivity.
Qed.

Lemma dev_search_loop_absent (devs : list libusb_device) (w : World) :
  Forall (fun d => is_compatible_mic d = 0) devs ->
  wp (dev_search_loop devs)
     (fun r w' =>
        r = Ret None /\ env w' = env w /\ nonstop w' = nonstop w /\
        listings w' = listings w /\
        trace w' = repeat (EvUsleep 10000) (length devs) ++ trace w) w.
Proof.
  intros H. revert w.
  induction H as [|dev rest Hd _ IH]; intros w; cbn [dev_search_loop].
  - wp_prim. auto.
  - wp_step. rewrite Hd. cbn [Z.eqb negb].
    eapply wp_mono; [|apply IH].
    intros r w' (-> & He & Hn & Hl & Ht). repeat split; auto.
    rewrite Ht. cbn [trace length repeat]. apply repeat_app_cons.
Qed.

Lemma attempt_reconnect_absent (w : World) :
  absent (env w) (listings w) ->
  wp attempt_reconnect
     (fun r w' =>
        r = Ret NULL /\ env w' = env w /\ nonstop w' = nonstop w /\
        listings w' = S (listings w) /\
        history w' = history w
                     ++ absent_attempt_events (env w) (listings w)) w.
Proof.
  unfold absent, absent_attempt_events, attempt_reconnect. intros H.
  wp_step. destruct (device_list (env w) (listings w)) as [cnt devs].
  cbn [fst snd] in *.
  destruct (Z.ltb_spec cnt 0) as [Hneg|Hpos].
  - wp_prim. unfold history. cbn [trace rev]. auto.
  - destruct H as [H|H]; [lia|].
    apply wp_bind. unfold dev_search.
    eapply wp_mono; [|apply dev_search_loop_absent, H].
    intros r w' (-> & He & Hn & Hl & Ht).
    wp_step. wp_prim. repeat split; auto.
    unfold history. cbn [trace rev]. rewrite Ht, rev_app_distr.
    cbn [trace rev]. rewrite rev_repeat_same.
    rewrite <- !app_assoc. reflexivity.
Qed.

Lemma reconnect_loop_absent (n : nat) (attempts : Z) (w : World) :
  nonstop w = true ->
  (forall i, signal_at (env w) i = false) ->
  (forall i, (listings w <= i)%nat -> absent (env w) i) ->
  wp (reconnect_loop n NULL attempts)
     (fun r w' =>
        r = Timeout /\
        history w' = history w ++ retry_events (env w) (listings w) n) w.
Proof.
  revert attempts w.
  induction n as [|n IH]; intros attempts w Hn Hsig Habs;
    cbn [reconnect_loop]; wp_step; rewrite Hn, Hsig;
    cbn [andb negb Nat.eqb NULL].
  - wp_prim. split; reflexivity.
  - apply wp_bind.
    eapply wp_mono; [|apply attempt_reconnect_absent, Habs, le_n].
    intros r w1 (-> & He & Hn1 & Hl & Hh). cbn [Nat.eqb NULL negb].
    wp_step.
    eapply wp_mono; [|apply IH].
    + intros r w2 (-> & Hh2). split; [reflexivity|].
      rewrite Hh2. cbn [env listings]. rewrite He, Hl.
      unfold history in *. cbn [trace rev] in *. rewrite Hh.
      cbn [env listings trace rev retry_events].
      rewrite <- !app_assoc. reflexivity.
    + cbn [nonstop]. rewrite Hn1. reflexivity.
    + cbn [env]. rewrite He. exact Hsig.
    + cbn [env listings]. rewrite He, Hl. cbn [listings].
      intros i Hi. apply Habs. lia.
Qed.

(** C9: after a transfer failure, while the device does not reappear and
    no signal comes, the reconnection goes on for ever: whatever the
    number [n], after [n] attempts it is still running. The device may
    have been there before: it is from the enumerations of the
    reconnection on that it does not show. The reconnection waits one
    second before the first attempt and two seconds after each failed
    one. In any run the reconnection loop ends only with a new handle or
    with the flag at 0, and it never ends the process. *)
Theorem reconnection_retries_forever (n : nat) (h : Handle) (attempts : Z)
    (w : World) :
  nonstop w = true ->
  (forall i, signal_at (env w) i = false) ->
  (forall i, (listings w <= i)%nat -> absent (env w) i) ->
  (let run := reconnection n h attempts w in
   fst run = Timeout /\
   history (snd run)
   = history w ++ release_events h
     ++ EvUsleep 1000000 :: retry_events (env w) (listings w) n) /\
  (forall fuel h0 w0,
     let run := reconnection fuel h0 attempts w0 in
     match fst run with
     | Ret (h', _) => h' <> NULL \/ nonstop (snd run) = false
     | Timeout => True
     | Exited _ | Undefined => False
     end).
Proof.
  intros Hn Hsig Habs. split.
  - change (wp (reconnection n h attempts)
              (fun r w' =>
                 r = Timeout /\
                 history w'
                 = history w ++ release_events h
                   ++ EvUsleep 1000000 :: retry_events (env w) (listings w) n)
              w).
    unfold reconnection, release_and_close, release_events.
    destruct (h =? NULL)%nat; cbn [negb].
    + wp_step. wp_step.
      eapply wp_mono; [|apply reconnect_loop_absent; assumption].
      intros r w' (-> & Hh). split; [reflexivity|]. rewrite Hh.
      unfold history. cbn [trace rev env listings].
      rewrite <- !app_assoc. reflexivity.
    + apply wp_bind. wp_step. wp_step. wp_prim. wp_step.
      eapply wp_mono; [|apply reconnect_loop_absent; assumption].
      intros r w' (-> & Hh). split; [reflexivity|]. rewrite Hh.
      unfold history. cbn [trace rev env listings].
      rewrite <- !app_assoc. reflexivity.
  - intros fuel h0 w0.
    change (wp (reconnection fuel h0 attempts)
              (fun r w' =>
                 match r with
                 | Ret (h', _) => h' <> NULL \/ nonstop w' = false
                 | Timeout => True
                 | Exited _ | Undefined => False
                 end) w0).
    unfold reconnection, release_and_close.
    destruct (h0 =? NULL)%nat; cbn [negb].
    + wp_step. wp_step. apply reconnect_loop_exit.
    + apply wp_bind. wp_step. wp_step. wp_prim. wp_step.
      apply reconnect_loop_exit.
Qed.

(** ** A stream that is exhausted *)

Section NoStop.

Hypothesis BYTE_STEP_pos : 0 < BYTE_STEP.

Lemma display_loop_complete (m : nat) :
  forall (fuel : nat) (h : Handle) (data : list byte_t) (command_cnt j : Z)
         (packet : list byte_t) (w : World),
    (m <= fuel)%nat -> m = Z.to_nat (command_cnt - j) ->
    nonstop w = true ->
    (forall i, signal_at (env w) i = false) ->
    (forall i, to_short (transfer_ret (env w) i) = PACKET_SIZE) ->
    wp (display_loop fuel h data (2 * BYTE_STEP * command_cnt)
                     (2 * BYTE_STEP * j) packet)
       (fun r w' =>
          r = Ret 0 /\ env w' = env w /\ nonstop w' = true /\
          map frame_of (transfer_log (trace w'))
          = rev (pass_frames j m) ++ map frame_of (transfer_log (trace w))) w.
Proof.
  induction m as [|m IH];
    intros fuel h data command_cnt j packet w Hfuel Hm Hn Hsig Hok.
  - assert (Hge : (2 * BYTE_STEP * j <? 2 * BYTE_STEP * command_cnt) = false).
    { apply Z.ltb_ge. apply Z.mul_le_mono_nonneg_l; lia. }
    destruct fuel; cbn [display_loop]; apply wp_bind; rewrite Hge; wp_prim;
      wp_prim; auto.
  - assert (Hlt : (2 * BYTE_STEP * j <? 2 * BYTE_STEP * command_cnt) = true).
    { apply Z.ltb_lt. apply Z.mul_lt_mono_pos_l; lia. }
    destruct fuel as [|fuel]; [lia|].
    cbn [display_loop]. apply wp_bind. rewrite Hlt. wp_prim.
    rewrite Hn, Hsig. cbn [andb negb].
    apply wp_bind. unfold send_display_command. wp_step. wp_prim.
    rewrite Hok. cbn [Z.eqb Pos.eqb PACKET_SIZE negb].
    wp_step. rewrite Hok. cbn [Z.eqb Pos.eqb PACKET_SIZE negb].
    wp_step.
    replace (2 * BYTE_STEP * j + 2 * BYTE_STEP) with (2 * BYTE_STEP * (j + 1))
      by lia.
    eapply wp_mono; [|apply (IH fuel)]; try assumption; try lia;
      try reflexivity.
    intros r w' (-> & He & Hn' & Ht). repeat split; auto.
    rewrite Ht. cbn [trace transfer_log map frame_of t_kind t_pos
                     pass_frames rev].
    rewrite <- !app_assoc. reflexivity.
Qed.

Lemma display_data_arr_complete (h : Handle) (data : list byte_t)
    (command_cnt : Z) (w : World) :
  nonstop w = true ->
  (forall i, signal_at (env w) i = false) ->
  (forall i, to_short (transfer_ret (env w) i) = PACKET_SIZE) ->
  wp (display_data_arr h data 0 (2 * BYTE_STEP * command_cnt))
     (fun r w' =>
        r = Ret 0 /\ env w' = env w /\ nonstop w' = true /\
        map frame_of (transfer_log (trace w'))
        = rev (pass_frames 0 (Z.to_nat command_cnt))
          ++ map frame_of (transfer_log (trace w))) w.
Proof.
  intros Hn Hsig Hok. unfold display_data_arr.
  replace 0 with (2 * BYTE_STEP * 0) at 2 by lia.
  apply (display_loop_complete (Z.to_nat command_cnt)); auto.
  - rewrite Z.sub_0_r.
    destruct (Z.le_gt_cases command_cnt 0) as [Hle|Hgt]; [lia|].
    assert (command_cnt <= 2 * BYTE_STEP * command_cnt) by nia. lia.
  - f_equal. lia.
Qed.

(** Without a signal and without a failed transfer the loop of
    [send_packets] sends the stream again and again: after [n] turns it
    has sent it [n] times and is still running. *)
Lemma send_loop_no_stop (n rfuel : nat) (data : list byte_t)
    (command_cnt : Z) (h : Handle) (attempts : Z) (w : World) :
  nonstop w = true ->
  (forall i, signal_at (env w) i = false) ->
  (forall i, to_short (transfer_ret (env w) i) = PACKET_SIZE) ->
  wp (send_loop n rfuel data command_cnt h attempts)
     (fun r w' =>
        r = Timeout /\
        map frame_of (transfer_log (trace w'))
        = rev (concat (repeat (pass_frames 0 (Z.to_nat command_cnt)) n))
          ++ map frame_of (transfer_log (trace w))) w.
Proof.
  revert w.
  induction n as [|n IH]; intros w Hn Hsig Hok; cbn [send_loop];
    wp_step; rewrite Hn, Hsig; cbn [andb negb].
  - wp_prim. auto.
  - apply wp_bind.
    eapply wp_mono;
      [|apply display_data_arr_complete; cbn [env nonstop]; auto].
    intros r w1 (-> & He & Hn1 & Ht). cbn [env] in He.
    cbn [Z.eqb negb]. wp_step.
    eapply wp_mono; [|apply IH].
    + intros r w2 (-> & Ht2). split; [reflexivity|].
      rewrite Ht2, Ht. cbn [trace transfer_log repeat concat].
      rewrite rev_app_distr, <- app_assoc. reflexivity.
    + exact Hn1.
    + rewrite He. exact Hsig.
    + rewrite He. exact Hok.
Qed.

Lemma send_packets_no_stop (n : nat) (handle : Handle)
    (data_arr : list byte_t) (pck_cnt verbose : Z) (e : Env) :
  (forall i, signal_at e i = false) ->
  (forall i, to_short (transfer_ret e i) = PACKET_SIZE) ->
  forks_away (startup e) = false ->
  let run := send_packets n handle data_arr pck_cnt verbose (init_world e) in
  fst run = Timeout /\
  map frame_of (transfers_sent (snd run))
  = concat (repeat (pass_frames 0
              (Z.to_nat (to_short (count_color_commands data_arr pck_cnt 0))))
              n).
Proof.
  intros Hsig Hok Hdaemon run. subst run.
  as_wp (send_packets n handle data_arr pck_cnt verbose) (init_world e).
  apply wp_send_packets; intros Hf.
  { cbn [init_world process] in Hf. congruence. }
  apply wp_bind.
  eapply wp_mono; [|apply send_loop_no_stop; auto].
  intros r w' (-> & Ht). split; [reflexivity|].
  unfold transfers_sent. rewrite map_rev, Ht.
  unfold started, start_events. cbn [trace init_world env].
  destruct (early_signal e); cbn [rev app transfer_log map];
    rewrite app_nil_r; apply rev_involutive.
Qed.

(** C2, as the code has it: when the stream is exhausted, no signal has
    come and no transfer has failed, [send_packets] does not stop: the
    pass ends and the loop starts the next pass at the start of the stream.
    In the process that goes on after [daemonize], with enough fuel for
    [n] turns of the loop, the run has sent the whole stream [n] times, a
    HeaderFrame and a DataFrame for each position in order, and it has
    not returned; the stream has [command_cnt] colour commands, where
    [command_cnt] is the [short] that holds the result of
    [count_color_commands]. A run of [send_packets] that returns has read
    the flag as 0. *)
Theorem exhausted_stream_is_sent_again (n : nat) (handle : Handle)
    (data_arr : list byte_t) (pck_cnt verbose : Z) (e : Env) :
  (forall i, signal_at e i = false) ->
  (forall i, to_short (transfer_ret e i) = PACKET_SIZE) ->
  forks_away (startup e) = false ->
  (let run := send_packets n handle data_arr pck_cnt verbose (init_world e) in
   fst run = Timeout /\
   map frame_of (transfers_sent (snd run))
   = concat (repeat (pass_frames 0
               (Z.to_nat
                  (to_short (count_color_commands data_arr pck_cnt 0)))) n))
  /\
  (forall fuel e',
     let run := send_packets fuel handle data_arr pck_cnt verbose
                             (init_world e') in
     fst run = Ret tt -> In (EvNonstop false) (history (snd run))).
Proof.
  intros Hsig Hok Hdaemon. split.
  - exact (send_packets_no_stop n handle data_arr pck_cnt verbose e Hsig Hok
             Hdaemon).
  - intros fuel e' run Hret.
    pose proof (send_packets_history fuel handle data_arr pck_cnt verbose e')
      as Hh.
    cbv zeta in Hh. fold run in Hh. rewrite Hret in Hh.
    destruct Hh as (cur & tr & rest & -> & _).
    apply in_or_app. right. left. reflexivity.
Qed.

End NoStop.

(** ** The fatal conditions of [open_micro] *)

Lemma dev_search_loop_find (devs : list libusb_device) (w : World) :
  wp (dev_search_loop devs)
     (fun r w' =>
        r = Ret (find compatible devs) /\ env w' = env w /\
        listings w' = listings w /\ opens w' = opens w /\
        claims w' = claims w /\ process w' = process w /\
        stderr_log (trace w') = stderr_log (trace w)) w.
Proof.
  revert w. induction devs as [|dev rest IH]; intros w;
    cbn [dev_search_loop find].
  - wp_prim. auto 7.
  - wp_step. unfold compatible at 1.
    destruct (negb (is_compatible_mic dev =? 0)).
    + wp_prim. auto 7.
    + eapply wp_mono; [|apply IH].
      intros r w' (-> & He & Hl & Ho & Hc & Hp & Hs). auto 7.
Qed.

(** The enumeration loop of [open_micro], with [n] turns to go, from a
    variable [devs] that points to no list: it returns the first supported
    device with the list that shows it, or no device once every list has
    been freed; a list that cannot be got leads to the freeing of a list
    that [devs] does not point to, after the message on the third
    attempt. *)
Lemma search_loop_result (n : nat) :
  forall (fuel : nat) (retry : Z) (w : World),
    (n <= fuel)%nat -> Z.of_nat n = 3 - retry ->
    wp (search_loop fuel retry NoList)
       (fun r w' =>
          env w' = env w /\ opens w' = opens w /\ claims w' = claims w /\
          process w' = process w /\
          match search_result (env w) n (listings w) with
          | Some (Some dev) =>
              (exists l, r = Ret (Some dev, Listed l)) /\
              stderr_log (trace w') = stderr_log (trace w)
          | Some None =>
              r = Ret (None, NoList) /\
              stderr_log (trace w') = stderr_log (trace w)
          | None =>
              r = Undefined /\
              (stderr_log (trace w') = stderr_log (trace w) \/
               stderr_log (trace w')
               = [Text DEVLIST_ERR_MSG] :: stderr_log (trace w))
          end) w.
Proof.
  induction n as [|n IH]; intros fuel retry w Hfuel Hn.
  - assert (Hr : (retry <? 3) = false) by (apply Z.ltb_ge; lia).
    destruct fuel; cbn [search_loop search_result]; rewrite Hr; wp_prim;
      auto 6.
  - assert (Hr : (retry <? 3) = true) by (apply Z.ltb_lt; lia).
    destruct fuel as [|fuel]; [lia|].
    cbn [search_loop search_result]. rewrite Hr. apply wp_bind.
    assert (Hw : wp (if 0 <? retry then usleep 500000 else ret tt)
                    (fun r w' =>
                       r = Ret tt /\ env w' = env w /\
                       listings w' = listings w /\ opens w' = opens w /\
                       claims w' = claims w /\ process w' = process w /\
                       stderr_log (trace w') = stderr_log (trace w)) w).
    { destruct (0 <? retry); wp_prim; auto 7. }
    eapply wp_mono; [|exact Hw].
    intros r w1 (-> & He & Hl & Ho & Hc & Hp & Hs).
    wp_step. rewrite He, Hl. unfold scan.
    destruct (device_list (env w) (listings w)) as [cnt devs].
    cbn [fst snd].
    destruct (cnt <? 0).
    + destruct (retry <? 2).
      * wp_step. auto 7.
      * wp_step. unfold FREE_AND_EXIT. wp_step.
        cbn [stderr_log]. rewrite Hs. auto 7.
    + cbn [devices]. apply wp_bind. unfold dev_search.
      eapply wp_mono; [|apply dev_search_loop_find].
      intros r w2 (-> & He2 & Hl2 & Ho2 & Hc2 & Hp2 & Hs2).
      cbn [env listings opens claims trace stderr_log process] in *.
      destruct (find compatible (firstn (Z.to_nat cnt) devs)) as [dev|].
      * wp_prim.
        rewrite ?He2, ?Ho2, ?Hc2, ?Hs2, ?Hp2, ?He, ?Ho, ?Hc, ?Hs, ?Hp.
        repeat split; eauto.
      * wp_step.
        eapply wp_mono; [|apply (IH fuel (retry + 1)); lia].
        cbn [env listings opens claims trace stderr_log process].
        rewrite ?He2, ?Hl2, ?Ho2, ?Hc2, ?Hs2, ?Hp2, ?He, ?Hl, ?Ho, ?Hc, ?Hs,
          ?Hp.
        auto.
Qed.

Lemma search_result_locate (e : Env) (n l : nat) (retry : Z)
    (dev : libusb_device) :
  search_result e n l = Some (Some dev) -> locate e n l retry = inr dev.
Proof.
  revert l retry. induction n as [|n IH]; intros l retry;
    cbn [search_result locate]; [discriminate|].
  destruct (scan e l) as [[d|]|]; [|apply IH|discriminate].
  intros H. injection H as ->. reflexivity.
Qed.

Lemma open_loop_attempts (n : nat) :
  forall (fuel : nat) (dev : libusb_device) (retry errcode : Z)
         (handle : Handle) (w : World),
    (n <= fuel)%nat -> Z.of_nat n = 3 - retry ->
    wp (open_loop fuel dev retry errcode handle)
       (fun r w' =>
          r = Ret (open_attempts (env w) n (opens w) errcode handle) /\
          env w' = env w /\ claims w' = claims w /\
          stderr_log (trace w') = stderr_log (trace w)) w.
Proof.
  induction n as [|n IH]; intros fuel dev retry errcode handle w Hfuel Hn.
  - assert (Hr : (retry <? 3) = false) by (apply Z.ltb_ge; lia).
    destruct fuel; cbn [open_loop open_attempts]; rewrite Hr; wp_prim; auto.
  - assert (Hr : (retry <? 3) = true) by (apply Z.ltb_lt; lia).
    destruct fuel as [|fuel]; [lia|].
    cbn [open_loop open_attempts]. rewrite Hr. apply wp_bind.
    assert (Hw : wp (if 0 <? retry then usleep 200000 else ret tt)
                    (fun r w' =>
                       r = Ret tt /\ env w' = env w /\ opens w' = opens w /\
                       claims w' = claims w /\
                       stderr_log (trace w') = stderr_log (trace w)) w).
    { destruct (0 <? retry); wp_prim; auto 6. }
    eapply wp_mono; [|exact Hw].
    intros r w1 (-> & He & Ho & Hc & Hs).
    wp_step. rewrite He, Ho.
    destruct (to_short (open_ret (env w) (opens w)) =? 0) eqn:E.
    + wp_prim. apply Z.eqb_eq in E. rewrite E. auto.
    + eapply wp_mono; [|apply (IH fuel dev (retry + 1)); lia].
      cbn [env opens claims trace stderr_log].
      rewrite ?He, ?Ho, ?Hc, ?Hs. auto.
Qed.

Lemma claim_loop_attempts (n : nat) :
  forall (fuel : nat) (h : Handle) (retry e0 e1 : Z) (w : World),
    (n <= fuel)%nat -> Z.of_nat n = 3 - retry ->
    wp (claim_loop fuel h retry e0 e1)
       (fun r w' =>
          r = Ret (claim_attempts (env w) n (claims w) e0 e1) /\
          env w' = env w /\
          stderr_log (trace w') = stderr_log (trace w)) w.
Proof.
  induction n as [|n IH]; intros fuel h retry e0 e1 w Hfuel Hn.
  - assert (Hr : (retry <? 3) = false) by (apply Z.ltb_ge; lia).
    destruct fuel; cbn [claim_loop claim_attempts]; rewrite Hr; wp_prim; auto.
  - assert (Hr : (retry <? 3) = true) by (apply Z.ltb_lt; lia).
    destruct fuel as [|fuel]; [lia|].
    cbn [claim_loop claim_attempts]. rewrite Hr. apply wp_bind.
    assert (Hw : wp (if 0 <? retry then usleep 100000 else ret tt)
                    (fun r w' =>
                       r = Ret tt /\ env w' = env w /\
                       claims w' = claims w /\
                       stderr_log (trace w') = stderr_log (trace w)) w).
    { destruct (0 <? retry); wp_prim; auto 6. }
    eapply wp_mono; [|exact Hw].
    intros r w1 (-> & He & Hc & Hs).
    wp_step. wp_step. rewrite He, Hc.
    set (c0 := claim_ret (env w) (claims w)).
    set (c1 := claim_ret (env w) (S (claims w))).
    destruct (c0 =? 0), (c1 =? 0); cbn [andb].
    1:{ wp_prim. auto. }
    all: wp_step; wp_step;
      (eapply wp_mono; [|apply (IH fuel h (retry + 1)); lia]);
      cbn [env claims trace stderr_log]; rewrite ?He, ?Hc, ?Hs; auto.
Qed.

Lemma claim_dev_interface_outcome (h : Handle) (w : World) :
  wp (claim_dev_interface h)
     (fun r w' =>
        env w' = env w /\
        let '(claimed, (e0, e1)) :=
          claim_attempts (env w) 3 (claims w) 0 0 in
        if (claimed : bool) then
          r = Ret 0 /\ stderr_log (trace w') = stderr_log (trace w)
        else
          r = Ret 1 /\
          stderr_log (trace w')
          = fatal_message (claim_failure e0 e1) ++ stderr_log (trace w)) w.
Proof.
  unfold claim_dev_interface. wp_step. apply wp_bind.
  eapply wp_mono; [|apply (claim_loop_attempts 3); [lia | reflexivity]].
  cbn [env claims trace stderr_log].
  intros r w1 (-> & He & Hs).
  destruct (claim_attempts (env w) 3 (claims w) 0 0) as [claimed [e0 e1]].
  destruct claimed; [wp_prim; auto|].
  unfold claim_failure.
  destruct ((e0 =? LIBUSB_ERROR_BUSY) || (e1 =? LIBUSB_ERROR_BUSY)).
  { wp_step. wp_prim. cbn [stderr_log fatal_message app]. rewrite Hs. auto. }
  destruct ((e0 =? LIBUSB_ERROR_NO_DEVICE) || (e1 =? LIBUSB_ERROR_NO_DEVICE)).
  { wp_step. wp_prim. cbn [stderr_log fatal_message app]. rewrite Hs. auto. }
  wp_prim. auto.
Qed.

(** What [open_micro] does in each outside world. Where it frees a list
    that [devs] does not point to, its behaviour is undefined from there.
    Everywhere else: on a fatal condition the process exits with
    [libusberr] after the message of that condition, none for
    [ClaimOther]; else [open_micro] returns a handle and has written
    nothing. It never runs out of fuel. *)
Lemma open_micro_outcome (e : Env) :
  let run := open_micro (init_world e) in
  if invalid_free e then fst run = Undefined
  else
    match fatal_condition e with
    | Some f =>
        fst run = Exited libusberr /\
        stderr_output (snd run) = fatal_message f
    | None =>
        (exists handle, fst run = Ret handle) /\ stderr_output (snd run) = []
    end.
Proof.
  intros run. subst run.
  as_wp open_micro (init_world e).
  unfold open_micro, fatal_condition, invalid_free, init_world. wp_step.
  destruct (to_short (init_ret e) =? 0) eqn:Einit; cbn [negb andb].
  2:{ wp_step. wp_step. wp_prim. auto. }
  apply wp_bind.
  eapply wp_mono; [|apply (search_loop_result 3); [lia | reflexivity]].
  cbn [env opens claims listings trace stderr_log process].
  intros r w1 (He & Ho & Hc & Hp & Hl).
  destruct (search_result e 3 0) as [[dev|]|] eqn:El.
  2:{ destruct Hl as [-> Hs]. wp_step. unfold FREE_AND_EXIT. wp_step.
      reflexivity. }
  2:{ destruct Hl as [-> _]. reflexivity. }
  rewrite (search_result_locate _ _ _ 0 _ El).
  destruct Hl as [[l ->] Hs]. apply wp_bind.
  eapply wp_mono; [|apply (open_loop_attempts 3); [lia | reflexivity]].
  rewrite ?He, ?Ho.
  intros r w2 (-> & He2 & Hc2 & Hs2). rewrite ?He, ?Ho, ?Hc, ?Hs in *.
  destruct (open_attempts e 3 0 (to_short (init_ret e)) NULL)
    as [errcode handle].
  destruct (negb (errcode =? 0)).
  { wp_step. unfold FREE_AND_EXIT. do 3 wp_step. wp_prim.
    unfold stderr_output. cbn [trace stderr_log]. rewrite ?Hs2, ?Hs. auto. }
  apply wp_bind.
  eapply wp_mono; [|apply claim_dev_interface_outcome].
  rewrite ?He2, ?Hc2, ?Hs2.
  intros r w3 [He3 H3].
  destruct (claim_attempts e 3 0 0 0) as [claimed [e0 e1]].
  destruct claimed; destruct H3 as [-> Hs3].
  - cbn [to_short Z.modulo Z.eqb negb]. wp_step. wp_prim.
    unfold stderr_output. cbn [trace stderr_log]. rewrite ?Hs3, ?Hs2, ?Hs.
    split; [eexists; reflexivity | reflexivity].
  - change (negb (to_short 1 =? 0)) with true. cbn iota.
    wp_step. unfold FREE_AND_EXIT. do 3 wp_step. wp_prim.
    unfold stderr_output. cbn [trace stderr_log]. rewrite ?Hs3, ?Hs2, ?Hs.
    rewrite ?app_nil_r. split; [reflexivity|].
    destruct (claim_failure e0 e1); reflexivity.
Qed.

(** Where no list is freed that [devs] does not point to, the list could
    be got and showed the device: the failure to get the list and the
    missing device are not among the fatal conditions met. *)
Lemma valid_frees_locate (e : Env) (f : Fatal) :
  invalid_free e = false -> fatal_condition e = Some f ->
  f <> DeviceListFailure /\ f <> NoDevice.
Proof.
  unfold invalid_free, fatal_condition.
  destruct (to_short (init_ret e) =? 0); cbn [negb andb].
  2:{ intros _ [= <-]. split; discriminate. }
  destruct (search_result e 3 0) as [[dev|]|] eqn:El; try discriminate.
  intros _. rewrite (search_result_locate _ _ _ 0 _ El).
  destruct (open_attempts e 3 0 _ NULL) as [errcode handle].
  destruct (negb (errcode =? 0)); [intros [= <-]; split; discriminate|].
  destruct (claim_attempts e 3 0 0 0) as [claimed [e0 e1]].
  destruct claimed; [discriminate|]. intros [= <-]. unfold claim_failure.
  destruct ((e0 =? LIBUSB_ERROR_BUSY) || (e1 =? LIBUSB_ERROR_BUSY));
    [split; discriminate|].
  destruct ((e0 =? LIBUSB_ERROR_NO_DEVICE) || (e1 =? LIBUSB_ERROR_NO_DEVICE));
    split; discriminate.
Qed.

(** C3, as the code has it: the fatal conditions of [open_micro] that it
    leaves by [exit] without having freed a list that it does not hold
    are the failure of [libusb_init], the failure to open the device and
    the failure to claim the interfaces. Each of them ends the process
    with an exit code that is not 0. The message of the condition is
    written on stderr first; each has one, but the failure to claim the
    interfaces for a reason other than busy or gone, which writes
    nothing. The busy and the gone failures write different messages, and
    the gone failure writes the text of the open failure. *)
Theorem fatal_conditions_end_the_process (e : Env) (f : Fatal) :
  fatal_condition e = Some f ->
  invalid_free e = false ->
  let run := open_micro (init_world e) in
  (exists code, fst run = Exited code /\ code <> 0) /\
  stderr_output (snd run) = fatal_message f /\
  (f <> ClaimOther -> stderr_output (snd run) <> []) /\
  (f = ClaimOther -> stderr_output (snd run) = []) /\
  fatal_message ClaimBusy <> fatal_message ClaimGone /\
  fatal_message ClaimGone = [[Text OPEN_ERR_MSG]] /\
  f <> DeviceListFailure /\ f <> NoDevice.
Proof.
  intros Hf Hv run. pose proof (open_micro_outcome e) as H.
  cbv zeta in H. fold run in H. rewrite Hv, Hf in H. destruct H as [Hr Hs].
  split; [exists libusberr; split; [exact Hr | discriminate]|].
  split; [exact Hs|].
  rewrite Hs. split; [|split; [|split; [|split]]].
  - destruct f; try discriminate. congruence.
  - intros ->. reflexivity.
  - discriminate.
  - reflexivity.
  - exact (valid_frees_locate e f Hv Hf).
Qed.

(** ** A signal ends [send_packets] *)

Lemma never_times_out_ret {A} (a : A) : never_times_out (ret a).
Proof. intros w. discriminate. Qed.

Lemma never_times_out_bind {A B} (m : M A) (f : A -> M B) :
  never_times_out m -> (forall a, never_times_out (f a)) ->
  never_times_out (bind m f).
Proof.
  intros Hm Hf w. unfold bind. specialize (Hm w).
  destruct (m w) as [[a| |c|] w']; simpl in *.
  - apply Hf.
  - exfalso. apply Hm. reflexivity.
  - discriminate.
  - discriminate.
Qed.

Ltac never_times_out_step :=
  match goal with
  | |- never_times_out (bind _ _) => apply never_times_out_bind; [|intros ?]
  | |- never_times_out (ret _) => apply never_times_out_ret
  | |- never_times_out (if ?b then _ else _) => destruct b
  | |- never_times_out (match ?x with _ => _ end) => destruct x
  | |- never_times_out (libusb_free_device_list ?d) => is_var d; destruct d
  | |- never_times_out _ => solve [intros ?; cbn; discriminate]
  end.

Ltac never_times_out_auto := repeat never_times_out_step.

Lemma never_times_out_dev_search (devs : list libusb_device) (cnt : Z) :
  never_times_out (dev_search devs cnt).
Proof.
  unfold dev_search.
  induction (firstn (Z.to_nat cnt) devs) as [|dev rest IH]; simpl;
    never_times_out_auto. exact IH.
Qed.

Lemma never_times_out_claim_loop (fuel : nat) h retry e0 e1 :
  3 <= retry + Z.of_nat fuel ->
  never_times_out (claim_loop fuel h retry e0 e1).
Proof.
  revert retry e0 e1.
  induction fuel as [|fuel IH]; intros retry e0 e1 H; cbn [claim_loop];
    destruct (Z.ltb_spec retry 3); try lia; never_times_out_auto.
  apply IH. lia.
Qed.

Lemma never_times_out_claim_dev_interface h :
  never_times_out (claim_dev_interface h).
Proof.
  unfold claim_dev_interface.
  apply never_times_out_bind; [never_times_out_auto|intros _].
  apply never_times_out_bind;
    [apply never_times_out_claim_loop; simpl; lia|intros [c [e0 e1]]].
  never_times_out_auto.
Qed.

Lemma never_times_out_reopen_loop (fuel : nat) dev retry h devs :
  3 <= retry + Z.of_nat fuel ->
  never_times_out (reopen_loop fuel dev retry h devs).
Proof.
  revert retry h.
  induction fuel as [|fuel IH]; intros retry h H; cbn [reopen_loop];
    destruct (Z.ltb_spec retry 3); try lia;
    try solve [never_times_out_auto].
  apply never_times_out_bind; [never_times_out_auto|intros [errcode h']].
  apply never_times_out_bind.
  - destruct (errcode =? 0); [|never_times_out_auto].
    apply never_times_out_bind; [apply never_times_out_claim_dev_interface|].
    intros c. never_times_out_auto.
  - intros [h2|h2]; [never_times_out_auto|].
    apply never_times_out_bind; [never_times_out_auto|intros _].
    apply IH. lia.
Qed.

Lemma never_times_out_attempt_reconnect : never_times_out attempt_reconnect.
Proof.
  unfold attempt_reconnect.
  apply never_times_out_bind; [never_times_out_auto|intros [cnt devs]].
  destruct (cnt <? 0); [never_times_out_auto|].
  apply never_times_out_bind; [apply never_times_out_dev_search|].
  intros [dev|]; [|never_times_out_auto].
  apply never_times_out_bind;
    [apply never_times_out_reopen_loop; simpl; lia|].
  intros [h|]; never_times_out_auto.
Qed.

Lemma later_refl (w : World) : later w w.
Proof.
  split; [reflexivity|]. split; [lia|]. split; [auto|]. congruence.
Qed.

Lemma later_trans (w1 w2 w3 : World) : later w1 w2 -> later w2 w3 -> later w1 w3.
Proof.
  intros (E1 & R1 & F1 & S1) (E2 & R2 & F2 & S2).
  split; [congruence|]. split; [lia|]. split; [auto|].
  intros H1 H3. destruct (nonstop w2) eqn:N2.
  - rewrite <- E1. apply S2; auto.
  - apply S1; auto.
Qed.

Lemma later_quiet (w w' : World) :
  env w' = env w -> nonstop w' = nonstop w -> reads w' = reads w ->
  later w w'.
Proof.
  intros He Hn Hr. split; [exact He|]. split; [lia|]. split; [|congruence].
  unfold flag_ok, signal_free. rewrite He, Hn, Hr. auto.
Qed.

Lemma later_extends (w w' : World) :
  extends reconnect_event w w' -> later w w'.
Proof.
  intros H. apply later_quiet.
  - apply H.
  - apply (extends_nonstop _ _ H).
  - apply (extends_reads _ _ H).
Qed.

(** After a read of the flag. *)
Lemma later_read (w : World) :
  later w (snd (read_nonstop w))
  /\ (fst (read_nonstop w) = Ret true ->
      nonstop (snd (read_nonstop w)) = true)
  /\ reads (snd (read_nonstop w)) = S (reads w).
Proof.
  unfold read_nonstop. cbn [fst snd nonstop reads env].
  split; [|split; [intros H; inversion H; reflexivity | reflexivity]].
  split; [reflexivity|]. split; [cbn [reads]; lia|]. split.
  - unfold flag_ok, signal_free. cbn [env reads nonstop].
    intros Hok Hv i Hi.
    apply andb_true_iff in Hv. destruct Hv as [Hn Hsig].
    apply negb_true_iff in Hsig.
    destruct (Nat.eq_dec i (reads w)) as [->|Hne]; [exact Hsig|].
    apply Hok; [exact Hn | lia].
  - cbn [nonstop]. intros -> H. cbn [andb] in H.
    apply negb_false_iff in H. eauto.
Qed.

Lemma wp_total {A} (m : M A) (Q : Res A -> World -> Prop) (w : World) :
  emits reconnect_event m -> never_exits m -> never_times_out m ->
  (forall a w', later w w' -> nonstop w' = nonstop w -> Q (Ret a) w') ->
  wp m Q w.
Proof.
  intros He Hx Ht HQ. unfold wp.
  specialize (He w). specialize (Hx w). specialize (Ht w).
  destruct (m w) as [[a| |c|] w']; cbn [fst snd] in *;
    try contradiction.
  apply HQ; [apply later_extends, He | apply (extends_nonstop _ _ He)].
Qed.

(** A function that neither ends the process nor runs out of fuel
    returns. *)
Lemma wp_returns {A} (P : Event -> Prop) (m : M A)
    (Q : Res A -> World -> Prop) (w : World) :
  emits P m -> never_exits m -> never_times_out m ->
  (forall a w', extends P w w' -> Q (Ret a) w') -> wp m Q w.
Proof.
  intros He Hx Ht HQ. unfold wp. specialize (He w).
  specialize (Hx w). specialize (Ht w).
  destruct (m w) as [[a| |c|] w']; cbn [fst snd] in *.
  - apply HQ, He.
  - exfalso. apply Ht. reflexivity.
  - destruct Hx.
  - destruct Hx.
Qed.

Lemma never_exits_release_and_close h : never_exits (release_and_close h).
Proof. unfold release_and_close. never_exits_auto. Qed.

Lemma never_times_out_release_and_close h :
  never_times_out (release_and_close h).
Proof. unfold release_and_close. never_times_out_auto. Qed.

Lemma reconnect_loop_progress (rfuel : nat) (h : Handle) (attempts : Z)
    (w : World) :
  wp (reconnect_loop rfuel h attempts)
     (fun r w' => later w w' /\ loop_progress w rfuel r w') w.
Proof.
  revert h attempts w.
  induction rfuel as [|rfuel IH]; intros h attempts w;
    cbn [reconnect_loop]; apply wp_bind; unfold wp at 1;
    destruct (later_read w) as (Hl & Hv & Hr);
    destruct (read_nonstop w) as [[go| |c|] w1] eqn:Eread;
    try discriminate Eread; cbn [fst snd] in *;
    (destruct go; cbn [andb]; [|unfold wp, ret; cbn [fst snd]; split; [exact Hl | exact I]]);
    (destruct (h =? NULL)%nat; [|unfold wp, ret; cbn [fst snd]; split; [exact Hl | exact I]]).
  - unfold wp, timeout. cbn [fst snd loop_progress]. split; [exact Hl|].
    split; [auto | lia].
  - specialize (Hv eq_refl). apply wp_bind.
    apply wp_total;
      [apply emits_attempt_reconnect | apply never_exits_attempt_reconnect
      | apply never_times_out_attempt_reconnect |].
    intros h' w2 Hl2 Hn2.
    assert (Hstep : forall h2 attempts2 w3,
               later w2 w3 ->
               wp (reconnect_loop rfuel h2 attempts2)
                  (fun r w' => later w w' /\ loop_progress w (S rfuel) r w')
                  w3).
    { intros h2 attempts2 w3 Hl3.
      eapply wp_mono; [|apply IH].
      intros r w' [Hl' Hp].
      assert (Hall : later w w').
      { eapply later_trans; [exact Hl|]. eapply later_trans; [exact Hl2|].
        eapply later_trans; [exact Hl3 | exact Hl']. }
      split; [exact Hall|].
      destruct r as [a| |c|]; cbn [loop_progress] in *; auto.
      destruct Hp as [Hn' Hr']. split; [exact Hn'|].
      destruct Hl2 as (_ & R2 & _). destruct Hl3 as (_ & R3 & _). lia. }
    destruct (negb (h' =? NULL)%nat).
    + apply Hstep, later_refl.
    + apply wp_bind. unfold wp at 1. cbn [fst snd usleep log].
      apply Hstep. apply later_quiet; reflexivity.
Qed.

Section Progress.

Hypothesis BYTE_STEP_pos : 0 < BYTE_STEP.

Lemma display_loop_returns (fuel : nat) (h : Handle) (data : list byte_t)
    (end_ col : Z) (packet : list byte_t) (w : World) :
  (Z.to_nat (end_ - col) <= fuel)%nat ->
  wp (display_loop fuel h data end_ col packet)
     (fun r w' => later w w' /\ exists d, r = Ret d) w.
Proof.
  revert col packet w.
  induction fuel as [|fuel IH]; intros col packet w Hfuel;
    cbn [display_loop]; apply wp_bind;
    (destruct (Z.ltb_spec col end_) as [Hlt|Hge];
     [|unfold wp, ret; cbn [fst snd]; split; [apply later_refl | eauto]]);
    [lia|].
  unfold wp at 1.
  destruct (later_read w) as (Hl & Hv & Hr).
  destruct (read_nonstop w) as [[go| |c|] w1] eqn:Eread;
    try discriminate Eread; cbn [fst snd] in *.
  destruct go; [|unfold wp, ret; cbn [fst snd]; split; [exact Hl | eauto]].
  apply wp_bind. unfold send_display_command. wp_step. wp_prim.
  destruct (negb (to_short (transfer_ret (env w1) (transfers w1))
                  =? PACKET_SIZE)).
  { wp_prim. split; [|eauto].
    eapply later_trans; [exact Hl|]. apply later_quiet; reflexivity. }
  wp_step.
  destruct (negb (to_short (transfer_ret (env w1) (S (transfers w1)))
                  =? PACKET_SIZE)).
  { wp_prim. split; [|eauto].
    eapply later_trans; [exact Hl|]. apply later_quiet; reflexivity. }
  wp_step.
  eapply wp_mono; [|apply IH; lia].
  intros r w' [Hl' Hd]. split; [|exact Hd].
  eapply later_trans; [exact Hl|].
  eapply later_trans; [|exact Hl']. apply later_quiet; reflexivity.
Qed.

Lemma send_loop_progress (fuel rfuel : nat) (data : list byte_t)
    (command_cnt : Z) (h : Handle) (attempts : Z) (w : World) :
  wp (send_loop fuel rfuel data command_cnt h attempts)
     (fun r w' =>
        later w w' /\
        (loop_progress w fuel r w' \/ loop_progress w rfuel r w')) w.
Proof.
  revert h attempts w.
  induction fuel as [|fuel IH]; intros h attempts w;
    cbn [send_loop]; apply wp_bind; unfold wp at 1;
    destruct (later_read w) as (Hl & Hv & Hr);
    destruct (read_nonstop w) as [[go| |c|] w1] eqn:Eread;
    try discriminate Eread; cbn [fst snd] in *;
    (destruct go; [|unfold wp, ret; cbn [fst snd]; split; [exact Hl | left; exact I]]).
  - unfold wp, timeout. cbn [fst snd loop_progress]. split; [exact Hl|].
    left. split; [auto | lia].
  - assert (Hstep : forall h2 attempts2 w3,
               later w1 w3 ->
               wp (send_loop fuel rfuel data command_cnt h2 attempts2)
                  (fun r w' =>
                     later w w' /\
                     (loop_progress w (S fuel) r w'
                      \/ loop_progress w rfuel r w')) w3).
    { intros h2 attempts2 w3 Hl3.
      eapply wp_mono; [|apply IH].
      intros r w' [Hl' Hp].
      split; [eapply later_trans; [exact Hl|];
              eapply later_trans; [exact Hl3 | exact Hl']|].
      destruct Hl3 as (_ & R3 & _).
      destruct r as [a| |c|]; cbn [loop_progress] in *; auto.
      destruct Hp as [[Hn' Hr']|[Hn' Hr']]; [left | right];
        (split; [exact Hn' | lia]). }
    apply wp_bind.
    eapply wp_mono; [|apply display_loop_returns; lia].
    intros r w2 (Hl2 & d & ->).
    apply wp_bind.
    destruct (negb (d =? 0)).
    2:{ unfold wp at 1. cbn [fst snd ret]. apply Hstep. exact Hl2. }
    unfold wp at 1.
    destruct (later_read w2) as (Hl3 & Hv3 & Hr3).
    destruct (read_nonstop w2) as [[go| |c|] w3] eqn:Eread2;
      try discriminate Eread2; cbn [fst snd] in *.
    assert (Hl13 : later w1 w3) by (eapply later_trans; eassumption).
    destruct go; [|apply Hstep; exact Hl13].
    apply wp_bind. unfold reconnection. apply wp_bind.
    apply wp_total;
      [apply emits_release_and_close | apply never_exits_release_and_close
      | apply never_times_out_release_and_close |].
    intros [] w4 Hl4 Hn4. wp_step.
    eapply wp_mono; [|apply reconnect_loop_progress].
    cbn [fst snd].
    intros r w5 [Hl5 Hp5].
    assert (Hl15 : later w1 w5).
    { eapply later_trans; [exact Hl13|].
      eapply later_trans; [exact Hl4|].
      eapply later_trans; [|exact Hl5]. apply later_quiet; reflexivity. }
    destruct r as [[h' a']| |c|]; cbn [loop_progress] in Hp5.
    + apply Hstep. exact Hl15.
    + split; [eapply later_trans; eassumption|]. right.
      destruct Hp5 as [Hn5 Hr5]. split; [exact Hn5|].
      cbn [reads] in Hr5.
      destruct Hl13 as (_ & R13 & _). destruct Hl4 as (_ & R4 & _). lia.
    + contradiction.
    + contradiction.
Qed.

(** X13: in the process that goes on after [daemonize], when a signal is
    delivered once the flag is at 1, that is, before one of the reads of
    the flag, [send_packets] returns: with fuel for more turns than the
    number of reads of the flag before the signal, the run does not run
    out of fuel. No transfer failure and no missing device keeps the
    loops going after the signal. In a process where a [fork] of
    [daemonize] returns the identifier of a child, the run ends there,
    with the status 0. *)
Lemma send_packets_returns_after_signal (fuel : nat) (handle : Handle)
    (data_arr : list byte_t) (pck_cnt verbose : Z) (e : Env) (k : nat) :
  signal_at e k = true -> (k < fuel)%nat ->
  fst (send_packets fuel handle data_arr pck_cnt verbose (init_world e))
  = if forks_away (startup e) then Exited 0 else Ret tt.
Proof.
  intros Hsig Hk.
  as_wp (send_packets fuel handle data_arr pck_cnt verbose) (init_world e).
  apply wp_send_packets; cbn [init_world process]; intros Hf; rewrite Hf;
    [reflexivity|].
  apply wp_bind.
  eapply wp_mono; [|apply send_loop_progress].
  intros r w' [(He & Hr & Hf' & _) Hp].
  cbn [started env reads nonstop] in *.
  destruct r as [cur| |c|]; cbn [loop_progress] in Hp.
  - apply wp_total;
      [apply emits_release_and_close | apply never_exits_release_and_close
      | apply never_times_out_release_and_close |].
    intros [] w2 _ _. reflexivity.
  - exfalso.
    assert (Hn : nonstop w' = true /\ (fuel <= reads w')%nat).
    { destruct Hp as [[Hn Hp]|[Hn Hp]]; split; auto; lia. }
    destruct Hn as [Hn Hfu].
    assert (Hfree : signal_free w').
    { apply Hf'; [|exact Hn]. intros _ i Hi.
      cbn [started init_world reads] in Hi. lia. }
    specialize (Hfree k). rewrite He in Hfree.
    cbn [started init_world env reads] in Hfree, Hfu.
    rewrite Hfree in Hsig; [discriminate | lia].
  - destruct Hp as [[]|[]].
  - destruct Hp as [[]|[]].
Qed.

End Progress.

(** * Further properties of the code *)

(** ** The search of the device list *)

Lemma examined_le (devs : list libusb_device) :
  (examined devs <= length devs)%nat.
Proof.
  induction devs as [|dev rest IH]; simpl; [lia|].
  destruct (compatible dev); lia.
Qed.

Lemma is_compatible_mic_bool (dev : libusb_device) :
  is_compatible_mic dev = 0 \/ is_compatible_mic dev = 1.
Proof.
  unfold is_compatible_mic, libusb_get_device_descriptor.
  destruct (descriptor_ret dev <? 0); auto.
  destruct (idVendor (descriptor dev) =? DEV_VID_KINGSTON);
    [apply scan_product_ids_bool|].
  destruct (idVendor (descriptor dev) =? DEV_VID_HP);
    [apply scan_product_ids_bool | auto].
Qed.

Lemma compatible_true (dev : libusb_device) :
  compatible dev = true -> is_compatible_mic dev = 1.
Proof.
  unfold compatible.
  destruct (is_compatible_mic_bool dev) as [-> | ->];
    [discriminate | reflexivity].
Qed.

Lemma compatible_false (dev : libusb_device) :
  compatible dev = false -> is_compatible_mic dev = 0.
Proof.
  unfold compatible. intros H. apply negb_false_iff, Z.eqb_eq in H. exact H.
Qed.

Lemma find_compatible_first (devs : list libusb_device) :
  match find compatible devs with
  | Some dev =>
      exists before after,
        devs = before ++ dev :: after /\ is_compatible_mic dev = 1 /\
        Forall (fun d => is_compatible_mic d = 0) before /\
        examined devs = S (length before)
  | None =>
      Forall (fun d => is_compatible_mic d = 0) devs /\
      examined devs = length devs
  end.
Proof.
  induction devs as [|d rest IH]; cbn [find examined]; [auto|].
  destruct (compatible d) eqn:E.
  - exists [], rest. auto using compatible_true.
  - apply compatible_false in E. destruct (find compatible rest) as [dev|].
    + destruct IH as (before & after & -> & H1 & HF & Hn).
      exists (d :: before), after. cbn [app length]. auto.
    + destruct IH as [HF Hn]. cbn [length]. auto.
Qed.

Lemma dev_search_loop_pauses (devs : list libusb_device) (w : World) :
  wp (dev_search_loop devs)
     (fun r w' =>
        r = Ret (find compatible devs) /\
        trace w' = repeat (EvUsleep 10000) (examined devs) ++ trace w) w.
Proof.
  revert w. induction devs as [|dev rest IH]; intros w;
    cbn [dev_search_loop find examined].
  - wp_prim. auto.
  - wp_step. unfold compatible at 1 3.
    destruct (negb (is_compatible_mic dev =? 0)).
    + wp_prim. auto.
    + eapply wp_mono; [|apply IH].
      intros r w' [-> Ht]. split; [reflexivity|].
      rewrite Ht. cbn [trace repeat]. rewrite repeat_app_cons. reflexivity.
Qed.

(** X1: [dev_search] returns the first device, in the order of the list,
    that [is_compatible_mic] accepts, and NULL when there is none; it stops
    at that device, and it has waited 10 ms once for every device it looked
    at and done nothing else. With a count of zero or less it returns NULL
    at once. *)
Theorem dev_search_returns_first_match (devs : list libusb_device) (cnt : Z)
    (w : World) :
  let listed := firstn (Z.to_nat cnt) devs in
  let run := dev_search devs cnt w in
  fst run = Ret (find compatible listed) /\
  history (snd run)
  = history w ++ repeat (EvUsleep 10000) (examined listed) /\
  match find compatible listed with
  | Some dev =>
      exists before after,
        listed = before ++ dev :: after /\ is_compatible_mic dev = 1 /\
        Forall (fun d => is_compatible_mic d = 0) before /\
        examined listed = S (length before)
  | None =>
      Forall (fun d => is_compatible_mic d = 0) listed /\
      examined listed = length listed
  end /\
  (cnt <= 0 -> run = (Ret None, w)).
Proof.
  intros listed run.
  assert (H := dev_search_loop_pauses listed w). unfold wp in H.
  change (dev_search_loop listed w) with run in H. destruct H as [Hr Ht].
  split; [exact Hr|]. split.
  { unfold history. rewrite Ht, rev_app_distr, rev_repeat_same. reflexivity. }
  split; [apply find_compatible_first|].
  intros Hc. subst run listed. unfold dev_search.
  replace (Z.to_nat cnt) with O by lia. reflexivity.
Qed.

(** ** The claim of the interfaces *)

(** X2: [claim_dev_interface] claims both interfaces or none: when it
    returns 0 the interfaces 0 and 1 of the handle are claimed, and when it
    fails it returns 1 and has released whatever it had claimed on the
    way, so that the process holds what it held before the call. *)
Theorem claim_dev_interface_all_or_nothing (init : list Resource)
    (h : Handle) (w : World) :
  let run := claim_dev_interface h w in
  (fst run = Ret 0 /\
   held init (trace (snd run))
   = ClaimedInterface h 1 :: ClaimedInterface h 0 :: held init (trace w)) \/
  (fst run = Ret 1 /\ held init (trace (snd run)) = held init (trace w)).
Proof.
  intros run.
  assert (H := wp_conj _ _ _ w (claim_dev_interface_outcome h w)
                 (claim_dev_interface_held init _ h w eq_refl)).
  unfold wp in H. fold run in H. destruct H as [[_ Ho] Hh].
  destruct (claim_attempts (env w) 3 (claims w) 0 0) as [claimed [e0 e1]].
  destruct claimed; destruct Ho as [Hr _]; rewrite Hr in Hh |- *;
    [left | right]; auto.
Qed.

Lemma claim_loop_last_turn (fuel : nat) (h : Handle) (retry e0 e1 : Z) :
  3 <= retry -> claim_loop fuel h retry e0 e1 = ret (false, (e0, e1)).
Proof.
  intros H. destruct fuel; cbn [claim_loop];
    (destruct (retry <? 3) eqn:E; [lia | reflexivity]).
Qed.

Lemma claim_log_app (l1 l2 : list Event) :
  claim_log (l1 ++ l2) = claim_log l1 ++ claim_log l2.
Proof.
  induction l1 as [|e l1 IH]; [reflexivity|].
  destruct e; simpl; rewrite IH; reflexivity.
Qed.

Lemma pauses_app (l1 l2 : list Event) :
  pauses (l1 ++ l2) = pauses l1 ++ pauses l2.
Proof.
  induction l1 as [|e l1 IH]; [reflexivity|].
  destruct e; simpl; rewrite IH; reflexivity.
Qed.

Lemma concat_repeat_snoc {A} (l : list A) (k : nat) :
  concat (repeat l k) ++ l = concat (repeat l (S k)).
Proof.
  induction k as [|k IH]; simpl; [rewrite app_nil_r; reflexivity|].
  rewrite <- app_assoc, IH. reflexivity.
Qed.

Lemma optional_release (b : bool) (h : Handle) (iface : Z) (w : World) :
  exists w' q,
    (if b then libusb_release_interface h iface else ret tt) w = (Ret tt, w')
    /\ trace w' = q ++ trace w /\ claim_log q = [] /\ pauses q = [].
Proof.
  destruct b.
  - eexists _, [EvRelease h iface]. split; [reflexivity|]. auto.
  - exists w, []. auto.
Qed.

(** The rounds of the retry loop, newest event first: [k] rounds, each a
    claim of interface 0 and one of interface 1. *)
Lemma claim_loop_rounds (fuel : nat) (h : Handle) :
  forall (retry e0 e1 : Z) (w : World),
    0 <= retry < 3 -> 3 <= retry + Z.of_nat fuel ->
    wp (claim_loop fuel h retry e0 e1)
       (fun r w' =>
          exists (k : nat) (evs : list Event) (c0 c1 : Z)
                 (rest : list (Handle * Z * Z)),
            (1 <= k)%nat /\ Z.of_nat k + retry <= 3 /\
            trace w' = evs ++ trace w /\
            map fst (claim_log evs) = concat (repeat [(h, 1); (h, 0)] k) /\
            pauses evs
            = repeat 100000 (if retry =? 0 then (k - 1)%nat else k) /\
            claim_log evs = (h, 1, c1) :: (h, 0, c0) :: rest /\
            r = Ret ((c0 =? 0) && (c1 =? 0), (c0, c1)) /\
            ((c0 =? 0) && (c1 =? 0) = false -> Z.of_nat k + retry = 3)) w.
Proof.
  induction fuel as [|fuel IH]; intros retry e0 e1 w Hr Hf; [lia|].
  cbn [claim_loop]. destruct (retry <? 3) eqn:E; [|lia].
  apply wp_bind.
  set (w0 := snd ((if 0 <? retry then usleep 100000 else ret tt) w)).
  assert (H0 : (if 0 <? retry then usleep 100000 else ret tt) w = (Ret tt, w0)
               /\ exists p, trace w0 = p ++ trace w /\ claim_log p = [] /\
                    pauses p = repeat 100000 (if retry =? 0 then 0%nat else 1%nat)).
  { subst w0. destruct (0 <? retry) eqn:E0.
    - split; [reflexivity|]. exists [EvUsleep 100000].
      replace (retry =? 0) with false by lia. auto.
    - split; [reflexivity|]. exists [].
      replace (retry =? 0) with true by lia. auto. }
  clearbody w0. destruct H0 as [H0 (p & Hp & Hpc & Hpp)].
  unfold wp at 1. rewrite H0. cbn [fst snd].
  wp_step. wp_step.
  set (c0 := claim_ret (env w0) (claims w0)).
  set (c1 := claim_ret (env w0) (S (claims w0))).
  destruct ((c0 =? 0) && (c1 =? 0)) eqn:Eok.
  { wp_prim. exists 1%nat, (EvClaim h 1 c1 :: EvClaim h 0 c0 :: p), c0, c1, [].
    rewrite Eok, Hp. cbn [claim_log pauses map fst repeat concat app].
    rewrite Hpc, Hpp.
    repeat split; try lia; try reflexivity; try discriminate;
      try (destruct (retry =? 0); reflexivity). }
  apply wp_bind.
  match goal with
  | |- wp _ _ ?W =>
      destruct (optional_release (c0 =? 0) h 0 W) as (w2 & q2 & H2 & Ht2 & Hc2 & Hp2)
  end.
  unfold wp at 1. rewrite H2. cbn [fst snd]. apply wp_bind.
  destruct (optional_release (c1 =? 0) h 1 w2) as (w3 & q3 & H3 & Ht3 & Hc3 & Hp3).
  unfold wp at 1. rewrite H3. cbn [fst snd].
  cbn [trace] in Ht2.
  assert (Ht : trace w3
               = (q3 ++ q2 ++ EvClaim h 1 c1 :: EvClaim h 0 c0 :: p) ++ trace w).
  { rewrite Ht3, Ht2, Hp, <- !app_assoc. reflexivity. }
  assert (Hcl : claim_log (q3 ++ q2 ++ EvClaim h 1 c1 :: EvClaim h 0 c0 :: p)
                = [(h, 1, c1); (h, 0, c0)]).
  { rewrite !claim_log_app, Hc3, Hc2. cbn [claim_log app]. rewrite Hpc.
    reflexivity. }
  assert (Hpa : pauses (q3 ++ q2 ++ EvClaim h 1 c1 :: EvClaim h 0 c0 :: p)
                = repeat 100000 (if retry =? 0 then 0%nat else 1%nat)).
  { rewrite !pauses_app, Hp3, Hp2. cbn [pauses app]. exact Hpp. }
  destruct (retry + 1 <? 3) eqn:E3.
  - eapply wp_mono; [|apply IH; lia].
    intros r w' (k & evs & c2 & c3 & rest & Hk & Hk3 & Hte & Hm & Hpe & Hce
                 & Hres & Hfail).
    exists (S k), (evs ++ q3 ++ q2 ++ EvClaim h 1 c1 :: EvClaim h 0 c0 :: p),
      c2, c3, (rest ++ [(h, 1, c1); (h, 0, c0)]).
    rewrite claim_log_app, pauses_app, map_app, Hm, Hpe, Hcl, Hpa, Hce.
    rewrite Hte, Ht, <- app_assoc.
    replace (retry + 1 =? 0) with false by lia.
    repeat split; try lia; try reflexivity; try exact Hres;
      try (rewrite <- !app_assoc; reflexivity);
      try (cbn [map fst]; apply concat_repeat_snoc).
    destruct (retry =? 0).
    + rewrite app_nil_r. f_equal. lia.
    + cbn [repeat]. rewrite <- repeat_cons. reflexivity.
  - rewrite claim_loop_last_turn by lia. wp_prim.
    exists 1%nat, (q3 ++ q2 ++ EvClaim h 1 c1 :: EvClaim h 0 c0 :: p),
      c0, c1, [].
    rewrite Hcl, Hpa, Eok.
    repeat split; try lia; try reflexivity; try exact Ht.
Qed.
Lemma claim_log_rev (l : list Event) : claim_log (rev l) = rev (claim_log l).
Proof.
  induction l as [|e l IH]; [reflexivity|]. cbn [rev].
  rewrite claim_log_app, IH. destruct e; cbn [claim_log rev];
    rewrite ?app_nil_r; reflexivity.
Qed.

Lemma pauses_rev (l : list Event) : pauses (rev l) = rev (pauses l).
Proof.
  induction l as [|e l IH]; [reflexivity|]. cbn [rev].
  rewrite pauses_app, IH. destruct e; cbn [pauses rev];
    rewrite ?app_nil_r; reflexivity.
Qed.

Lemma rev_concat_repeat {A} (l : list A) (k : nat) :
  rev (concat (repeat l k)) = concat (repeat (rev l) k).
Proof.
  induction k as [|k IH]; [reflexivity|].
  rewrite <- concat_repeat_snoc, rev_app_distr, IH. reflexivity.
Qed.

(** X3: [claim_dev_interface] sets the automatic detaching of the kernel
    driver, then makes at most three rounds; every round claims interface 0
    and then interface 1, the second whatever the first gave; the rounds
    are 100 ms apart; the function returns 0 when the two claims of the
    last round succeeded, and it returns 1 only after the third round. *)
Theorem claim_dev_interface_rounds (h : Handle) (w : World) :
  let run := claim_dev_interface h w in
  exists (k : nat) (evs : list Event),
    (1 <= k <= 3)%nat /\
    history (snd run) = history w ++ EvAutoDetach h :: evs /\
    map fst (claim_log evs) = concat (repeat [(h, 0); (h, 1)] k) /\
    pauses evs = repeat 100000 (k - 1) /\
    (fst run = Ret 0 <->
     exists earlier, claim_log evs = earlier ++ [(h, 0, 0); (h, 1, 0)]) /\
    (fst run = Ret 0 \/ (fst run = Ret 1 /\ k = 3%nat)).
Proof.
  intros run. subst run. as_wp (claim_dev_interface h) w.
  unfold claim_dev_interface. wp_step. apply wp_bind.
  eapply wp_mono; [|apply (claim_loop_rounds 3); lia].
  intros r w1 (k & evs & c0 & c1 & rest & Hk & Hk3 & Ht & Hm & Hp & Hc
               & -> & Hfail).
  cbn [trace] in Ht.
  assert (Hlast : forall earlier,
            rev (claim_log evs) = earlier ++ [(h, 0, 0); (h, 1, 0)] ->
            (c0 =? 0) && (c1 =? 0) = true).
  { intros earlier He. rewrite Hc in He. cbn [rev] in He.
    rewrite <- app_assoc in He. cbn [app] in He.
    apply (f_equal (@rev _)) in He.
    rewrite !rev_app_distr in He. cbn in He. injection He as ? ? ?.
    subst. reflexivity. }
  assert (Hshape : forall (msg : list Event) (w2 : World),
            claim_log msg = [] -> pauses msg = [] ->
            trace w2 = msg ++ trace w1 ->
            (1 <= k <= 3)%nat /\
            history w2 = history w ++ EvAutoDetach h :: rev evs ++ rev msg /\
            map fst (claim_log (rev evs ++ rev msg))
            = concat (repeat [(h, 0); (h, 1)] k) /\
            pauses (rev evs ++ rev msg) = repeat 100000 (k - 1) /\
            claim_log (rev evs ++ rev msg) = rev (claim_log evs)).
  { intros msg w2 Hmc Hmp Hw2. split; [lia|]. split.
    { unfold history. rewrite Hw2, Ht, !rev_app_distr. cbn [rev].
      rewrite <- !app_assoc. reflexivity. }
    rewrite claim_log_app, pauses_app, !claim_log_rev, !pauses_rev, Hmc, Hmp.
    cbn [rev]. rewrite !app_nil_r, map_rev, Hm, Hp, rev_concat_repeat.
    cbn [Z.eqb]. rewrite rev_repeat_same. auto. }
  destruct ((c0 =? 0) && (c1 =? 0)) eqn:Eok.
  { wp_prim. exists k, (rev evs ++ rev []).
    destruct (Hshape [] w1 eq_refl eq_refl eq_refl) as (H1 & H2 & H3 & H4 & H5).
    split; [exact H1|]. split; [exact H2|]. split; [exact H3|].
    split; [exact H4|]. split; [|left; reflexivity].
    split; [intros _ | reflexivity].
    rewrite H5, Hc. cbn [rev]. apply andb_prop in Eok as [E0 E1].
    apply Z.eqb_eq in E0, E1. rewrite E0, E1.
    exists (rev rest). rewrite <- app_assoc. reflexivity. }
  assert (Hfin : forall (msg : list Event) (w2 : World),
            claim_log msg = [] -> pauses msg = [] ->
            trace w2 = msg ++ trace w1 ->
            wp (ret 1) (fun r w' =>
              exists (k0 : nat) (evs0 : list Event),
                (1 <= k0 <= 3)%nat /\
                history w' = history w ++ EvAutoDetach h :: evs0 /\
                map fst (claim_log evs0) = concat (repeat [(h, 0); (h, 1)] k0) /\
                pauses evs0 = repeat 100000 (k0 - 1) /\
                (r = Ret 0 <->
                 exists earlier,
                   claim_log evs0 = earlier ++ [(h, 0, 0); (h, 1, 0)]) /\
                (r = Ret 0 \/ (r = Ret 1 /\ k0 = 3%nat))) w2).
  { intros msg w2 Hmc Hmp Hw2. wp_prim. exists k, (rev evs ++ rev msg).
    destruct (Hshape msg w2 Hmc Hmp Hw2) as (H1 & H2 & H3 & H4 & H5).
    split; [exact H1|]. split; [exact H2|]. split; [exact H3|].
    split; [exact H4|]. split.
    - split; [discriminate|].
      intros [earlier He]. rewrite H5 in He. apply Hlast in He. discriminate.
    - right. split; [reflexivity|]. specialize (Hfail eq_refl). lia. }
  destruct ((c0 =? LIBUSB_ERROR_BUSY) || (c1 =? LIBUSB_ERROR_BUSY)).
  { wp_step. apply (Hfin [EvStderr [Text BUSY_ERR_MSG]]); reflexivity. }
  destruct ((c0 =? LIBUSB_ERROR_NO_DEVICE) || (c1 =? LIBUSB_ERROR_NO_DEVICE)).
  { wp_step. apply (Hfin [EvStderr [Text OPEN_ERR_MSG]]); reflexivity. }
  apply (Hfin []); reflexivity.
Qed.

(** ** What [open_micro] holds when it ends *)

Lemma emits_search_loop_inert (fuel : nat) (retry_count : Z)
    (devs : DevList) :
  emits inert (search_loop fuel retry_count devs).
Proof.
  revert retry_count devs.
  induction fuel as [|fuel IH]; intros retry_count devs; cbn [search_loop];
    unfold FREE_AND_EXIT;
    repeat (emits_step || apply emits_dev_search_inert || apply IH);
    try exact I.
Qed.

(** The list that the search leaves in [devs]: the one that shows the
    device it returns, and none when it returns no device. *)
Lemma search_loop_list (fuel : nat) :
  forall (retry_count : Z) (w : World),
    wp (search_loop fuel retry_count NoList)
       (fun r _ =>
          match r with
          | Ret (Some _, devs) => exists l, devs = Listed l
          | Ret (None, devs) => devs = NoList
          | _ => True
          end) w.
Proof.
  induction fuel as [|fuel IH]; intros retry_count w; cbn [search_loop];
    (destruct (retry_count <? 3); [|wp_prim; reflexivity]);
    [exact I|].
  apply wp_bind.
  apply (wp_returns inert);
    [destruct (0 <? retry_count); emits_auto
    |destruct (0 <? retry_count); never_exits_auto
    |destruct (0 <? retry_count); never_times_out_auto|].
  intros [] w1 _. wp_step.
  destruct (device_list (env w1) (listings w1)) as [cnt l]. cbn [fst snd].
  destruct (cnt <? 0).
  - destruct (retry_count <? 2); [exact I|]. wp_step. exact I.
  - cbn [devices]. apply wp_bind.
    apply (wp_returns reconnect_event);
      [apply emits_dev_search | apply never_exits_dev_search
      |apply never_times_out_dev_search|].
    intros [dev|] w2 _; [wp_prim; eauto|].
    wp_step. apply IH.
Qed.

(** The opening loop: it ends with an error code of zero only when the
    last call of [libusb_open] made a handle. The loop is entered, or the
    error code it starts with is not zero. *)
Lemma open_loop_held (init R : list Resource) (fuel : nat)
    (dev : libusb_device) :
  forall (retry errcode : Z) (handle : Handle) (w : World),
    (forall i, to_short (open_ret (env w) i) = open_ret (env w) i) ->
    retry < 3 \/ errcode <> 0 ->
    held init (trace w) = R ->
    wp (open_loop fuel dev retry errcode handle)
       (fun r w' =>
          match r with
          | Ret (ec, h') =>
              if ec =? 0
              then h' <> NULL /\ held init (trace w') = OpenHandle h' :: R
              else held init (trace w') = R
          | _ => held init (trace w') = R
          end) w.
Proof.
  induction fuel as [|fuel IH]; intros retry errcode handle w Hrange Hin H;
    cbn [open_loop]; (destruct (retry <? 3) eqn:E;
      [|wp_prim; replace (errcode =? 0) with false by lia; exact H]);
    [exact H|].
  apply wp_bind.
  assert (Hw : wp (if 0 <? retry then usleep 200000 else ret tt)
                  (fun r w' => env w' = env w /\ r = Ret tt /\
                               held init (trace w') = R) w).
  { destruct (0 <? retry); wp_prim; auto. }
  eapply wp_mono; [|exact Hw].
  intros r w1 (He1 & -> & H1).
  wp_step.
  set (e := open_ret (env w1) (opens w1)).
  assert (Hs : to_short e = e) by (subst e; rewrite He1; apply Hrange).
  rewrite Hs.
  destruct (e =? 0) eqn:E0.
  - wp_prim. rewrite E0. cbn [held]. fold e. rewrite E0, H1.
    split; [discriminate | reflexivity].
  - apply IH; cbn [env trace held]; fold e; rewrite ?E0; auto.
    + intros i. rewrite He1. apply Hrange.
    + right. lia.
Qed.

Lemma connection_not_NULL (h : Handle) :
  h <> NULL ->
  connection h = [ClaimedInterface h 1; ClaimedInterface h 0; OpenHandle h].
Proof.
  intros H. unfold connection.
  destruct (h =? NULL)%nat eqn:E; [|reflexivity].
  apply Nat.eqb_eq in E. contradiction.
Qed.

Lemma open_micro_held (e : Env) :
  (forall i, to_short (open_ret e i) = open_ret e i) ->
  wp open_micro
     (fun r w' =>
        match r with
        | Ret h => h <> NULL /\ held [] (trace w') = connection h
        | _ => held [] (trace w') = []
        end) (init_world e).
Proof.
  intros Hrange. unfold open_micro, init_world. wp_step.
  destruct (negb (to_short (init_ret e) =? 0)).
  { wp_step. wp_step. wp_prim. reflexivity. }
  apply wp_bind.
  match goal with
  | |- wp _ _ ?w0 =>
      eapply wp_mono;
        [|apply wp_conj;
          [apply (wp_emits inert _ (fun _ w' => extends inert w0 w'));
           [apply emits_search_loop_inert | intros ? ? H; exact H]
          |apply search_loop_list]]
  end.
  intros r w1 [Hext Hlist].
  assert (H1 : held [] (trace w1) = []).
  { rewrite (extends_held [] _ _ Hext). reflexivity. }
  destruct Hext as [He1 _]. cbn [env] in He1.
  destruct r as [[[dev|] devs]| |c|]; try exact H1.
  2:{ wp_step. unfold FREE_AND_EXIT. destruct devs; wp_step; [exact H1|].
      wp_step. wp_step. wp_prim. exact H1. }
  destruct Hlist as [l ->].
  apply wp_bind.
  eapply wp_mono; [|apply (open_loop_held [] [] 3 dev)]; auto.
  2:{ intros i. rewrite He1. apply Hrange. }
  2:{ left. lia. }
  intros [[ec h]| |c|] w2 H2; try exact H2.
  destruct (ec =? 0); cbn [negb]; [|exact H2].
  destruct H2 as [Hh H2].
  apply wp_bind.
  eapply wp_mono;
    [|apply wp_conj; [apply (claim_dev_interface_outcome h w2)
                     |apply (claim_dev_interface_held [] _ h w2 H2)]].
  intros r w3 [[_ Ho] H3].
  destruct (claim_attempts (env w2) 3 (claims w2) 0 0) as [claimed [e0 e1]].
  destruct claimed; destruct Ho as [-> _]; cbn [Z.eqb] in H3.
  - change (negb (to_short 0 =? 0)) with false. cbv iota.
    wp_step. wp_prim. rewrite connection_not_NULL by exact Hh.
    split; [exact Hh | exact H3].
  - change (negb (to_short 1 =? 0)) with true. cbv iota.
    wp_step. unfold FREE_AND_EXIT. wp_step. wp_step. wp_step. wp_prim.
    cbn [held]. rewrite H3. apply remove_one_head.
Qed.

(** X4: [open_micro] never returns NULL and never leaves a handle behind.
    When it returns, the handle is the one that [libusb_open] made, it is
    open and its interfaces 0 and 1 are claimed, and no fatal condition was
    met. When it calls [exit], the code is [libusberr], no handle is open
    and no interface is claimed, and every list it freed was one that
    [devs] pointed to. In the other runs, those in which a list cannot be
    got or no list shows a supported device, it frees a list that [devs]
    does not point to, its behaviour is undefined from there, and no
    handle has been opened before. The error codes of [libusb_open] are
    taken to fit the [short] variable that receives them. *)
Theorem open_micro_returns_a_connection (e : Env) :
  (forall i, to_short (open_ret e i) = open_ret e i) ->
  let run := open_micro (init_world e) in
  match fst run with
  | Ret handle =>
      handle <> NULL /\ held [] (trace (snd run)) = connection handle /\
      fatal_condition e = None /\ invalid_free e = false
  | Exited code =>
      code = libusberr /\ held [] (trace (snd run)) = [] /\
      fatal_condition e <> None /\ invalid_free e = false
  | Undefined => invalid_free e = true /\ held [] (trace (snd run)) = []
  | Timeout => False
  end.
Proof.
  intros Hrange run.
  assert (Hh := open_micro_held e Hrange). unfold wp in Hh. fold run in Hh.
  assert (Ho := open_micro_outcome e). cbv zeta in Ho. fold run in Ho.
  destruct (invalid_free e).
  { rewrite Ho in Hh |- *. auto. }
  destruct (fatal_condition e) as [f|].
  - destruct Ho as [Hr _]. rewrite Hr in Hh |- *.
    split; [reflexivity|]. split; [exact Hh|]. split; [discriminate|].
    reflexivity.
  - destruct Ho as [[handle Hr] _]. rewrite Hr in Hh |- *.
    destruct Hh as [Hn Hc]. auto.
Qed.

(** ** The cleaning up of [open_micro] *)

Lemma clean_exit_extends (w w1 w' : World) :
  extends not_cleanup w w1 -> clean_exit w1 w' -> clean_exit w w'.
Proof.
  intros [_ (l1 & H1 & F1 & _)] (l2 & H2 & F2).
  exists (l2 ++ l1). rewrite H2, H1, <- app_assoc.
  split; [reflexivity | apply Forall_app; auto].
Qed.

Lemma tidy_bind {A B} (m : M A) (f : A -> M B) :
  tidy m -> (forall a, tidy (f a)) -> tidy (bind m f).
Proof.
  intros Hm Hf w. specialize (Hm w). unfold bind.
  destruct (m w) as [[a| |c|] w1]; cbn [fst snd] in *; try exact Hm.
  specialize (Hf a w1).
  destruct (f a w1) as [[b| |c|] w2]; cbn [fst snd] in *;
    eauto using extends_trans, clean_exit_extends.
Qed.

Lemma tidy_quiet {A} (m : M A) :
  emits not_cleanup m -> never_exits m -> tidy m.
Proof.
  intros He Hn w. specialize (He w). specialize (Hn w).
  destruct (fst (m w)) as [a| |c|]; try exact He; destruct Hn.
Qed.

Lemma tidy_free_device_list (devs : DevList) :
  tidy (libusb_free_device_list devs).
Proof.
  intros w. destruct devs; cbn; [apply extends_refl|].
  split; [reflexivity|]. exists [EvFreeDeviceList].
  repeat split; auto. repeat constructor.
Qed.

Lemma tidy_FREE_AND_EXIT {A} (devs : DevList) : tidy (@FREE_AND_EXIT A devs).
Proof.
  intros w. destruct devs; cbn; [apply extends_refl|].
  exists []. split; [reflexivity | constructor].
Qed.

Lemma reconnect_event_not_cleanup (e : Event) :
  reconnect_event e -> not_cleanup e.
Proof. destruct e; simpl; auto. Qed.

Ltac tidy_step :=
  match goal with
  | |- tidy (bind _ _) => apply tidy_bind; [|intros ?]
  | |- tidy (FREE_AND_EXIT _) => apply tidy_FREE_AND_EXIT
  | |- tidy (libusb_free_device_list _) => apply tidy_free_device_list
  | |- tidy (if ?b then _ else _) => destruct b
  | |- tidy (match ?x with _ => _ end) => destruct x
  | |- tidy (dev_search _ _) =>
      apply tidy_quiet;
      [eapply emits_weaken;
       [apply reconnect_event_not_cleanup | apply emits_dev_search]
      |apply never_exits_dev_search]
  | |- tidy (claim_dev_interface _) =>
      apply tidy_quiet;
      [eapply emits_weaken;
       [apply reconnect_event_not_cleanup | apply emits_claim_dev_interface]
      |apply never_exits_claim_dev_interface]
  | |- tidy _ => apply tidy_quiet; [emits_auto | never_exits_auto]
  end.

Lemma tidy_search_loop (fuel : nat) (retry_count : Z) (devs : DevList) :
  tidy (search_loop fuel retry_count devs).
Proof.
  revert retry_count devs.
  induction fuel as [|fuel IH]; intros retry_count devs; cbn [search_loop];
    repeat (apply IH || tidy_step).
Qed.

Lemma tidy_open_loop (fuel : nat) (dev : libusb_device) (retry_count : Z)
    (errcode : Z) (handle : Handle) :
  tidy (open_loop fuel dev retry_count errcode handle).
Proof.
  revert retry_count errcode handle.
  induction fuel as [|fuel IH]; intros retry_count errcode handle;
    cbn [open_loop]; repeat (apply IH || tidy_step).
Qed.

(** X5: when [open_micro] ends the process after [libusb_init] succeeded,
    its last three actions are the freeing of the device list, the freeing
    of [data_arr] and [libusb_exit], and nothing was freed or shut down
    before; after a failure of [libusb_init] it writes the line of
    [perror], frees [data_arr] and does not call [libusb_exit]. When it
    returns, [data_arr] is not freed and libusb is not shut down. *)
Theorem open_micro_cleans_up_before_exit (e : Env) :
  let run := open_micro (init_world e) in
  match fst run with
  | Exited _ =>
      if to_short (init_ret e) =? 0 then
        exists before,
          history (snd run)
          = before ++ [EvFreeDeviceList; EvFreeData; EvLibusbExit] /\
          Forall not_cleanup before
      else
        history (snd run)
        = [EvInit (init_ret e); EvStderr [Perror "libusb_init"%string];
           EvFreeData]
  | _ => Forall not_cleanup (history (snd run))
  end.
Proof.
  intros run. subst run. as_wp open_micro (init_world e).
  unfold open_micro, init_world. wp_step.
  destruct (to_short (init_ret e) =? 0) eqn:E; cbn [negb].
  2:{ wp_step. wp_step. wp_prim. reflexivity. }
  match goal with
  | |- wp ?m _ ?w => assert (H : tidy m); [|specialize (H w); unfold wp]
  end.
  { repeat (apply tidy_search_loop || apply tidy_open_loop || tidy_step). }
  match type of H with
  | match fst ?r with _ => _ end => destruct r as [[h| |c|] w']
  end; cbn [fst snd] in *.
  - destruct H as [_ (evs & Ht & F & _)]. unfold history. rewrite Ht.
    apply Forall_rev, Forall_app. split; [exact F|]. repeat constructor.
  - destruct H as [_ (evs & Ht & F & _)]. unfold history. rewrite Ht.
    apply Forall_rev, Forall_app. split; [exact F|]. repeat constructor.
  - destruct H as (evs & Ht & F). cbn [trace] in Ht.
    exists (EvInit (init_ret e) :: rev evs). unfold history. rewrite Ht.
    cbn [rev]. rewrite rev_app_distr, <- !app_assoc. cbn [rev app].
    split; [reflexivity|]. constructor; [exact I | apply Forall_rev, F].
  - destruct H as [_ (evs & Ht & F & _)]. unfold history. rewrite Ht.
    apply Forall_rev, Forall_app. split; [exact F|]. repeat constructor.
Qed.

(** ** The device lists *)

Lemma frees_quiet (l tr : list Event) :
  Forall no_list_event l ->
  frees (l ++ tr) = frees tr /\ enumerations (l ++ tr) = enumerations tr.
Proof.
  induction 1 as [|e l He _ IH]; [auto|].
  destruct e; simpl in He |- *; try contradiction; exact IH.
Qed.

Lemma extends_frees (w w' : World) :
  extends no_list_event w w' ->
  frees (trace w') = frees (trace w) /\
  enumerations (trace w') = enumerations (trace w).
Proof. intros [_ (l & -> & F & _)]. apply frees_quiet, F. Qed.

Lemma emits_claim_loop_no_list (fuel : nat) h retry e0 e1 :
  emits no_list_event (claim_loop fuel h retry e0 e1).
Proof.
  revert retry e0 e1.
  induction fuel as [|fuel IH]; intros retry e0 e1; cbn [claim_loop];
    emits_auto.
Qed.

Lemma emits_claim_dev_interface_no_list h :
  emits no_list_event (claim_dev_interface h).
Proof.
  unfold claim_dev_interface.
  apply emits_bind; [emits_auto|]. intros _.
  apply emits_bind; [apply emits_claim_loop_no_list|].
  intros [claimed [e0 e1]]. emits_auto.
Qed.

Lemma keeps_counts_bind {A B} (m : M A) (f : A -> M B) :
  keeps_counts m -> (forall a, keeps_counts (f a)) -> keeps_counts (bind m f).
Proof.
  intros Hm Hf w. specialize (Hm w). unfold bind.
  destruct (m w) as [[a| |c|] w1]; cbn [fst snd] in *; try exact Hm.
  specialize (Hf a w1). destruct Hm as (? & ? & ?), Hf as (? & ? & ?).
  repeat split; congruence.
Qed.

Ltac keeps_counts_step :=
  match goal with
  | |- keeps_counts (bind _ _) => apply keeps_counts_bind; [|intros ?]
  | |- keeps_counts (if ?b then _ else _) => destruct b
  | |- keeps_counts (match ?x with _ => _ end) => destruct x
  | |- keeps_counts _ => solve [intros ?; repeat split]
  end.

Ltac keeps_counts_auto := repeat keeps_counts_step.

Lemma keeps_counts_dev_search (devs : list libusb_device) (cnt : Z) :
  keeps_counts (dev_search devs cnt).
Proof.
  unfold dev_search.
  induction (firstn (Z.to_nat cnt) devs) as [|dev rest IH];
    cbn [dev_search_loop]; repeat (apply IH || keeps_counts_step).
Qed.

Lemma keeps_counts_claim_loop (fuel : nat) h retry e0 e1 :
  keeps_counts (claim_loop fuel h retry e0 e1).
Proof.
  revert retry e0 e1.
  induction fuel as [|fuel IH]; intros retry e0 e1; cbn [claim_loop];
    repeat (apply IH || keeps_counts_step).
Qed.

Lemma keeps_counts_claim_dev_interface h :
  keeps_counts (claim_dev_interface h).
Proof.
  unfold claim_dev_interface.
  repeat (apply keeps_counts_claim_loop || keeps_counts_step).
Qed.

(** [claim_dev_interface] returns, and it leaves the device lists and the
    counts alone. *)
Lemma claim_dev_interface_counts (h : Handle) (w : World) :
  wp (claim_dev_interface h)
     (fun r w' =>
        (exists c, r = Ret c) /\ same_counts w w' /\
        frees (trace w') = frees (trace w) /\
        enumerations (trace w') = enumerations (trace w)) w.
Proof.
  apply wp_conj; [|apply wp_conj].
  - apply (wp_returns no_list_event);
      [apply emits_claim_dev_interface_no_list
      |apply never_exits_claim_dev_interface
      |apply never_times_out_claim_dev_interface|].
    intros a w' _. exists a. reflexivity.
  - apply keeps_counts_claim_dev_interface.
  - apply extends_frees, emits_claim_dev_interface_no_list.
Qed.

Lemma emits_dev_search_no_list (devs : list libusb_device) (cnt : Z) :
  emits no_list_event (dev_search devs cnt).
Proof.
  unfold dev_search.
  induction (firstn (Z.to_nat cnt) devs) as [|dev rest IH]; simpl; emits_auto.
Qed.

Lemma dev_search_counts (devs : list libusb_device) (cnt : Z) (w : World) :
  wp (dev_search devs cnt)
     (fun r w' =>
        (exists d, r = Ret d) /\ same_counts w w' /\
        frees (trace w') = frees (trace w) /\
        enumerations (trace w') = enumerations (trace w)) w.
Proof.
  apply wp_conj; [|apply wp_conj].
  - apply (wp_returns no_list_event);
      [apply emits_dev_search_no_list
      |apply never_exits_dev_search
      |apply never_times_out_dev_search|].
    intros a w' _. exists a. reflexivity.
  - apply keeps_counts_dev_search.
  - apply extends_frees, emits_dev_search_no_list.
Qed.

(** The loop of [attempt_reconnect]: at most three calls of
    [libusb_open], and the device list is freed when a handle is
    returned. *)
Lemma reopen_loop_counts (fuel : nat) (dev : libusb_device)
    (l : list libusb_device) :
  forall (retry : Z) (h : Handle) (w : World),
    0 <= retry <= 3 -> 3 <= retry + Z.of_nat fuel ->
    wp (reopen_loop fuel dev retry h (Listed l))
       (fun r w' =>
          env w' = env w /\ listings w' = listings w /\
          Z.of_nat (opens w') + retry <= Z.of_nat (opens w) + 3 /\
          enumerations (trace w') = enumerations (trace w) /\
          match r with
          | Ret (Some _) => frees (trace w') = S (frees (trace w))
          | Ret None => frees (trace w') = frees (trace w)
          | _ => False
          end) w.
Proof.
  induction fuel as [|fuel IH]; intros retry h w Hr Hf; cbn [reopen_loop];
    (destruct (retry <? 3) eqn:E; [|wp_prim; repeat split; lia]); [lia|].
  wp_step.
  set (errcode := open_ret (env w) (opens w)).
  assert (Hnext : forall (h' : Handle) (w1 : World),
            env w1 = env w -> listings w1 = listings w ->
            opens w1 = S (opens w) ->
            enumerations (trace w1) = enumerations (trace w) ->
            frees (trace w1) = frees (trace w) ->
            wp (usleep 200000;; reopen_loop fuel dev (retry + 1) h' (Listed l))
               (fun r w' =>
                  env w' = env w /\ listings w' = listings w /\
                  Z.of_nat (opens w') + retry <= Z.of_nat (opens w) + 3 /\
                  enumerations (trace w') = enumerations (trace w) /\
                  match r with
                  | Ret (Some _) => frees (trace w') = S (frees (trace w))
                  | Ret None => frees (trace w') = frees (trace w)
                  | _ => False
                  end) w1).
  { intros h' w1 He Hl Ho Hen Hfr. wp_step.
    eapply wp_mono; [|apply IH; lia].
    cbn [env listings opens trace enumerations frees].
    intros r w' (He' & Hl' & Ho' & Hen' & Hr').
    rewrite He', Hl', Hen', He, Hl, Hen. repeat split; try lia.
    destruct r as [[h2|]| |c|]; try exact Hr'; rewrite Hr', Hfr; auto. }
  destruct (errcode =? 0) eqn:E0.
  2:{ apply wp_bind. wp_prim. apply Hnext; reflexivity. }
  apply wp_bind. apply wp_bind.
  eapply wp_mono; [|apply claim_dev_interface_counts].
  cbn [env listings opens trace enumerations frees].
  intros r w1 ([c ->] & (He & Hl & Ho) & Hfr & Hen).
  cbn [env listings opens] in He, Hl, Ho.
  destruct (c =? 0).
  - wp_step. wp_prim. wp_prim. cbn [frees enumerations].
    rewrite He, Hl, Ho, Hfr, Hen. repeat split; lia.
  - wp_step. wp_prim. apply Hnext; cbn [env listings opens trace]; auto.
Qed.

(** X6: [attempt_reconnect] always returns and never ends the process.
    A handle that it returns is open with its interfaces 0 and 1 claimed,
    and when it returns NULL the process holds what it held before. It
    enumerates the devices once, calls [libusb_open] at most three times,
    and frees the device list once when it got one and not at all when
    the enumeration failed. *)
Theorem attempt_reconnect_outcome (init : list Resource) (w : World) :
  let run := attempt_reconnect w in
  exists handle,
    fst run = Ret handle /\
    held init (trace (snd run)) = connection handle ++ held init (trace w) /\
    listings (snd run) = S (listings w) /\
    (opens (snd run) <= opens w + 3)%nat /\
    frees (trace (snd run))
    = (frees (trace w)
       + (if (fst (device_list (env w) (listings w)) <? 0)%Z
          then 0 else 1))%nat.
Proof.
  intros run. subst run.
  assert (Hh := attempt_reconnect_held init _ w eq_refl). unfold wp in Hh.
  revert Hh. as_wp attempt_reconnect w.
  unfold attempt_reconnect. wp_step.
  destruct (device_list (env w) (listings w)) as [cnt devs]. cbn [fst snd].
  destruct (cnt <? 0).
  { wp_prim. intros Hh. exists NULL. cbn [frees]. repeat split; auto; lia. }
  cbn [devices]. apply wp_bind. eapply wp_mono; [|apply dev_search_counts].
  cbn [env listings opens trace enumerations frees].
  intros r w1 ([d ->] & (He & Hl & Ho) & Hfr & Hen).
  cbn [env listings opens] in He, Hl, Ho.
  destruct d as [dev|].
  2:{ wp_step. wp_prim. intros Hh. exists NULL. cbn [frees].
      rewrite Hl, Ho, Hfr. repeat split; auto; lia. }
  apply wp_bind. eapply wp_mono; [|apply (reopen_loop_counts 3); lia].
  intros r w2 (He2 & Hl2 & Ho2 & Hen2 & Hr2).
  destruct r as [[h|]| | |]; try contradiction.
  - wp_prim. intros Hh. exists h. rewrite Hl2, Hl, Hr2, Hfr.
    repeat split; auto; lia.
  - wp_step. wp_prim. intros Hh. exists NULL. cbn [frees].
    rewrite Hl2, Hl, Hr2, Hfr. repeat split; auto; lia.
Qed.

Lemma frees_app (l1 l2 : list Event) :
  frees (l1 ++ l2) = (frees l1 + frees l2)%nat.
Proof.
  induction l1 as [|e l1 IH]; [reflexivity|].
  destruct e; simpl; rewrite IH; reflexivity.
Qed.

Lemma enumerations_app (l1 l2 : list Event) :
  enumerations (l1 ++ l2) = (enumerations l1 + enumerations l2)%nat.
Proof.
  induction l1 as [|e l1 IH]; [reflexivity|].
  destruct e; simpl; rewrite IH; reflexivity.
Qed.

Lemma frees_rev (l : list Event) : frees (rev l) = frees l.
Proof.
  induction l as [|e l IH]; [reflexivity|].
  cbn [rev]. rewrite frees_app, IH. destruct e; simpl; lia.
Qed.

Lemma enumerations_rev (l : list Event) :
  enumerations (rev l) = enumerations l.
Proof.
  induction l as [|e l IH]; [reflexivity|].
  cbn [rev]. rewrite enumerations_app, IH. destruct e; simpl; lia.
Qed.

(** The enumeration loop of [open_micro], with [n] turns to go: every
    turn that gets a list and does not find the device frees it; a turn
    that gets no list frees what [devs] does not point to, after the
    message when the turn is the third. *)
Lemma search_loop_lists (n : nat) :
  forall (fuel : nat) (retry : Z) (w : World),
    (n <= fuel)%nat -> Z.of_nat n = 3 - retry ->
    wp (search_loop fuel retry NoList)
       (fun r w' =>
          (enumerations (trace w') <= enumerations (trace w) + n)%nat /\
          match r with
          | Ret (Some _, devs) =>
              (exists l, devs = Listed l) /\
              (frees (trace w') + enumerations (trace w) + 1
               = enumerations (trace w') + frees (trace w))%nat
          | Ret (None, devs) =>
              devs = NoList /\
              (frees (trace w') + enumerations (trace w)
               = enumerations (trace w') + frees (trace w))%nat /\
              ((n = O /\ trace w' = trace w) \/
               exists tr, trace w' = EvFreeDeviceList :: tr)
          | Undefined =>
              exists cnt tr,
                cnt < 0 /\
                (trace w' = EvGetDeviceList cnt :: tr \/
                 trace w'
                 = EvStderr [Text DEVLIST_ERR_MSG] :: EvGetDeviceList cnt :: tr)
          | Exited _ | Timeout => False
          end) w.
Proof.
  induction n as [|n IH]; intros fuel retry w Hfuel Hn.
  - assert (Hr : (retry <? 3) = false) by (apply Z.ltb_ge; lia).
    destruct fuel; cbn [search_loop]; rewrite Hr; wp_prim;
      (split; [lia|]); (split; [reflexivity|]); (split; [lia|]); left; auto.
  - assert (Hr : (retry <? 3) = true) by (apply Z.ltb_lt; lia).
    destruct fuel as [|fuel]; [lia|].
    cbn [search_loop]. rewrite Hr. apply wp_bind.
    assert (Hw : wp (if 0 <? retry then usleep 500000 else ret tt)
                    (fun r w' =>
                       r = Ret tt /\
                       frees (trace w') = frees (trace w) /\
                       enumerations (trace w') = enumerations (trace w)) w).
    { destruct (0 <? retry); wp_prim; auto. }
    eapply wp_mono; [|exact Hw].
    intros r w1 (-> & Hf & He).
    wp_step.
    destruct (device_list (env w1) (listings w1)) as [cnt devs].
    cbn [fst snd].
    destruct (cnt <? 0) eqn:Ecnt.
    + apply Z.ltb_lt in Ecnt. destruct (retry <? 2).
      * wp_step. cbn [trace enumerations]. split; [lia|]. eauto.
      * wp_step. unfold FREE_AND_EXIT. wp_step.
        cbn [trace enumerations]. split; [lia|]. eauto.
    + cbn [devices]. apply wp_bind. eapply wp_mono; [|apply dev_search_counts].
      cbn [trace frees enumerations].
      intros r w2 ([d ->] & _ & Hf2 & He2).
      destruct d as [dev|].
      * wp_prim. split; [lia|]. split; [eauto | lia].
      * wp_step.
        eapply wp_mono; [|apply (IH fuel (retry + 1)); lia].
        cbn [trace frees enumerations].
        intros r w' [Hle Hr']. split; [lia|].
        destruct r as [[[dev|] d]| |c|]; try exact Hr'.
        -- destruct Hr' as [Hd Hb]. split; [exact Hd | lia].
        -- destruct Hr' as (Hd & Hb & Ht). split; [exact Hd|].
           split; [lia|]. right. destruct Ht as [[_ ->] | Ht]; eauto.
Qed.

Lemma emits_open_loop_no_list (fuel : nat) dev retry errcode handle :
  emits no_list_event (open_loop fuel dev retry errcode handle).
Proof.
  revert retry errcode handle.
  induction fuel as [|fuel IH]; intros retry errcode handle; cbn [open_loop];
    emits_auto.
Qed.

Lemma never_exits_open_loop (fuel : nat) dev retry errcode handle :
  never_exits (open_loop fuel dev retry errcode handle).
Proof.
  revert retry errcode handle.
  induction fuel as [|fuel IH]; intros retry errcode handle; cbn [open_loop];
    repeat (apply IH || never_exits_step).
Qed.

Lemma never_times_out_open_loop (fuel : nat) dev retry errcode handle :
  3 <= retry + Z.of_nat fuel ->
  never_times_out (open_loop fuel dev retry errcode handle).
Proof.
  revert retry errcode handle.
  induction fuel as [|fuel IH]; intros retry errcode handle Hf;
    cbn [open_loop]; (destruct (retry <? 3) eqn:E;
      [|apply never_times_out_ret]); [lia|].
  repeat (never_times_out_step; try solve [never_times_out_auto]).
  apply IH. lia.
Qed.

Lemma open_loop_lists (dev : libusb_device) (errcode : Z) (handle : Handle)
    (w : World) :
  wp (open_loop 3 dev 0 errcode handle)
     (fun r w' =>
        (exists x, r = Ret x) /\
        frees (trace w') = frees (trace w) /\
        enumerations (trace w') = enumerations (trace w)) w.
Proof.
  apply wp_conj.
  - apply (wp_returns no_list_event);
      [apply emits_open_loop_no_list
      |apply never_exits_open_loop
      |apply never_times_out_open_loop; lia|].
    intros a w' _. exists a. reflexivity.
  - apply extends_frees, emits_open_loop_no_list.
Qed.

(** X7: [open_micro] enumerates the devices at most three times. In the
    runs in which every list it frees is one that [devs] points to, it has
    called [libusb_free_device_list] once for every call of
    [libusb_get_device_list] when it returns or calls [exit]. In the
    other runs it comes to a call of [libusb_free_device_list] whose
    behaviour is undefined: just after a call of [libusb_get_device_list]
    that failed and gave no list, with the message in between when that
    call was the third; or, when none of three lists showed a supported
    device, just after the message, the list of the last enumeration
    having been freed after the search. *)
Theorem open_micro_frees_once_per_enumeration (e : Env) :
  let run := open_micro (init_world e) in
  (enumerations (history (snd run)) <= 3)%nat /\
  match fst run with
  | Undefined =>
      invalid_free e = true /\
      exists before,
        (exists cnt,
           cnt < 0 /\
           (history (snd run) = before ++ [EvGetDeviceList cnt] \/
            history (snd run)
            = before ++ [EvGetDeviceList cnt;
                         EvStderr [Text DEVLIST_ERR_MSG]])) \/
        history (snd run)
        = before ++ [EvFreeDeviceList; EvStderr [Text NODEV_ERR_MSG]]
  | _ =>
      invalid_free e = false /\
      frees (history (snd run)) = enumerations (history (snd run))
  end.
Proof.
  intros run.
  assert (Ho := open_micro_outcome e). cbv zeta in Ho. fold run in Ho.
  assert (Hinv : match fst run with
                 | Undefined => invalid_free e = true
                 | _ => invalid_free e = false
                 end).
  { destruct (invalid_free e); [rewrite Ho; reflexivity|].
    destruct (fatal_condition e).
    - destruct Ho as [-> _]. reflexivity.
    - destruct Ho as [[h ->] _]. reflexivity. }
  clear Ho.
  cut ((enumerations (trace (snd run)) <= 3)%nat /\
       match fst run with
       | Undefined =>
           exists tr,
             (exists cnt,
                cnt < 0 /\
                (trace (snd run) = EvGetDeviceList cnt :: tr \/
                 trace (snd run)
                 = EvStderr [Text DEVLIST_ERR_MSG] :: EvGetDeviceList cnt
                   :: tr)) \/
             trace (snd run)
             = EvStderr [Text NODEV_ERR_MSG] :: EvFreeDeviceList :: tr
       | _ => frees (trace (snd run)) = enumerations (trace (snd run))
       end).
  { unfold history. rewrite frees_rev, enumerations_rev.
    intros [Hle H]. split; [exact Hle|].
    destruct (fst run); try (split; [exact Hinv | exact H]).
    split; [exact Hinv|].
    destruct H as [tr [(cnt & Hc & [-> | ->]) | ->]]; exists (rev tr);
      cbn [rev]; rewrite <- ?app_assoc; cbn [app]; eauto 6. }
  clear Hinv. subst run.
  as_wp open_micro (init_world e).
  unfold open_micro, init_world. wp_step.
  destruct (to_short (init_ret e) =? 0) eqn:E; cbn [negb].
  2:{ wp_step. wp_step. wp_prim. cbn [frees enumerations].
      split; [lia | reflexivity]. }
  apply wp_bind.
  eapply wp_mono; [|apply (search_loop_lists 3 3 0); lia].
  cbn [trace frees enumerations].
  intros r w1 [Hle Hl].
  destruct r as [[[dev|] devs]| |c|]; try contradiction.
  - destruct Hl as [[l ->] Hb].
    apply wp_bind. eapply wp_mono; [|apply open_loop_lists].
    intros r w2 ([[ec h] ->] & Hf2 & He2).
    destruct (negb (ec =? 0)).
    { wp_step. unfold FREE_AND_EXIT. do 3 wp_step. wp_prim.
      cbn [frees enumerations]. lia. }
    apply wp_bind. eapply wp_mono; [|apply claim_dev_interface_counts].
    intros r w3 ([c ->] & _ & Hf3 & He3).
    destruct (negb (to_short c =? 0)).
    + wp_step. unfold FREE_AND_EXIT. do 3 wp_step. wp_prim.
      cbn [frees enumerations]. lia.
    + wp_step. wp_prim. cbn [frees enumerations]. lia.
  - destruct Hl as (-> & Hb & [[[=] _] | [tr Ht]]).
    wp_step. unfold FREE_AND_EXIT. wp_step.
    cbn [trace enumerations]. split; [lia|].
    exists tr. right. rewrite Ht. reflexivity.
  - split; [lia|]. destruct Hl as (cnt & tr & Hc & Ht). eauto 6.
Qed.

(** ** The streaming daemon *)

Lemma never_exits_display_loop (fuel : nat) h data end_ col packet :
  never_exits (display_loop fuel h data end_ col packet).
Proof.
  revert col packet.
  induction fuel as [|fuel IH]; intros col packet; cbn [display_loop];
    unfold send_display_command; repeat (apply IH || never_exits_step).
Qed.

Lemma never_exits_reconnect_loop (fuel : nat) h attempts :
  never_exits (reconnect_loop fuel h attempts).
Proof.
  revert h attempts.
  induction fuel as [|fuel IH]; intros h attempts; cbn [reconnect_loop];
    repeat (apply IH || apply never_exits_attempt_reconnect
            || never_exits_step).
Qed.

Lemma never_exits_send_loop (fuel rfuel : nat) data command_cnt h attempts :
  never_exits (send_loop fuel rfuel data command_cnt h attempts).
Proof.
  revert h attempts.
  induction fuel as [|fuel IH]; intros h attempts; cbn [send_loop];
    unfold reconnection, display_data_arr;
    repeat (apply IH || apply never_exits_display_loop
            || apply never_exits_reconnect_loop
            || apply never_exits_release_and_close || never_exits_step).
Qed.


Lemma display_data_arr_empty (h : Handle) (data : list byte_t) (end_ : Z)
    (w : World) :
  end_ <= 0 -> display_data_arr h data 0 end_ w = (Ret 0, w).
Proof.
  intros H. unfold display_data_arr.
  replace (Z.to_nat (end_ - 0)) with O by lia. cbn [display_loop].
  replace (0 <? end_) with false by lia. reflexivity.
Qed.

Lemma send_loop_empty (fuel rfuel : nat) (data : list byte_t)
    (command_cnt : Z) :
  2 * BYTE_STEP * command_cnt <= 0 ->
  forall (h : Handle) (attempts : Z) (w : World),
    wp (send_loop fuel rfuel data command_cnt h attempts)
       (fun r w' =>
          extends polling_event w w' /\
          match r with
          | Ret h' => h' = h
          | Timeout =>
              trace w' = repeat (EvNonstop true) (S fuel) ++ trace w
          | Exited _ | Undefined => False
          end) w.
Proof.
  intros Hend.
  induction fuel as [|fuel IH]; intros h attempts w; cbn [send_loop];
    wp_step;
    (assert (H1 : extends polling_event w (snd (read_nonstop w)))
       by (apply emits_read_nonstop; intros v; exact I));
    cbn [read_nonstop snd] in H1;
    (destruct (nonstop w && negb (signal_at (env w) (reads w)));
     [|split; [exact H1 | reflexivity]]);
    [split; [exact H1 | reflexivity]|].
  apply wp_bind. unfold wp at 1.
  rewrite display_data_arr_empty by exact Hend. cbn [fst snd].
  apply wp_bind. cbn [Z.eqb negb]. wp_prim.
  eapply wp_mono; [|apply IH].
  intros r w' [H2 Hr]. split; [eapply extends_trans; eauto|].
  destruct r as [h'| |c|]; try exact Hr.
  rewrite Hr. cbn [trace]. rewrite repeat_app_cons. reflexivity.
Qed.

Lemma polling_event_quiet (l : list Event) :
  Forall polling_event l ->
  transfer_log l = [] /\ total_blocking_time l = 0.
Proof.
  induction 1 as [|e l He _ [IH1 IH2]]; [auto|].
  destruct e; simpl in He |- *; try contradiction; auto.
Qed.

(** X9: with a stream of no colour command, the count being the one that
    the [short] variable [command_cnt] holds, [send_packets] never makes a
    transfer and never waits: apart from its start and from the release of
    the handle at the end, all it does is read the flag, turn after turn;
    a run of [fuel] turns that has not seen the flag at 0 has read it
    [fuel + 1] times and done nothing else. *)
Theorem empty_stream_only_polls (fuel : nat) (handle : Handle)
    (data_arr : list byte_t) (pck_cnt verbose : Z) (e : Env) :
  2 * BYTE_STEP * to_short (count_color_commands data_arr pck_cnt 0) <= 0 ->
  let run := send_packets fuel handle data_arr pck_cnt verbose
                          (init_world e) in
  Forall polling_event (history (snd run)) /\
  transfers_sent (snd run) = [] /\
  total_blocking_time (history (snd run)) = 0 /\
  (fst run = Timeout ->
   history (snd run)
   = start_events verbose e ++ repeat (EvNonstop true) (S fuel)).
Proof.
  intros Hend run.
  assert (H : Forall polling_event (history (snd run)) /\
              (fst run = Timeout ->
               history (snd run)
               = start_events verbose e ++ repeat (EvNonstop true) (S fuel))).
  { subst run.
    as_wp (send_packets fuel handle data_arr pck_cnt verbose) (init_world e).
    apply wp_send_packets; intros Hf.
    { split; [repeat constructor | discriminate]. }
    assert (F0 : Forall polling_event (rev (start_events verbose e))).
    { unfold start_events. destruct (early_signal e); repeat constructor. }
    apply wp_bind. eapply wp_mono; [|apply send_loop_empty; exact Hend].
    cbn [started init_world env nonstop reads trace]. rewrite app_nil_r.
    intros r w1 [[_ (evs & Ht & F & _)] Hr].
    assert (F1 : Forall polling_event (trace w1)).
    { rewrite Ht. apply Forall_app. split; [exact F|].
      cbn [started init_world trace env]. rewrite app_nil_r. exact F0. }
    destruct r as [h'| |c|]; [|split| |]; try contradiction.
    - apply (wp_returns polling_event);
        [unfold release_and_close; emits_auto
        |apply never_exits_release_and_close
        |apply never_times_out_release_and_close|].
      intros a w2 [_ (evs2 & Ht2 & F2 & _)]. split; [|discriminate].
      unfold history. rewrite Ht2. apply Forall_rev, Forall_app. auto.
    - apply Forall_rev, F1.
    - intros _. unfold history. rewrite Hr.
      rewrite rev_app_distr, rev_repeat_same, rev_involutive. reflexivity. }
  destruct H as [HF HT].
  destruct (polling_event_quiet _ HF) as [Hl Hb].
  repeat split; auto.
  unfold transfers_sent.
  destruct (polling_event_quiet (trace (snd run))) as [Hl' _].
  { unfold history in HF. apply Forall_rev in HF.
    rewrite rev_involutive in HF. exact HF. }
  rewrite Hl'. reflexivity.
Qed.

(** ** The pace of the frames *)

(** An invariant of the trace that every pass keeps, and that events
    other than transfers keep, is kept by the whole loop of
    [send_packets]. *)
Lemma wp_quiet {A} (m : M A) (Inv : list Event -> Prop) (w : World) :
  (forall evs tr, Forall (fun e => is_transfer e = false) evs ->
                  Inv tr -> Inv (evs ++ tr)) ->
  emits (fun e => is_transfer e = false) m ->
  Inv (trace w) ->
  wp m (fun _ w' => Inv (trace w')) w.
Proof.
  intros Hq Hm Hi. unfold wp.
  destruct (Hm w) as [_ (evs & -> & F & _)]. apply Hq; assumption.
Qed.

Lemma send_loop_trace_invariant (Inv : list Event -> Prop)
    (data : list byte_t) (command_cnt : Z) :
  (forall evs tr, Forall (fun e => is_transfer e = false) evs ->
                  Inv tr -> Inv (evs ++ tr)) ->
  (forall h w, Inv (trace w) ->
     wp (display_data_arr h data 0 (2 * BYTE_STEP * command_cnt))
        (fun _ w' => Inv (trace w')) w) ->
  forall fuel rfuel h attempts w,
    Inv (trace w) ->
    wp (send_loop fuel rfuel data command_cnt h attempts)
       (fun _ w' => Inv (trace w')) w.
Proof.
  intros Hq Hpass.
  induction fuel as [|fuel IH]; intros rfuel h attempts w Hi;
    cbn [send_loop]; apply wp_bind;
    (eapply wp_mono; [|apply (wp_quiet _ Inv); [exact Hq|emits_auto|exact Hi]]);
    intros [go| |c|] w1 H1; try exact H1; destruct go; try exact H1.
  apply wp_bind.
  eapply wp_mono; [|exact (Hpass h w1 H1)].
  intros [d| |c|] w2 H2; try exact H2.
  apply wp_bind.
  eapply wp_mono; [|apply (wp_quiet _ Inv); [exact Hq| |exact H2]].
  2:{ destruct (negb (d =? 0)); emits_auto. }
  intros [reconnect| |c|] w3 H3; try exact H3.
  destruct reconnect; [|apply IH, H3].
  apply wp_bind. unfold reconnection. apply wp_bind.
  eapply wp_mono; [|apply (wp_quiet _ Inv); [exact Hq| |exact H3]].
  2:{ eapply emits_weaken; [apply reconnect_event_no_transfer|].
      apply emits_release_and_close. }
  intros [[]| |c|] w4 H4; try exact H4.
  apply wp_bind.
  eapply wp_mono; [|apply (wp_quiet _ Inv); [exact Hq|emits_auto|exact H4]].
  intros [[]| |c|] w5 H5; try exact H5.
  eapply wp_mono; [|apply (wp_quiet _ Inv); [exact Hq| |exact H5]].
  2:{ apply emits_reconnect_loop; auto using reconnect_event_no_transfer. }
  intros [[h' a']| |c|] w6 H6; try exact H6.
  apply IH, H6.
Qed.

Lemma send_packets_trace_invariant (Inv : list Event -> Prop)
    (fuel : nat) (handle : Handle) (data_arr : list byte_t)
    (pck_cnt verbose : Z) (e : Env) :
  (forall evs tr, Forall (fun e => is_transfer e = false) evs ->
                  Inv tr -> Inv (evs ++ tr)) ->
  (forall h w, Inv (trace w) ->
     wp (display_data_arr h data_arr 0
           (2 * BYTE_STEP
            * to_short (count_color_commands data_arr pck_cnt 0)))
        (fun _ w' => Inv (trace w')) w) ->
  Inv [] ->
  wp (send_packets fuel handle data_arr pck_cnt verbose)
     (fun _ w' => Inv (trace w')) (init_world e).
Proof.
  intros Hq Hpass H0. apply wp_send_packets; intros Hf.
  { apply (Hq [EvDaemonize verbose] []); [repeat constructor | exact H0]. }
  apply wp_bind.
  eapply wp_mono; [|apply send_loop_trace_invariant; [exact Hq|exact Hpass|]].
  2:{ cbn [started init_world trace env].
      apply Hq; [|exact H0].
      unfold start_events. destruct (early_signal e); repeat constructor. }
  intros [h| |c|] w1 H1; auto.
  apply (wp_quiet _ Inv); [exact Hq| |exact H1].
  eapply emits_weaken; [apply reconnect_event_no_transfer|].
  apply emits_release_and_close.
Qed.

Lemma pace_inv_quiet (evs tr : list Event) :
  Forall (fun e => is_transfer e = false) evs ->
  pace_inv tr -> pace_inv (evs ++ tr).
Proof.
  induction 1 as [|e evs He _ IH]; intros Hi; [exact Hi|].
  specialize (IH Hi). destruct IH as [Hp Hr]. cbn [app]. split.
  - cbn [paced]. split; [|exact Hp].
    destruct (evs ++ tr) as [|older rest]; [exact I|].
    destruct older; try exact I. cbn [at_rest] in Hr. cbn [pace_ok].
    rewrite Hr. exact I.
  - destruct e; try exact I. discriminate.
Qed.

Lemma display_loop_paced (fuel : nat) (h : Handle) (data : list byte_t)
    (end_ col : Z) (packet : list byte_t) (w : World) :
  pace_inv (trace w) ->
  wp (display_loop fuel h data end_ col packet)
     (fun _ w' => pace_inv (trace w')) w.
Proof.
  revert col packet w.
  induction fuel as [|fuel IH]; intros col packet w Hi; cbn [display_loop];
    apply wp_bind;
    (eapply wp_mono;
       [|apply (wp_quiet _ pace_inv);
           [apply pace_inv_quiet
           |destruct (col <? end_); emits_auto
           |exact Hi]]);
    intros [go| |c|] w1 H1; try exact H1; destruct go; try exact H1.
  apply wp_bind. unfold send_display_command. wp_step. wp_prim.
  set (r1 := transfer_ret (env w1) (transfers w1)).
  destruct H1 as [Hp Hr].
  assert (Hp1 : paced (EvTransfer HeaderFrame h col header_packet r1
                       :: trace w1)).
  { cbn [paced]. split; [|exact Hp].
    destruct (trace w1) as [|older rest]; [exact I|].
    destruct older; try exact I. cbn [at_rest] in Hr. cbn [pace_ok].
    rewrite Hr. exact I. }
  destruct (to_short r1 =? PACKET_SIZE) eqn:E1; cbn [negb].
  2:{ wp_prim. split; [exact Hp1 | exact E1]. }
  wp_step.
  set (r2 := transfer_ret (env w1) (S (transfers w1))).
  set (pk := memcpy packet data col (2 * BYTE_STEP)).
  assert (Hp2 : paced (EvTransfer DataFrame h col pk r2
                       :: EvTransfer HeaderFrame h col header_packet r1
                       :: trace w1)).
  { split; [|exact Hp1]. cbn [pace_ok]. rewrite E1. eauto. }
  destruct (to_short r2 =? PACKET_SIZE) eqn:E2; cbn [negb].
  2:{ wp_prim. split; [exact Hp2 | exact E2]. }
  wp_step. apply IH. cbn [trace]. split; [|exact I].
  split; [|exact Hp2]. cbn [pace_ok]. rewrite E2. reflexivity.
Qed.

Lemma paced_app (l1 l2 : list Event) : paced (l1 ++ l2) -> paced l2.
Proof.
  induction l1 as [|e l1 IH]; [auto|]. cbn [app paced]. intros [_ H]. auto.
Qed.

(** X10: in every run of [send_packets], a header that went through is
    followed at once by its data packet, on the same handle and at the
    same read position, whatever signal came in between; and a data packet
    that went through is followed at once by the pause of 20 ms, before
    the flag is looked at and the next header is sent. *)
Theorem frames_are_paced (fuel : nat) (handle : Handle)
    (data_arr : list byte_t) (pck_cnt verbose : Z) (e : Env)
    (before after : list Event) (k : FrameKind) (h : Handle) (pos : Z)
    (pk : list byte_t) (r : Z) :
  history (snd (send_packets fuel handle data_arr pck_cnt verbose
                  (init_world e)))
  = before ++ EvTransfer k h pos pk r :: after ->
  to_short r = PACKET_SIZE ->
  match k with
  | HeaderFrame =>
      exists pk' r' rest, after = EvTransfer DataFrame h pos pk' r' :: rest
  | DataFrame => exists rest, after = EvUsleep (1000 * 20) :: rest
  end.
Proof.
  intros Hh Hr.
  assert (Hi := send_packets_trace_invariant pace_inv fuel handle data_arr
                  pck_cnt verbose e pace_inv_quiet).
  unfold wp in Hi.
  destruct Hi as [Hp Ha].
  { intros h0 w. apply display_loop_paced. }
  { split; exact I. }
  unfold history in Hh. apply (f_equal (@rev _)) in Hh.
  rewrite rev_involutive, rev_app_distr in Hh. cbn [rev] in Hh.
  rewrite <- app_assoc in Hh. cbn [app] in Hh.
  rewrite Hh in Hp, Ha.
  destruct after as [|a rest].
  - cbn [rev app at_rest] in Ha. apply Z.eqb_eq in Hr. congruence.
  - cbn [rev] in Hp. rewrite <- app_assoc in Hp. apply paced_app in Hp.
    destruct Hp as [Hp _]. cbn [app pace_ok] in Hp.
    apply Z.eqb_eq in Hr. rewrite Hr in Hp.
    destruct k.
    + destruct Hp as (pk' & r' & ->). eauto.
    + rewrite Hp. eauto.
Qed.

(** ** The handle of the transfers *)

Lemma on_connection_quiet (init : list Resource) (evs tr : list Event) :
  Forall (fun e => is_transfer e = false) evs ->
  on_connection init tr -> on_connection init (evs ++ tr).
Proof.
  induction 1 as [|e evs He _ IH]; intros Hi; [exact Hi|].
  cbn [app on_connection]. split; [|auto].
  destruct e; try exact I. discriminate.
Qed.

Lemma on_connection_app (init : list Resource) (l1 l2 : list Event) :
  on_connection init (l1 ++ l2) -> on_connection init l2.
Proof.
  induction l1 as [|e l1 IH]; [auto|]. cbn [app on_connection].
  intros [_ H]. auto.
Qed.

Lemma display_loop_on_connection (init : list Resource) (fuel : nat)
    (h : Handle) (data : list byte_t) (end_ col : Z) (packet : list byte_t)
    (w : World) :
  h <> NULL -> held init (trace w) = connection h ->
  on_connection init (trace w) ->
  wp (display_loop fuel h data end_ col packet)
     (fun _ w' => on_connection init (trace w')) w.
Proof.
  intros Hn. revert col packet w.
  induction fuel as [|fuel IH]; intros col packet w Hh Hi; cbn [display_loop];
    apply wp_bind;
    (assert (Hw : wp (if col <? end_ then read_nonstop else ret false)
                     (fun _ w' => held init (trace w') = connection h /\
                                  on_connection init (trace w')) w)
       by (destruct (col <? end_); wp_prim; cbn [held on_connection]; auto));
    (eapply wp_mono; [|exact Hw]);
    intros [go| |c|] w1 [Hh1 H1]; try exact H1; destruct go; try exact H1.
  apply wp_bind. unfold send_display_command. wp_step. wp_prim.
  set (r1 := transfer_ret (env w1) (transfers w1)).
  assert (Hi1 : on_connection init
                  (EvTransfer HeaderFrame h col header_packet r1 :: trace w1)).
  { cbn [on_connection]. auto. }
  destruct (to_short r1 =? PACKET_SIZE); cbn [negb]; [|exact Hi1].
  wp_step.
  set (r2 := transfer_ret (env w1) (S (transfers w1))).
  set (pk := memcpy packet data col (2 * BYTE_STEP)).
  assert (Hi2 : on_connection init
                  (EvTransfer DataFrame h col pk r2
                   :: EvTransfer HeaderFrame h col header_packet r1
                   :: trace w1)).
  { split; [|exact Hi1]. cbn [held]. auto. }
  destruct (to_short r2 =? PACKET_SIZE); cbn [negb]; [|exact Hi2].
  wp_step. apply IH; cbn [trace held on_connection]; auto.
Qed.

Lemma send_loop_on_connection (init : list Resource) (fuel rfuel : nat)
    (data : list byte_t) (command_cnt : Z) :
  forall (h : Handle) (attempts : Z) (w : World),
    held init (trace w) = connection h ->
    h <> NULL \/ nonstop w = false ->
    on_connection init (trace w) ->
    wp (send_loop fuel rfuel data command_cnt h attempts)
       (fun _ w' => on_connection init (trace w')) w.
Proof.
  induction fuel as [|fuel IH]; intros h attempts w Hh Hn Hi;
    cbn [send_loop]; wp_step;
    (destruct (nonstop w && negb (signal_at (env w) (reads w))) eqn:Ego;
     [|wp_prim; cbn [on_connection]; auto]);
    [wp_prim; cbn [on_connection]; auto|].
  assert (Hn1 : h <> NULL).
  { destruct Hn as [Hn|Hn]; [exact Hn|]. rewrite Hn in Ego. discriminate. }
  apply wp_bind.
  match goal with |- wp _ _ ?W => set (w1 := W) end.
  assert (Hh1 : held init (trace w1) = connection h) by exact Hh.
  assert (Hi1 : on_connection init (trace w1)).
  { subst w1. cbn [trace on_connection]. auto. }
  clearbody w1.
  assert (Hd1 : wp (display_data_arr h data 0 (2 * BYTE_STEP * command_cnt))
                   (fun _ w' => held init (trace w') = connection h) w1).
  { apply wp_inert; [apply emits_display_loop | exact Hh1]. }
  assert (Hd2 : wp (display_data_arr h data 0 (2 * BYTE_STEP * command_cnt))
                   (fun _ w' => on_connection init (trace w')) w1).
  { apply display_loop_on_connection; assumption. }
  eapply wp_mono; [|exact (wp_conj _ _ _ _ Hd1 Hd2)].
  intros [d| |c|] w2 [Hh2 H2]; try exact H2.
  apply wp_bind.
  assert (Hw : wp (if negb (d =? 0) then read_nonstop else ret false)
                  (fun _ w' => held init (trace w') = connection h /\
                               on_connection init (trace w')) w2).
  { destruct (negb (d =? 0)); wp_prim; cbn [held on_connection]; auto. }
  eapply wp_mono; [|exact Hw].
  intros [reconnect| |c|] w3 [Hh3 H3]; try exact H3.
  destruct reconnect; [|apply IH; auto].
  apply wp_bind. unfold reconnection. apply wp_bind.
  eapply wp_mono;
    [|apply wp_conj;
        [apply (release_and_close_held init h); exact Hh3
        |apply (wp_quiet _ (on_connection init));
           [apply on_connection_quiet| |exact H3]]].
  2:{ eapply emits_weaken; [apply reconnect_event_no_transfer|].
      apply emits_release_and_close. }
  intros [[]| |c|] w4 [Hh4 H4]; try exact H4.
  wp_step.
  eapply wp_mono;
    [|apply wp_conj;
        [apply (reconnect_loop_held init); exact Hh4
        |apply wp_conj;
           [apply reconnect_loop_exit
           |apply (wp_quiet _ (on_connection init));
              [apply on_connection_quiet| |]]]].
  3:{ cbn [trace on_connection]. auto. }
  2:{ apply emits_reconnect_loop; auto using reconnect_event_no_transfer. }
  intros [[h' a']| |c|] w5 (Hh5 & Hx5 & H5); try exact H5.
  apply IH; auto.
Qed.

(** X11: [send_packets], given a handle that is open with its interfaces
    0 and 1 claimed, makes every transfer on a handle that is in that
    state at that time: the handle it was given, as long as no transfer
    failed, and after a reconnection the handle that the reconnection
    opened and claimed. It never uses a handle that it has closed, nor
    NULL. *)
Theorem transfers_use_the_held_connection (fuel : nat) (handle : Handle)
    (data_arr : list byte_t) (pck_cnt verbose : Z) (e : Env)
    (before after : list Event) (k : FrameKind) (h : Handle) (pos : Z)
    (pk : list byte_t) (r : Z) :
  handle <> NULL ->
  history (snd (send_packets fuel handle data_arr pck_cnt verbose
                  (init_world e)))
  = before ++ EvTransfer k h pos pk r :: after ->
  h <> NULL /\ held (connection handle) (rev before) = connection h.
Proof.
  intros Hn Hh.
  assert (Hi : on_connection (connection handle)
                 (trace (snd (send_packets fuel handle data_arr pck_cnt
                                verbose (init_world e))))).
  { as_wp (send_packets fuel handle data_arr pck_cnt verbose) (init_world e).
    apply wp_send_packets; intros Hf.
    { cbn [daemonized init_world trace on_connection]. auto. }
    apply wp_bind.
    eapply wp_mono;
      [|apply (send_loop_on_connection (connection handle));
          cbn [started init_world trace env]; unfold start_events;
          destruct (early_signal e);
          cbn [app rev trace held on_connection]; auto 6].
    intros [cur| |c|] w1 H1; try exact H1.
    apply (wp_quiet _ (on_connection (connection handle)));
      [apply on_connection_quiet| |exact H1].
    eapply emits_weaken; [apply reconnect_event_no_transfer|].
    apply emits_release_and_close. }
  unfold history in Hh. apply (f_equal (@rev _)) in Hh.
  rewrite rev_involutive, rev_app_distr in Hh. cbn [rev] in Hh.
  rewrite <- app_assoc in Hh. cbn [app] in Hh.
  rewrite Hh in Hi. apply on_connection_app in Hi.
  destruct Hi as [Hi _]. exact Hi.
Qed.

(** ** The result of a pass *)

Section Passes.

Hypothesis BYTE_STEP_pos : 0 < BYTE_STEP.

Lemma display_loop_result (m : nat) :
  forall (fuel : nat) (h : Handle) (data : list byte_t) (command_cnt j : Z)
         (packet : list byte_t) (w : World),
    (m <= fuel)%nat -> m = Z.to_nat (command_cnt - j) ->
    wp (display_loop fuel h data (2 * BYTE_STEP * command_cnt)
                     (2 * BYTE_STEP * j) packet)
       (fun r w' =>
          exists evs, trace w' = evs ++ trace w /\ pass_events h m r evs) w.
Proof.
  induction m as [|m IH];
    intros fuel h data command_cnt j packet w Hfuel Hm.
  - assert (Hge : (2 * BYTE_STEP * j <? 2 * BYTE_STEP * command_cnt) = false).
    { apply Z.ltb_ge. apply Z.mul_le_mono_nonneg_l; lia. }
    destruct fuel; cbn [display_loop]; apply wp_bind; rewrite Hge; wp_prim;
      wp_prim; exists []; (split; [reflexivity|]);
      (split; [cbn; lia|]); (split; [constructor|]); left; auto.
  - assert (Hlt : (2 * BYTE_STEP * j <? 2 * BYTE_STEP * command_cnt) = true).
    { apply Z.ltb_lt. apply Z.mul_lt_mono_pos_l; lia. }
    destruct fuel as [|fuel]; [lia|].
    cbn [display_loop]. apply wp_bind. rewrite Hlt. wp_prim.
    destruct (nonstop w && negb (signal_at (env w) (reads w))).
    2:{ wp_prim. exists [EvNonstop false]. split; [reflexivity|].
        split; [cbn; lia|]. split; [constructor|]. left.
        split; [reflexivity | constructor]. }
    apply wp_bind. unfold send_display_command. wp_step. wp_prim.
    set (col := 2 * BYTE_STEP * j).
    set (r1 := transfer_ret (env w) (transfers w)).
    destruct (to_short r1 =? PACKET_SIZE) eqn:E1; cbn [negb].
    2:{ wp_prim.
        exists [EvTransfer HeaderFrame h col header_packet r1; EvNonstop true].
        split; [reflexivity|]. split; [cbn; lia|].
        split; [repeat constructor|]. right. split; [reflexivity|].
        exists HeaderFrame, col, header_packet, r1, [EvNonstop true].
        split; [reflexivity|]. split; [exact E1 | constructor]. }
    wp_step.
    set (r2 := transfer_ret (env w) (S (transfers w))).
    set (pk := memcpy packet data col (2 * BYTE_STEP)).
    assert (S1 : succeeded (mkTransfer HeaderFrame h col header_packet r1)
                 = true) by exact E1.
    destruct (to_short r2 =? PACKET_SIZE) eqn:E2; cbn [negb].
    2:{ wp_prim.
        exists [EvTransfer DataFrame h col pk r2;
                EvTransfer HeaderFrame h col header_packet r1; EvNonstop true].
        split; [reflexivity|]. split; [cbn; lia|].
        split; [repeat constructor|]. right. split; [reflexivity|].
        exists DataFrame, col, pk, r2,
          [EvTransfer HeaderFrame h col header_packet r1; EvNonstop true].
        split; [reflexivity|]. split; [exact E2|].
        cbn [transfer_log]. repeat constructor. exact S1. }
    assert (S2 : succeeded (mkTransfer DataFrame h col pk r2) = true)
      by exact E2.
    wp_step. subst col.
    replace (2 * BYTE_STEP * j + 2 * BYTE_STEP) with (2 * BYTE_STEP * (j + 1))
      by lia.
    eapply wp_mono; [|apply (IH fuel)]; try lia.
    cbn [trace].
    intros r w' (evs & Ht & Hlen & Hh & Hres).
    set (pre := [EvUsleep (1000 * 20);
                 EvTransfer DataFrame h (2 * BYTE_STEP * j) pk r2;
                 EvTransfer HeaderFrame h (2 * BYTE_STEP * j) header_packet r1;
                 EvNonstop true]).
    assert (Hpre : transfer_log (evs ++ pre)
                   = transfer_log evs
                     ++ [mkTransfer DataFrame h (2 * BYTE_STEP * j) pk r2;
                         mkTransfer HeaderFrame h (2 * BYTE_STEP * j)
                                    header_packet r1]).
    { rewrite transfer_log_app. reflexivity. }
    exists (evs ++ pre). split; [rewrite Ht, <- app_assoc; reflexivity|].
    unfold pass_events. rewrite Hpre. split.
    { rewrite length_app. cbn [length]. lia. }
    split.
    { apply Forall_app. split; [exact Hh | repeat constructor]. }
    destruct Hres as [[-> Hok] | [-> (k & pos & pk' & r' & rest & -> & Hf & Hok)]].
    + left. split; [reflexivity|]. apply Forall_app. split; [exact Hok|].
      repeat constructor; assumption.
    + right. split; [reflexivity|].
      exists k, pos, pk', r', (rest ++ pre). split; [reflexivity|].
      split; [exact Hf|]. rewrite transfer_log_app. apply Forall_app.
      split; [exact Hok|]. cbn [pre transfer_log]. repeat constructor;
        assumption.
Qed.

Lemma transfer_log_rev (l : list Event) :
  transfer_log (rev l) = rev (transfer_log l).
Proof.
  induction l as [|e l IH]; [reflexivity|]. cbn [rev].
  rewrite transfer_log_app, IH. destruct e; cbn [transfer_log rev];
    rewrite ?app_nil_r; reflexivity.
Qed.

(** X12: a pass of [display_data_arr] over [command_cnt] colour commands
    always ends, with 0 or with -1. It makes at most two transfers for
    each command, all on its handle. It returns -1 exactly when a transfer
    failed: that transfer is then the last thing the pass did, and the
    only one that failed. It returns 0 when the stream is exhausted or
    the flag was read as 0, and then every transfer went through. *)
Theorem display_data_arr_result (h : Handle) (data : list byte_t)
    (command_cnt : Z) (w : World) :
  let run := display_data_arr h data 0 (2 * BYTE_STEP * command_cnt) w in
  exists evs,
    history (snd run) = history w ++ evs /\
    (length (transfer_log evs) <= 2 * Z.to_nat command_cnt)%nat /\
    Forall (fun t => t_handle t = h) (transfer_log evs) /\
    ((fst run = Ret 0 /\
      Forall (fun t => succeeded t = true) (transfer_log evs)) \/
     (fst run = Ret (-1) /\
      exists earlier k pos pk r,
        evs = earlier ++ [EvTransfer k h pos pk r] /\
        to_short r <> PACKET_SIZE /\
        Forall (fun t => succeeded t = true) (transfer_log earlier))).
Proof.
  intros run.
  assert (H : wp (display_data_arr h data 0 (2 * BYTE_STEP * command_cnt))
                 (fun r w' =>
                    exists evs, trace w' = evs ++ trace w /\
                      pass_events h (Z.to_nat command_cnt) r evs) w).
  { unfold display_data_arr.
    replace 0 with (2 * BYTE_STEP * 0) at 2 by lia.
    apply (display_loop_result (Z.to_nat command_cnt)).
    - rewrite Z.sub_0_r.
      destruct (Z.le_gt_cases command_cnt 0) as [Hle|Hgt]; [lia|].
      assert (command_cnt <= 2 * BYTE_STEP * command_cnt) by nia. lia.
    - f_equal. lia. }
  unfold wp in H. fold run in H.
  destruct H as (evs & Ht & Hlen & Hh & Hres).
  exists (rev evs). unfold history. rewrite Ht, rev_app_distr.
  rewrite transfer_log_rev, length_rev.
  split; [reflexivity|]. split; [exact Hlen|].
  split; [apply Forall_rev, Hh|].
  destruct Hres as [[Hr Hok] | [Hr (k & pos & pk & r & rest & -> & Hf & Hok)]].
  - left. split; [exact Hr | apply Forall_rev, Hok].
  - right. split; [exact Hr|].
    exists (rev rest), k, pos, pk, r. cbn [rev]. split; [reflexivity|].
    split; [apply Z.eqb_neq, Hf|].
    rewrite transfer_log_rev. apply Forall_rev, Hok.
Qed.

End Passes.

(** ** A signal that comes too early *)

Section EarlySignal.

Hypothesis BYTE_STEP_pos : 0 < BYTE_STEP.

Lemma wp_after {A B} (m : M A) (f : A -> M B) (Q : Res B -> World -> Prop)
    (w : World) :
  (forall a w', wp (f a) Q w') -> (forall w', Q Timeout w') ->
  (forall c w', Q (Exited c) w') -> (forall w', Q Undefined w') ->
  wp (bind m f) Q w.
Proof.
  intros Hf Ht Hx Hu. apply wp_bind. unfold wp at 1.
  destruct (fst (m w)); auto.
Qed.

(** The loop [while(nonstop)] is only left with the flag at 0. *)
Lemma send_loop_ends_at_zero (fuel rfuel : nat) (data : list byte_t)
    (command_cnt : Z) :
  forall (h : Handle) (attempts : Z) (w : World),
    wp (send_loop fuel rfuel data command_cnt h attempts)
       (fun r w' => match r with
                    | Ret _ => nonstop w' = false
                    | _ => True
                    end) w.
Proof.
  induction fuel as [|fuel IH]; intros h attempts w; cbn [send_loop];
    wp_step;
    (destruct (nonstop w && negb (signal_at (env w) (reads w)));
     [|wp_prim; reflexivity]);
    [exact I|].
  apply wp_after; try (intros; exact I). intros d w1.
  apply wp_after; try (intros; exact I). intros reconnect w2.
  destruct reconnect; [|apply IH].
  apply wp_after; try (intros; exact I). intros [h' a'] w3. apply IH.
Qed.

(** X18: a signal that is delivered after [send_packets] has installed
    the handlers and before it sets the flag to 1 is lost: the handler
    runs and sets the flag to 0, then [send_packets] sets it to 1. If no
    other signal comes, the process that goes on after [daemonize] never
    reads the flag as 0 and [send_packets] does not return, whatever the
    fuel. *)
Theorem early_signal_is_lost (fuel : nat) (handle : Handle)
    (data_arr : list byte_t) (pck_cnt verbose : Z) (e : Env) :
  early_signal e = true ->
  (forall i, signal_at e i = false) ->
  forks_away (startup e) = false ->
  let run := send_packets fuel handle data_arr pck_cnt verbose
                          (init_world e) in
  fst run = Timeout /\
  (exists rest,
     history (snd run)
     = [EvDaemonize verbose; EvSignal SIGINT; EvSignal SIGTERM; EvHandler]
       ++ rest) /\
  ~ In (EvNonstop false) (history (snd run)).
Proof.
  intros Hearly Hsig Hdaemon run.
  assert (Hrun : fst run = Timeout /\
                 exists evs,
                   trace (snd run)
                   = evs ++ [EvHandler; EvSignal SIGTERM; EvSignal SIGINT;
                             EvDaemonize verbose]).
  { subst run.
    as_wp (send_packets fuel handle data_arr pck_cnt verbose) (init_world e).
    apply wp_send_packets; cbn [init_world process]; intros Hf;
      [congruence|].
    apply wp_bind.
    eapply wp_mono;
      [|apply wp_conj;
        [apply send_loop_progress
        |apply wp_conj;
           [apply send_loop_ends_at_zero
           |apply wp_conj;
              [apply never_exits_wp, never_exits_send_loop
              |apply (send_loop_trace_invariant
                        (fun tr => exists evs,
                           tr = evs ++ [EvHandler; EvSignal SIGTERM;
                                        EvSignal SIGINT;
                                        EvDaemonize verbose]))]]]].
    - intros r w' ([(He & _ & _ & Hlost) _] & Hz & Hx & Ht).
      destruct r as [cur| |c|]; try contradiction; [|auto].
      exfalso. destruct Hlost as [i Hi]; [reflexivity | exact Hz|].
      cbn [started init_world env] in Hi. rewrite Hsig in Hi. discriminate.
    - exact BYTE_STEP_pos.
    - intros evs tr _ [evs' ->]. exists (evs ++ evs').
      rewrite app_assoc. reflexivity.
    - intros h w [evs' Hw].
      apply (wp_emits inert); [apply emits_display_loop|].
      intros r w' [_ (evs & -> & _)]. rewrite Hw. exists (evs ++ evs').
      rewrite app_assoc. reflexivity.
    - cbn [started init_world trace env]. unfold start_events.
      rewrite Hearly. exists []. reflexivity. }
  destruct Hrun as [Hr [evs Ht]]. split; [exact Hr|]. split.
  - exists (rev evs). unfold history. rewrite Ht, rev_app_distr. reflexivity.
  - pose proof (send_packets_history fuel handle data_arr pck_cnt verbose e)
      as Hh.
    cbv zeta in Hh. fold run in Hh. rewrite Hr in Hh.
    unfold history. rewrite <- in_rev. exact Hh.
Qed.

End EarlySignal.

(** ** Opening, then streaming *)

Lemma keeps_process_bind {A B} (m : M A) (f : A -> M B) :
  keeps_process m -> (forall a, keeps_process (f a)) ->
  keeps_process (bind m f).
Proof.
  intros Hm Hf w. specialize (Hm w). unfold bind.
  destruct (m w) as [[a| |c|] w1]; cbn [fst snd] in *; try exact Hm.
  rewrite (Hf a w1). exact Hm.
Qed.

Ltac keeps_process_step :=
  match goal with
  | |- keeps_process (bind _ _) => apply keeps_process_bind; [|intros ?]
  | |- keeps_process (if ?b then _ else _) => destruct b
  | |- keeps_process (match ?x with _ => _ end) => destruct x
  | |- keeps_process (libusb_free_device_list ?d) => is_var d; destruct d
  | |- keeps_process _ => solve [intros ?; reflexivity]
  end.

Lemma keeps_process_dev_search (devs : list libusb_device) (cnt : Z) :
  keeps_process (dev_search devs cnt).
Proof.
  unfold dev_search.
  induction (firstn (Z.to_nat cnt) devs) as [|dev rest IH];
    cbn [dev_search_loop]; repeat (apply IH || keeps_process_step).
Qed.

Lemma keeps_process_claim_loop (fuel : nat) h retry e0 e1 :
  keeps_process (claim_loop fuel h retry e0 e1).
Proof.
  revert retry e0 e1.
  induction fuel as [|fuel IH]; intros retry e0 e1; cbn [claim_loop];
    repeat (apply IH || keeps_process_step).
Qed.

Lemma keeps_process_search_loop (fuel : nat) retry devs :
  keeps_process (search_loop fuel retry devs).
Proof.
  revert retry devs.
  induction fuel as [|fuel IH]; intros retry devs; cbn [search_loop];
    unfold FREE_AND_EXIT;
    repeat (apply IH || apply keeps_process_dev_search
            || keeps_process_step).
Qed.

Lemma keeps_process_open_loop (fuel : nat) dev retry errcode handle :
  keeps_process (open_loop fuel dev retry errcode handle).
Proof.
  revert retry errcode handle.
  induction fuel as [|fuel IH]; intros retry errcode handle; cbn [open_loop];
    repeat (apply IH || keeps_process_step).
Qed.

(** [open_micro] leaves the state of the process as it is. *)
Lemma keeps_process_open_micro : keeps_process open_micro.
Proof.
  unfold open_micro, claim_dev_interface, FREE_AND_EXIT.
  repeat (apply keeps_process_search_loop || apply keeps_process_open_loop
          || apply keeps_process_claim_loop || keeps_process_step).
Qed.

Lemma send_packets_releases (init : list Resource) (fuel : nat)
    (handle : Handle) (data_arr : list byte_t) (pck_cnt verbose : Z)
    (w : World) :
  held init (trace w) = connection handle ->
  wp (send_packets fuel handle data_arr pck_cnt verbose)
     (fun r w' =>
        match r with
        | Ret _ => forks_away (process w) = false /\ held init (trace w') = []
        | Timeout => forks_away (process w) = false
        | Exited code =>
            code = 0 /\ forks_away (process w) = true /\
            held init (trace w') = connection handle
        | Undefined => False
        end) w.
Proof.
  intros H. apply wp_send_packets; intros Hf; [auto|].
  assert (Hs : held init (trace (started verbose w)) = connection handle).
  { cbn [started trace]. unfold start_events.
    destruct (early_signal (env w)); exact H. }
  apply wp_bind.
  eapply wp_mono;
    [|apply wp_conj; [apply (send_loop_held init); exact Hs
                     |apply never_exits_wp, never_exits_send_loop]].
  intros [cur| |c|] w1 [H1 Hx]; try contradiction; [|exact Hf].
  eapply wp_mono;
    [|apply wp_conj; [apply (release_and_close_held init cur); exact H1
                     |apply never_exits_wp, never_exits_release_and_close]].
  intros [[]| |c|] w2 [H2 Hx2]; try contradiction; auto.
Qed.

(** X15: [open_micro] followed by [send_packets] on the handle it
    returned. When [send_packets] returns, every handle that was opened,
    by [open_micro] or by a reconnection, is closed and every interface
    that was claimed is released. The process ends in two places only.
    One is [open_micro], on a fatal condition, with the code [libusberr]
    and no handle open. The other is [daemonize], at the start of
    [send_packets], in a process where a call of [fork] returns the
    identifier of a child: the code is 0, and the handle that [open_micro]
    returned is still open there, with its two interfaces claimed; nothing
    releases it before that exit. The runs in which [open_micro] frees a
    list that [devs] does not point to stop there, their behaviour being
    undefined from that call on, with no handle open. *)
Theorem open_then_stream_releases_everything (fuel : nat)
    (data_arr : list byte_t) (pck_cnt verbose : Z) (e : Env) :
  (forall i, to_short (open_ret e i) = open_ret e i) ->
  let run := (handle <- open_micro ;;
              send_packets fuel handle data_arr pck_cnt verbose)
               (init_world e) in
  match fst run with
  | Ret _ =>
      fatal_condition e = None /\ invalid_free e = false /\
      forks_away (startup e) = false /\ held [] (trace (snd run)) = []
  | Timeout =>
      fatal_condition e = None /\ invalid_free e = false /\
      forks_away (startup e) = false
  | Exited code =>
      invalid_free e = false /\
      ((code = libusberr /\ fatal_condition e <> None /\
        held [] (trace (snd run)) = [] /\
        snd run = snd (open_micro (init_world e))) \/
       (code = 0 /\ fatal_condition e = None /\
        forks_away (startup e) = true /\
        exists handle,
          fst (open_micro (init_world e)) = Ret handle /\ handle <> NULL /\
          held [] (trace (snd run)) = connection handle))
  | Undefined =>
      invalid_free e = true /\ held [] (trace (snd run)) = [] /\
      snd run = snd (open_micro (init_world e))
  end.
Proof.
  intros Hrange run. subst run.
  assert (Hh := open_micro_held e Hrange). unfold wp in Hh.
  assert (Ho := open_micro_outcome e). cbv zeta in Ho.
  assert (Hp := keeps_process_open_micro (init_world e)).
  cbn [init_world process] in Hp.
  unfold bind.
  destruct (open_micro (init_world e)) as [[handle| |c|] w1];
    cbn [fst snd] in *.
  - destruct (invalid_free e); [discriminate|].
    destruct (fatal_condition e) as [f|]; [destruct Ho; discriminate|].
    destruct Hh as [Hn Hh].
    assert (Hs := send_packets_releases [] fuel handle data_arr pck_cnt
                    verbose w1 Hh).
    unfold wp in Hs. rewrite Hp in Hs.
    destruct (send_packets fuel handle data_arr pck_cnt verbose w1)
      as [[[]| |c|] w2]; cbn [fst snd] in *; try contradiction.
    + destruct Hs. auto.
    + auto.
    + destruct Hs as (-> & Hf & Hs). split; [reflexivity|]. right.
      repeat split; auto. exists handle. auto.
  - destruct (invalid_free e); [discriminate|].
    destruct (fatal_condition e) as [f|]; destruct Ho as [Ho _];
      [discriminate | destruct Ho; discriminate].
  - destruct (invalid_free e); [discriminate|].
    destruct (fatal_condition e) as [f|].
    + destruct Ho as [[= ->] _]. split; [reflexivity|]. left.
      repeat split; auto. discriminate.
    + destruct Ho as [[h Ho] _]. discriminate.
  - destruct (invalid_free e); [auto|].
    destruct (fatal_condition e) as [f|]; destruct Ho as [Ho _];
      [discriminate | destruct Ho; discriminate].
Qed.

(** ** The message of a failed claim *)

Lemma claim_attempts_last_round (e : Env) (c : nat) (claimed : bool)
    (x0 x1 : Z) :
  claim_attempts e 3 c 0 0 = (claimed, (x0, x1)) ->
  if claimed then x0 = 0 /\ x1 = 0
  else x0 = claim_ret e (4 + c) /\ x1 = claim_ret e (5 + c).
Proof.
  cbn [claim_attempts].
  repeat match goal with
         | |- context [(?a =? 0) && (?b =? 0)] =>
             destruct ((a =? 0) && (b =? 0)) eqn:?
         end;
    intros [= <- <- <-]; auto;
    match goal with
    | H : (_ =? 0) && (_ =? 0) = true |- _ =>
        apply andb_prop in H as [H0 H1]; apply Z.eqb_eq in H0, H1; auto
    end.
Qed.

(** X14: what [claim_dev_interface] writes on stderr when it fails is
    chosen by the two error codes of the third round alone, whatever the
    first two rounds gave: the text about another program when one of the
    two is LIBUSB_ERROR_BUSY, else the text of the failed opening when one
    of them is LIBUSB_ERROR_NO_DEVICE, else nothing. When it succeeds it
    writes nothing. *)
Theorem claim_failure_message_is_of_the_last_round (h : Handle) (w : World) :
  let run := claim_dev_interface h w in
  let errcode0 := claim_ret (env w) (4 + claims w) in
  let errcode1 := claim_ret (env w) (5 + claims w) in
  match fst run with
  | Ret c =>
      stderr_output (snd run)
      = stderr_output w
        ++ (if c =? 0 then []
            else if (errcode0 =? LIBUSB_ERROR_BUSY)
                    || (errcode1 =? LIBUSB_ERROR_BUSY)
            then [[Text BUSY_ERR_MSG]]
            else if (errcode0 =? LIBUSB_ERROR_NO_DEVICE)
                    || (errcode1 =? LIBUSB_ERROR_NO_DEVICE)
            then [[Text OPEN_ERR_MSG]]
            else [])
  | _ => False
  end.
Proof.
  intros run errcode0 errcode1.
  assert (Ho := claim_dev_interface_outcome h w). unfold wp in Ho.
  fold run in Ho. destruct Ho as [_ Ho].
  destruct (claim_attempts (env w) 3 (claims w) 0 0) as [claimed [x0 x1]]
    eqn:Ea.
  apply claim_attempts_last_round in Ea. unfold stderr_output.
  destruct claimed.
  - destruct Ho as [-> ->]. cbn [Z.eqb]. rewrite app_nil_r. reflexivity.
  - destruct Ea as [-> ->]. destruct Ho as [-> ->].
    fold errcode0 errcode1. rewrite rev_app_distr.
    change (1 =? 0) with false. cbv iota. f_equal.
    unfold fatal_message, claim_failure.
    destruct ((errcode0 =? LIBUSB_ERROR_BUSY)
              || (errcode1 =? LIBUSB_ERROR_BUSY)); [reflexivity|].
    destruct ((errcode0 =? LIBUSB_ERROR_NO_DEVICE)
              || (errcode1 =? LIBUSB_ERROR_NO_DEVICE)); reflexivity.
Qed.

(** ** Becoming a daemon *)

(** X16: wherever one of its two calls of [fork] returns a positive
    number, [daemonize] ends the process with the status 0; it has
    touched no descriptor, and all that the process writes is what was
    waiting in the buffer of stdout, which [exit] writes out. Everywhere
    else [daemonize] returns, also when a [fork] failed, which it does
    not look at: the working directory is the root, the buffer of stdout
    is empty, and the descriptors 0, 1 and 2 are /dev/null, open for
    reading, for writing and for writing, the others being as they were.
    What was waiting in the buffer of stdout, and after it the line with
    the identifier of the process when [verbose] is not 0, went to the
    file that was open on descriptor 1 at the start, before that
    descriptor was closed. Where the two calls of [fork] returned 0, the
    process is in a session made by [setsid] and leads neither that
    session nor a process group. *)
Theorem daemonize_outcome (verbose : Z) (p : Daemon.Process) :
  let run := Daemon.daemonize verbose p in
  let first := Daemon.fork_ret p (Daemon.forks p) in
  let second := Daemon.fork_ret p (S (Daemon.forks p)) in
  let dev_null := Daemon.mkOpenFile "/dev/null"%string in
  let text :=
    (Daemon.stdout_buffer p
     ++ (if verbose =? 0 then []
         else [(Daemon.PID_MSG, Daemon.pid_after p (2 + Daemon.forks p))]))
    in
  if (0 <? first) || (0 <? second) then
    fst run = Exited 0 /\
    Daemon.descriptors (snd run) = Daemon.descriptors p /\
    Daemon.written (snd run) = Daemon.flushed p
  else
    fst run = Ret tt /\
    Daemon.cwd (snd run) = "/"%string /\
    Daemon.stdout_buffer (snd run) = [] /\
    ((3 <= length (Daemon.descriptors p))%nat ->
     Daemon.descriptors (snd run)
     = Some (dev_null Daemon.O_RDONLY) :: Some (dev_null Daemon.O_WRONLY)
       :: Some (dev_null Daemon.O_WRONLY) :: skipn 3 (Daemon.descriptors p))
    /\
    (forall f, nth_error (Daemon.descriptors p) 1 = Some (Some f) ->
               text <> [] ->
               Daemon.written (snd run) = (f, text) :: Daemon.written p) /\
    (first = 0 -> second = 0 ->
     Daemon.new_session (snd run) = true /\
     Daemon.session_leader (snd run) = false /\
     Daemon.group_leader (snd run) = false).
Proof.
  cbv zeta. destruct p as [fr pa fk cw gl sl ns ds sb wr].
  unfold Daemon.daemonize, Daemon.D_bind, Daemon.chdir, Daemon.fork,
    Daemon.D_exit, Daemon.setsid, Daemon.getpid, Daemon.printf,
    Daemon.fflush_stdout, Daemon.close, Daemon.open, Daemon.D_ret,
    Daemon.flushed.
  cbn [Daemon.fork_ret Daemon.pid_after Daemon.forks Daemon.cwd
       Daemon.group_leader Daemon.session_leader Daemon.new_session
       Daemon.descriptors Daemon.stdout_buffer Daemon.written fst snd].
  set (first := fr fk). set (second := fr (S fk)).
  destruct (0 <? first) eqn:E1; cbn [orb].
  { repeat split; reflexivity. }
  destruct (first =? 0) eqn:F0; [|destruct gl];
    cbn [Daemon.fork_ret Daemon.pid_after Daemon.forks Daemon.cwd
         Daemon.group_leader Daemon.session_leader Daemon.new_session
         Daemon.descriptors Daemon.stdout_buffer Daemon.written fst snd];
    fold second; (destruct (0 <? second) eqn:E2;
                  [repeat split; reflexivity|]);
    (destruct (second =? 0) eqn:S0);
    (destruct (verbose =? 0) eqn:V; cbn [negb]);
    cbn [Daemon.fork_ret Daemon.pid_after Daemon.forks Daemon.cwd
         Daemon.group_leader Daemon.session_leader Daemon.new_session
         Daemon.descriptors Daemon.stdout_buffer Daemon.written fst snd].
  all: destruct ds as [|a [|b [|c rest]]]; destruct sb as [|x sb'];
    cbn [Daemon.lowest_free Daemon.set_descriptor option_map
         Daemon.fork_ret Daemon.pid_after Daemon.forks Daemon.cwd
         Daemon.group_leader Daemon.session_leader Daemon.new_session
         Daemon.descriptors Daemon.stdout_buffer Daemon.written fst snd
         app length skipn nth_error Nat.add];
    (split; [reflexivity|]); (split; [reflexivity|]);
    (split; [reflexivity|]);
    (split; [intros Hlen; cbn [length] in Hlen; try lia; reflexivity|]);
    (split; [|intros ? ?; try lia; auto]).
  all: intros f Hf Ht; try discriminate Hf;
    try (exfalso; apply Ht; reflexivity);
    injection Hf as ->; rewrite ?app_nil_r; reflexivity.
Qed.

(** ** The device comes back *)

Lemma dev_search_loop_run (devs : list libusb_device) (w : World) :
  dev_search_loop devs w
  = (Ret (find compatible devs),
     mkWorld (env w) (nonstop w) (reads w) (transfers w) (listings w)
             (opens w) (claims w)
             (repeat (EvUsleep 10000) (examined devs) ++ trace w)
             (process w)).
Proof.
  revert w. induction devs as [|dev rest IH]; intros w;
    cbn [dev_search_loop find examined].
  - destruct w. reflexivity.
  - unfold bind at 1. cbn [usleep log]. unfold compatible at 1 3.
    destruct (negb (is_compatible_mic dev =? 0)); [reflexivity|].
    rewrite IH. cbn [env nonstop reads transfers listings opens claims trace
                     process repeat].
    rewrite repeat_app_cons. reflexivity.
Qed.

(** X17: when the device is back, the reconnection succeeds at once. If
    the enumeration shows a supported device, [libusb_open] and the two
    claims succeed and no signal comes, then the reconnection releases
    the old connection, waits one second, makes one attempt and returns
    the handle that [libusb_open] made, with the count of failed attempts
    back at 0; the attempt looks at the devices up to the first supported
    one, opens it, claims the interfaces 0 and 1 and frees the list. *)
Theorem reconnection_succeeds_when_device_is_back (rfuel : nat) (h : Handle)
    (attempts : Z) (w : World) (dev : libusb_device) :
  nonstop w = true ->
  signal_at (env w) (reads w) = false ->
  signal_at (env w) (S (reads w)) = false ->
  scan (env w) (listings w) = Some (Some dev) ->
  open_ret (env w) (opens w) = 0 ->
  claim_ret (env w) (claims w) = 0 ->
  claim_ret (env w) (S (claims w)) = 0 ->
  let run := reconnection (S rfuel) h attempts w in
  let cnt := fst (device_list (env w) (listings w)) in
  let listed := firstn (Z.to_nat cnt) (snd (device_list (env w) (listings w)))
  in
  let h' := S (opens w) in
  fst run = Ret (h', 0) /\
  history (snd run)
  = history w ++ release_events h
    ++ [EvUsleep 1000000; EvNonstop true; EvGetDeviceList cnt]
    ++ repeat (EvUsleep 10000) (examined listed)
    ++ [EvOpen (dev_id dev) 0 h'; EvAutoDetach h'; EvClaim h' 0 0;
        EvClaim h' 1 0; EvFreeDeviceList; EvNonstop true].
Proof.
  intros Hn Hs0 Hs1 Hscan Hopen Hc0 Hc1. unfold scan in Hscan.
  destruct (device_list (env w) (listings w)) as [cnt devs] eqn:Ed.
  cbn [fst snd] in Hscan.
  destruct (cnt <? 0) eqn:Ec; [discriminate|]. injection Hscan as Hfind.
  intros run cnt' listed h'. subst run cnt'. cbn [fst snd] in listed.
  as_wp (reconnection (S rfuel) h attempts) w.
  unfold reconnection. apply wp_bind.
  assert (Hrel : wp (release_and_close h)
            (fun r w1 =>
               r = Ret tt /\ env w1 = env w /\ nonstop w1 = nonstop w /\
               reads w1 = reads w /\ listings w1 = listings w /\
               opens w1 = opens w /\ claims w1 = claims w /\
               trace w1 = rev (release_events h) ++ trace w) w).
  { unfold release_and_close, release_events.
    destruct (h =? NULL)%nat; cbn [negb].
    - wp_prim. repeat split; reflexivity.
    - wp_step. wp_step. wp_prim. repeat split; reflexivity. }
  eapply wp_mono; [|exact Hrel].
  intros r w1 (-> & He & Hn1 & Hr1 & Hl1 & Ho1 & Hcl1 & Ht1).
  wp_step. cbn [reconnect_loop]. wp_step.
  rewrite ?Hn1, ?He, ?Hr1, ?Hn, ?Hs0. cbn [andb negb Nat.eqb NULL].
  apply wp_bind. unfold attempt_reconnect. wp_step.
  rewrite ?He, ?Hl1, ?Ed. cbn [fst snd]. rewrite Ec. cbn [devices].
  apply wp_bind. unfold wp at 1, dev_search. fold listed.
  fold listed in Hfind. rewrite dev_search_loop_run, Hfind.
  cbn [fst snd env nonstop reads transfers listings opens claims trace
       process].
  apply wp_bind. cbn [reopen_loop Z.ltb Z.compare].
  wp_step. cbn [env opens]. rewrite ?He, ?Ho1, ?Hopen. cbn [Z.eqb].
  fold h'.
  apply wp_bind. apply wp_bind. unfold claim_dev_interface.
  wp_step. apply wp_bind. cbn [claim_loop Z.ltb Z.compare].
  wp_step. wp_step. cbn [env claims]. rewrite ?He, ?Hcl1, ?Hc0.
  wp_step. cbn [env claims]. rewrite ?He, ?Hcl1, ?Hc1. cbn [Z.eqb andb].
  wp_prim. wp_prim. cbn [Z.eqb]. wp_step. wp_prim. wp_prim. wp_prim.
  cbn [Nat.eqb negb NULL]. subst h'. cbn [Nat.eqb negb].
  unfold NULL. cbv iota. cbn [negb].
  assert (Hlast : forall fuel (w2 : World),
            nonstop w2 = true -> signal_at (env w2) (reads w2) = false ->
            reconnect_loop fuel (S (opens w)) 0 w2
            = (Ret (S (opens w), 0),
               mkWorld (env w2) true (S (reads w2)) (transfers w2)
                       (listings w2) (opens w2) (claims w2)
                       (EvNonstop true :: trace w2) (process w2))).
  { intros fuel w2 H2 H3. destruct fuel; cbn [reconnect_loop];
      unfold bind, read_nonstop; rewrite H2, H3; reflexivity. }
  unfold wp. rewrite Hlast; [|reflexivity|exact Hs1].
  cbn [fst snd]. split; [reflexivity|].
  unfold history. cbn [trace]. rewrite ?Ht1. cbn [rev].
  repeat (rewrite rev_app_distr || (progress cbn [rev])).
  rewrite rev_involutive, rev_repeat_same.
  rewrite <- !app_assoc. reflexivity.
Qed.

End Streaming.

(** * Concrete runs *)

(** The runs below take [BYTE_STEP] = 4, a stream of three colour
    commands and the handle 10. *)

Lemma header_before_each_data_frame_witness :
  let sent := transfers_sent (snd (send_packets 4 example_count 4 10%nat
                                     example_data 1 0 (init_world env_replay)))
  in
  (exists pre' hd,
      firstn 1 sent = pre' ++ [hd] /\ t_kind hd = HeaderFrame /\
      succeeded hd = true /\
      t_handle hd = t_handle (nth 1 sent no_transfer) /\
      t_pos hd = t_pos (nth 1 sent no_transfer)) /\
  (forall n post', skipn 2 sent = n :: post' -> t_kind n = HeaderFrame).
Proof.
  intros sent.
  apply (header_before_each_data_frame 4 example_count 4%nat 10%nat
           example_data 1 0 env_replay
           (firstn 1 sent) (skipn 2 sent) (nth 1 sent no_transfer)).
  - vm_compute. reflexivity.
  - vm_compute. reflexivity.
Defined.

Lemma resume_restarts_stream_witness :
  let sent := transfers_sent (snd (send_packets 4 example_count 4 10%nat
                                     example_data 1 0 (init_world env_replay)))
  in
  let f := nth 3 sent no_transfer in
  let n := nth 4 sent no_transfer in
  (succeeded f = false -> t_kind n = HeaderFrame /\ t_pos n = 0) /\
  (succeeded f = true -> t_kind f = HeaderFrame ->
   t_kind n = DataFrame /\ t_pos n = t_pos f /\ t_handle n = t_handle f) /\
  (succeeded f = true -> t_kind f = DataFrame ->
   t_kind n = HeaderFrame /\
   (t_pos n = 0 \/ (t_pos n = t_pos f + 2 * 4 /\ t_handle n = t_handle f))).
Proof.
  intros sent f n.
  apply (resume_restarts_stream 4 example_count 4%nat 10%nat example_data
           1 0 env_replay (firstn 3 sent) (skipn 5 sent) f n).
  vm_compute. reflexivity.
Defined.

(** The second DataFrame, of position 8, fails; after the reconnection the
    next transfer is at position 0, not at position 8. *)
Lemma replay_after_reconnection :
  ~ resumes_at_failed_frame
      (snd (send_packets 4 example_count 4 10%nat example_data 1 0
              (init_world env_replay))).
Proof.
  intros H.
  set (sent := transfers_sent (snd (send_packets 4 example_count 4 10%nat
                 example_data 1 0 (init_world env_replay)))).
  specialize (H (firstn 3 sent) (skipn 5 sent) (nth 3 sent no_transfer)
                (nth 4 sent no_transfer)).
  assert (H0 : t_pos (nth 4 sent no_transfer)
               = t_pos (nth 3 sent no_transfer)).
  { apply H; vm_compute; reflexivity. }
  vm_compute in H0. discriminate H0.
Qed.

Lemma exhausted_stream_is_sent_again_witness :
  (let run := send_packets 4 example_count 2 10%nat example_data 1 0
                           (init_world env_steady) in
   fst run = Timeout /\
   map frame_of (transfers_sent (snd run))
   = concat (repeat (pass_frames 4 0 3) 2)) /\
  (forall fuel e',
     let run := send_packets 4 example_count fuel 10%nat example_data 1 0
                             (init_world e') in
     fst run = Ret tt -> In (EvNonstop false) (history (snd run))).
Proof.
  apply (exhausted_stream_is_sent_again 4 example_count eq_refl 2%nat 10%nat
           example_data 1 0 env_steady).
  - intros i. reflexivity.
  - intros i. reflexivity.
  - reflexivity.
Defined.

(** With the whole stream sent, no signal and no failure, [send_packets]
    does not return, whatever the fuel. *)
Lemma exhausted_stream_does_not_stop :
  ~ returns_when_exhausted 4 example_count 10%nat example_data 1 0 env_steady.
Proof.
  intros [fuel H].
  destruct (send_packets_no_stop 4 example_count eq_refl fuel 10%nat
              example_data 1 0 env_steady (fun _ => eq_refl)
              (fun _ => eq_refl) eq_refl) as [Ht _].
  rewrite Ht in H. discriminate H.
Qed.

Lemma data_frame_contents_witness :
  Forall (fun t =>
            match t_kind t with
            | HeaderFrame => True
            | DataFrame =>
                Z.of_nat (length (t_packet t)) = PACKET_SIZE /\
                t_packet t =
                  read_bytes example_data (t_pos t) (Z.to_nat (2 * 4))
                  ++ repeat 0 (Z.to_nat (PACKET_SIZE - 2 * 4)) /\
                0 <= t_pos t /\
                t_pos t + 2 * 4
                  <= 2 * 4 * to_short (example_count example_data 1 0) /\
                (0 <= example_count example_data 1 0 ->
                 t_pos t + 2 * 4 <= 2 * 4 * example_count example_data 1 0)
            end)
         (transfers_sent (snd (send_packets 4 example_count 4 10%nat
                                 example_data 1 0 (init_world env_replay)))).
Proof.
  apply (data_frame_contents 4 example_count); [reflexivity|].
  vm_compute. discriminate.
Defined.

(** A signal comes while the first HeaderFrame is sent. The flag is read
    as 0 after the frame and its pause, and again by the test of the
    loop; then the connection is released. *)
Lemma stop_observed_then_shutdown_witness :
  let run := send_packets 4 example_count 4 10%nat example_data 1 0
                          (init_world env_signal_while_sending) in
  let h := history (snd run) in
  (fst run = Ret tt /\
   Forall (fun ev => is_transfer ev = false) (skipn 9 h) /\
   (exists cur,
      held (connection 10%nat) (rev (firstn 8 h)) = connection cur /\
      (skipn 9 h = release_events cur \/
       skipn 9 h = EvNonstop false :: release_events cur)) /\
   held (connection 10%nat) (trace (snd run)) = []) /\
  total_blocking_time (firstn 3 (skipn 5 h))
  <= 2 * (1000 * TIMEOUT) + 1000 * 20.
Proof.
  intros run h.
  destruct (stop_observed_then_shutdown 4 example_count 4 10%nat example_data
              1 0 env_signal_while_sending) as [H1 H2].
  split.
  - apply (H1 (firstn 8 h) (skipn 9 h)). vm_compute. reflexivity.
  - apply (H2 (firstn 4 h) (firstn 3 (skipn 5 h)) (skipn 9 h) true false).
    + vm_compute. reflexivity.
    + vm_compute. repeat constructor.
    + vm_compute. reflexivity.
Defined.

(** In the same run the flag is read again, and found at 0, only after
    the HeaderFrame, its DataFrame and the pause, two transfer timeouts
    and 20 ms later at most, which is more than one timeout and the
    pause. *)
Lemma signal_seen_after_two_timeouts :
  ~ observed_within_a_timeout
      (snd (send_packets 4 example_count 4 10%nat example_data 1 0
              (init_world env_signal_while_sending))).
Proof.
  intros H.
  set (h := history (snd (send_packets 4 example_count 4 10%nat example_data
                            1 0 (init_world env_signal_while_sending)))).
  specialize (H (firstn 4 h) (firstn 3 (skipn 5 h)) (skipn 9 h) true).
  assert (H0 : total_blocking_time (firstn 3 (skipn 5 h))
               <= 1000 * TIMEOUT + 1000 * 20).
  { apply H; [vm_compute; reflexivity | vm_compute; repeat constructor]. }
  vm_compute in H0. apply H0. reflexivity.
Qed.

Lemma failure_with_flag_cleared_skips_reconnect_witness :
  let run := send_packets 4 example_count 4 10%nat example_data 1 0
                          (init_world env_fail_then_signal) in
  (to_short (-1) =? PACKET_SIZE) = false /\
  skipn 7 (history (snd run)) = EvNonstop false :: release_events 10%nat /\
  fst run = Ret tt.
Proof.
  intros run.
  apply (failure_with_flag_cleared_skips_reconnect 4 example_count 4%nat
           10%nat example_data 1 0 env_fail_then_signal
           (firstn 5 (history (snd run))) (skipn 7 (history (snd run)))
           HeaderFrame 10%nat 0 header_packet (-1)).
  vm_compute. reflexivity.
Defined.

(** The device is unplugged after [open_micro] has returned: the first
    transfer fails and [send_packets] calls the reconnection. The world
    [w] is that of this call, and a run of [open_micro] and
    [send_packets] goes through it. *)
Lemma reconnection_retries_forever_witness :
  let w := snd (first_failure 4 example_count example_data 1 0
                  (init_world env_unplugged)) in
  snd ((handle <- open_micro ;;
        send_packets 4 example_count 2 handle example_data 1 0)
         (init_world env_unplugged))
  = snd (reconnection 2 1%nat 0 w) /\
  (let run := reconnection 2 1%nat 0 w in
   fst run = Timeout /\
   history (snd run)
   = history w ++ release_events 1%nat
     ++ EvUsleep 1000000 :: retry_events (env w) (listings w) 2) /\
  (forall fuel h0 w0,
     let run := reconnection fuel h0 0 w0 in
     match fst run with
     | Ret (h', _) => h' <> NULL \/ nonstop (snd run) = false
     | Timeout => True
     | Exited _ | Undefined => False
     end).
Proof.
  intros w. split; [vm_compute; reflexivity|].
  apply (reconnection_retries_forever 2 1%nat 0 w).
  - vm_compute. reflexivity.
  - intros i. reflexivity.
  - intros [|i] Hi; [vm_compute in Hi; lia|].
    right. vm_compute. repeat constructor.
Defined.

Lemma fatal_conditions_end_the_process_witness :
  let run := open_micro (init_world env_claim_busy) in
  (exists code, fst run = Exited code /\ code <> 0) /\
  stderr_output (snd run) = fatal_message ClaimBusy /\
  (ClaimBusy <> ClaimOther -> stderr_output (snd run) <> []) /\
  (ClaimBusy = ClaimOther -> stderr_output (snd run) = []) /\
  fatal_message ClaimBusy <> fatal_message ClaimGone /\
  fatal_message ClaimGone = [[Text OPEN_ERR_MSG]] /\
  ClaimBusy <> DeviceListFailure /\ ClaimBusy <> NoDevice.
Proof.
  apply (fatal_conditions_end_the_process env_claim_busy ClaimBusy).
  - vm_compute. reflexivity.
  - vm_compute. reflexivity.
Defined.

(** A failure of [libusb_init] and a failure to claim the interfaces,
    which are busy, end the process with the same exit code, and a
    failure to claim the interfaces with the error code -99 ends it
    without a message. In none of the three runs is a list freed that
    [devs] does not point to. *)
Lemma fatal_exits_share_code_and_one_is_silent :
  ~ fatal_exits_are_distinct /\ ~ fatal_exits_are_announced.
Proof.
  split.
  - intros H.
    apply (H env_init_failure env_claim_busy InitFailure ClaimBusy);
      [reflexivity | reflexivity | discriminate | reflexivity].
  - intros H.
    apply (H env_claim_other ClaimOther); reflexivity.
Qed.

(** ** Runs for the further properties *)

Lemma open_micro_returns_a_connection_witness :
  let run := open_micro (init_world env_steady) in
  match fst run with
  | Ret handle =>
      handle <> NULL /\ held [] (trace (snd run)) = connection handle /\
      fatal_condition env_steady = None /\ invalid_free env_steady = false
  | Exited code =>
      code = libusberr /\ held [] (trace (snd run)) = [] /\
      fatal_condition env_steady <> None /\ invalid_free env_steady = false
  | Undefined =>
      invalid_free env_steady = true /\ held [] (trace (snd run)) = []
  | Timeout => False
  end.
Proof.
  apply (open_micro_returns_a_connection env_steady).
  intros i. reflexivity.
Defined.

Lemma empty_stream_only_polls_witness :
  let run := send_packets 4 example_no_count 3 10%nat example_data 1 0
                          (init_world env_steady) in
  Forall polling_event (history (snd run)) /\
  transfers_sent (snd run) = [] /\
  total_blocking_time (history (snd run)) = 0 /\
  (fst run = Timeout ->
   history (snd run)
   = [EvDaemonize 0; EvSignal SIGINT; EvSignal SIGTERM]
     ++ repeat (EvNonstop true) 4).
Proof.
  apply (empty_stream_only_polls 4 example_no_count 3 10%nat example_data 1 0
           env_steady).
  vm_compute. discriminate.
Defined.

Lemma frames_are_paced_witness :
  let h := history (snd (send_packets 4 example_count 1 10%nat example_data
                           1 0 (init_world env_steady))) in
  exists pk' r' rest,
    skipn 6 h = EvTransfer DataFrame 10%nat 0 pk' r' :: rest.
Proof.
  intros h.
  apply (frames_are_paced 4 example_count 1 10%nat example_data 1 0
           env_steady (firstn 5 h) (skipn 6 h) HeaderFrame 10%nat 0
           header_packet 64).
  - vm_compute. reflexivity.
  - reflexivity.
Defined.

Lemma transfers_use_the_held_connection_witness :
  let h := history (snd (send_packets 4 example_count 10 10%nat example_data
                           1 0 (init_world env_replay))) in
  1%nat <> NULL /\
  held (connection 10%nat) (rev (firstn 28 h)) = connection 1%nat.
Proof.
  intros h.
  apply (transfers_use_the_held_connection 4 example_count 10 10%nat
           example_data 1 0 env_replay (firstn 28 h) (skipn 29 h)
           HeaderFrame 1%nat 0 header_packet 64).
  - discriminate.
  - vm_compute. reflexivity.
Defined.

Lemma display_data_arr_result_witness :
  let run := display_data_arr 4 10%nat example_data 0 (2 * 4 * 3)
                              (world_streaming env_steady) in
  exists evs,
    history (snd run) = history (world_streaming env_steady) ++ evs /\
    (length (transfer_log evs) <= 2 * Z.to_nat 3)%nat /\
    Forall (fun t => t_handle t = 10%nat) (transfer_log evs) /\
    ((fst run = Ret 0 /\
      Forall (fun t => succeeded t = true) (transfer_log evs)) \/
     (fst run = Ret (-1) /\
      exists earlier k pos pk r,
        evs = earlier ++ [EvTransfer k 10%nat pos pk r] /\
        to_short r <> PACKET_SIZE /\
        Forall (fun t => succeeded t = true) (transfer_log earlier))).
Proof.
  apply (display_data_arr_result 4 eq_refl 10%nat example_data 3
           (world_streaming env_steady)).
Defined.

Lemma send_packets_returns_after_signal_witness :
  fst (send_packets 4 example_count 10 10%nat example_data 1 0
         (init_world env_replay)) = Ret tt.
Proof.
  apply (send_packets_returns_after_signal 4 example_count eq_refl 10
           10%nat example_data 1 0 env_replay 9).
  - reflexivity.
  - repeat constructor.
Defined.

Lemma early_signal_is_lost_witness :
  let run := send_packets 4 example_count 2 10%nat example_data 1 0
                          (init_world env_early_signal) in
  fst run = Timeout /\
  (exists rest,
     history (snd run)
     = [EvDaemonize 0; EvSignal SIGINT; EvSignal SIGTERM; EvHandler]
       ++ rest) /\
  ~ In (EvNonstop false) (history (snd run)).
Proof.
  apply (early_signal_is_lost 4 example_count eq_refl 2 10%nat example_data
           1 0 env_early_signal).
  - reflexivity.
  - intros i. reflexivity.
  - reflexivity.
Defined.

Lemma open_then_stream_releases_everything_witness :
  let run := (handle <- open_micro ;;
              send_packets 4 example_count 10 handle example_data 1 0)
               (init_world env_replay) in
  match fst run with
  | Ret _ =>
      fatal_condition env_replay = None /\ invalid_free env_replay = false /\
      forks_away (startup env_replay) = false /\
      held [] (trace (snd run)) = []
  | Timeout =>
      fatal_condition env_replay = None /\ invalid_free env_replay = false /\
      forks_away (startup env_replay) = false
  | Exited code =>
      invalid_free env_replay = false /\
      ((code = libusberr /\ fatal_condition env_replay <> None /\
        held [] (trace (snd run)) = [] /\
        snd run = snd (open_micro (init_world env_replay))) \/
       (code = 0 /\ fatal_condition env_replay = None /\
        forks_away (startup env_replay) = true /\
        exists handle,
          fst (open_micro (init_world env_replay)) = Ret handle /\
          handle <> NULL /\
          held [] (trace (snd run)) = connection handle))
  | Undefined =>
      invalid_free env_replay = true /\ held [] (trace (snd run)) = [] /\
      snd run = snd (open_micro (init_world env_replay))
  end.
Proof.
  apply (open_then_stream_releases_everything 4 example_count 10
           example_data 1 0 env_replay).
  intros i. reflexivity.
Defined.

Lemma reconnection_succeeds_when_device_is_back_witness :
  let w := world_streaming env_steady in
  let run := reconnection 1 10%nat 5 w in
  fst run = Ret (1%nat, 0) /\
  history (snd run)
  = history w ++ release_events 10%nat
    ++ [EvUsleep 1000000; EvNonstop true; EvGetDeviceList 2]
    ++ repeat (EvUsleep 10000) 2
    ++ [EvOpen 7 0 1%nat; EvAutoDetach 1%nat; EvClaim 1%nat 0 0;
        EvClaim 1%nat 1 0; EvFreeDeviceList; EvNonstop true].
Proof.
  intros w.
  apply (reconnection_succeeds_when_device_is_back 0 10%nat 5 w example_mic);
    reflexivity.
Defined.

End Devio.
